(** * A shallow embedding of [server.js]: the MCP gateway in front of Google Tasks

    The development follows the source file top-down:
    - [Js]        the few JavaScript value and string operations the code relies on
                  (truthiness, [||], [toLowerCase], [startsWith], [slice], [trim],
                  [includes]);
    - [Router]    [requireKey], the API-key middleware;
    - [Effects]   a small state-and-exception monad for code that may throw;
    - [Tools]     [authHeader], [listTaskLists] and the three tool handlers;
    - [Sessions]  the [sessions] / [sessionTimers] maps, [touchSession], the
                  POST and GET/DELETE handlers of [/mcp], split at their [await]s
                  into the atomic blocks the event loop runs;
    - [Logging], [Debug], [OAuth], [TasksRoute]
                  the log line of [/mcp], the debug endpoints, the OAuth
                  callback and the quick test route;
    - [Init], [PostRoute]
                  [initMcpServer] and the way of a POST to [/mcp] through the
                  body parser, the key check and the handler's own [catch].

    Strings are [string] (sequences of one-byte characters, which is what Node
    delivers for header values).  Object identity of a transport is a number
    into a store of transport objects; a timer is a handle into the table of
    armed timeouts. *)

From Stdlib Require Import ZArith Ascii String List Bool Lia.
From stdpp Require Import base option gmap strings list fin_maps.

Local Open Scope string_scope.
Local Open Scope Z_scope.

(* ===================================================================== *)
(** ** JavaScript values and string primitives                            *)
(* ===================================================================== *)

Module Js.

(** The values a header lookup or a parsed query parameter can take:
    [req.get] gives [undefined] or a string, [req.query.key] gives
    [undefined], a string, or an array/object built by the query parser
    (for [?key=a&key=b] or [?key[x]=a]). *)
Inductive value :=
| Undefined
| Null
| Str (s : string)
| Obj.

Definition truthy (v : value) : bool :=
  match v with
  | Undefined | Null => false
  | Str s => negb (String.eqb s "")
  | Obj => true
  end.

(** [a || b] *)
Definition or (a b : value) : value := if truthy a then a else b.

(** [v === k] for a string [k] *)
Definition strict_eq_str (v : value) (k : string) : bool :=
  match v with
  | Str s => String.eqb s k
  | _ => false
  end.

Definition of_option (o : option string) : value :=
  match o with Some s => Str s | None => Undefined end.

(** Truthiness of a [string | undefined]. *)
Definition truthy_str (o : option string) : bool := truthy (of_option o).

Definition is_upper (c : ascii) : bool :=
  let n := nat_of_ascii c in
  (Nat.leb 65 n && Nat.leb n 90) || (Nat.leb 192 n && Nat.leb n 222 && negb (Nat.eqb n 215)).

(** [toLowerCase] on one-byte characters: A-Z and the accented capitals of
    Latin-1 move up by 32; everything else is unchanged. *)
Definition lower_char (c : ascii) : ascii :=
  if is_upper c then ascii_of_nat (nat_of_ascii c + 32) else c.

Fixpoint toLowerCase (s : string) : string :=
  match s with
  | EmptyString => EmptyString
  | String c r => String (lower_char c) (toLowerCase r)
  end.

(** [s.startsWith(p)] *)
Fixpoint startsWith (p s : string) : bool :=
  match p, s with
  | EmptyString, _ => true
  | String a p', String b s' => Ascii.eqb a b && startsWith p' s'
  | String _ _, EmptyString => false
  end.

(** [s.includes(needle)] *)
Fixpoint includes (needle s : string) : bool :=
  startsWith needle s ||
  match s with
  | EmptyString => false
  | String _ r => includes needle r
  end.

(** [s.slice(n)] for [n >= 0] *)
Fixpoint slice (n : nat) (s : string) : string :=
  match n, s with
  | O, _ => s
  | S k, String _ r => slice k r
  | S _, EmptyString => EmptyString
  end.

(** White space removed by [trim], among one-byte characters:
    TAB, LF, VT, FF, CR, space and the no-break space. *)
Definition is_space (c : ascii) : bool :=
  let n := nat_of_ascii c in
  (Nat.leb 9 n && Nat.leb n 13) || Nat.eqb n 32 || Nat.eqb n 160.

Fixpoint trimStart (s : string) : string :=
  match s with
  | String c r => if is_space c then trimStart r else s
  | EmptyString => EmptyString
  end.

Fixpoint trimEnd (s : string) : string :=
  match s with
  | EmptyString => EmptyString
  | String c r =>
      match trimEnd r with
      | EmptyString => if is_space c then EmptyString else String c EmptyString
      | r' => String c r'
      end
  end.

Definition trim (s : string) : string := trimEnd (trimStart s).

End Js.

(* ===================================================================== *)
(** ** The request router: [requireKey]                                   *)
(* ===================================================================== *)

Module Router.

(** The request methods.  A HEAD request is served by the route declared
    for GET when, as here, no route is declared for HEAD itself. *)
Inductive Method := GET | HEAD | POST | DELETE | OPTIONS | PUT.

Definition Method_eqb (a b : Method) : bool :=
  match a, b with
  | GET, GET | HEAD, HEAD | POST, POST | DELETE, DELETE | OPTIONS, OPTIONS
  | PUT, PUT => true
  | _, _ => false
  end.

(** The parts of an incoming request the handlers look at. *)
Record Request := {
  method : Method;
  query_key : Js.value;              (* req.query.key *)
  x_api_key : option string;         (* req.get('X-API-Key') *)
  authorization : option string;     (* req.get('Authorization') *)
  mcp_session_id : option string;    (* req.get('Mcp-Session-Id'), case-insensitive *)
  accept : option string;            (* req.headers['accept'] *)
  body_is_initialize : bool          (* isInitializeRequest(req.body) *)
}.

(** What a middleware or handler does with the response. *)
Inductive Body :=
| Text (s : string)
| JsonRpcError (code : Z) (message : string)     (* {jsonrpc:'2.0', error:{code,message}, id:null} *)
| JsonError (error message : string).            (* {error, message} *)

Inductive Verdict :=
| Next
| Respond (status : Z) (body : Body).

(** [auth?.toLowerCase().startsWith('bearer ') ? auth.slice(7).trim() : null] *)
Definition bearer (auth : option string) : Js.value :=
  match auth with
  | Some a =>
      if Js.startsWith "bearer " (Js.toLowerCase a)
      then Js.Str (Js.trim (Js.slice 7 a))
      else Js.Null
  | None => Js.Null
  end.

(** [q || x || bearer] *)
Definition suppliedKey (req : Request) : Js.value :=
  Js.or (Js.or (query_key req) (Js.of_option (x_api_key req)))
        (bearer (authorization req)).

(** [requireKey], with [API_KEY = process.env.MCP_API_KEY]. *)
Definition requireKey (API_KEY : option string) (req : Request) : Verdict :=
  if Method_eqb (method req) OPTIONS then Next
  else
    let key := suppliedKey req in
    if Js.truthy_str API_KEY && Js.strict_eq_str key (default "" API_KEY)
    then Next
    else Respond 401 (Text "unauthorized").

End Router.

(* ===================================================================== *)
(** ** Effects: state threaded through code that may throw                *)
(* ===================================================================== *)

Module Effects.

(** How a piece of JavaScript ends: with a value, or with an exception. *)
Inductive Outcome (A : Type) :=
| Returned (a : A)
| Thrown (e : string).
Arguments Returned {A} a.
Arguments Thrown {A} e.

Definition M (St A : Type) : Type := St -> Outcome A * St.

Definition ret {St A} (a : A) : M St A := fun s => (Returned a, s).

Definition bind {St A B} (c : M St A) (k : A -> M St B) : M St B :=
  fun s =>
    match c s with
    | (Returned a, s') => k a s'
    | (Thrown e, s') => (Thrown e, s')
    end.

Definition throw {St A} (e : string) : M St A := fun s => (Thrown e, s).

(** [try { c } catch (e) { h e }] *)
Definition try_catch {St A} (c : M St A) (h : string -> M St A) : M St A :=
  fun s =>
    match c s with
    | (Returned a, s') => (Returned a, s')
    | (Thrown e, s') => h e s'
    end.

Definition gets {St A} (f : St -> A) : M St A := fun s => (Returned (f s), s).
Definition modify {St} (f : St -> St) : M St unit := fun s => (Returned tt, f s).

(** [await] of an outside call whose reply is already fixed. *)
Definition lift {St A} (o : Outcome A) : M St A := fun s => (o, s).

Definition when_some {St A} (o : option A) (k : A -> M St unit) : M St unit :=
  match o with
  | Some a => k a
  | None => ret tt
  end.

Declare Scope eff_scope.
Delimit Scope eff_scope with eff.
Notation "x <~ c ;; k" := (bind c (fun x => k))
  (at level 100, c at next level, right associativity) : eff_scope.
Notation "c ;;; k" := (bind c (fun _ => k))
  (at level 100, right associativity) : eff_scope.

End Effects.

(* ===================================================================== *)
(** ** The tool adapter layer: [authHeader], [search], [fetch], [create_task] *)
(* ===================================================================== *)

Module Tools.
Import Effects.
Local Open Scope eff_scope.

Record TaskList := { id : string }.

(** A task as the remote API returns it: the handler reads [title] only;
    the remaining fields travel along untouched. *)
Record Task := { title : option string; fields : string }.

(** Outbound calls, in the order they are issued.  Calls to the Tasks API
    carry the [Authorization] header they were sent with. *)
Inductive Call :=
| GetAccessToken
| ListTaskLists (authorization : string)
| ListTasks (authorization listId : string) (showCompleted : bool)
| FetchTask (authorization listId taskId : string)
| CreateTask (authorization listId title : string) (notes due : option string).

(** The outside world as the handlers see it: what each awaited call
    resolves to, or that it rejects. *)
Record Remote := {
  getAccessToken : Outcome (option string);                     (* at && at.token *)
  lists_items : Outcome (option (list TaskList));               (* j.items of the lists call *)
  tasks_items : string -> bool -> Outcome (option (list Task)); (* j.items of a tasks call *)
  task_json : string -> string -> Outcome Task;                 (* j of a single-task call *)
  created_json : string -> string -> option string -> option string -> Outcome Task
}.

Record Hit := { hit_listId : string; hit_task : Task }.

Inductive Content :=
| TextMessage (text : string)
| TextHits (hits : list Hit)        (* JSON.stringify(hits, null, 2) *)
| TextTask (j : Task).              (* JSON.stringify(j, null, 2) *)

Record ToolResult := { content : Content; isError : bool }.

Inductive Auth :=
| AuthError (error : string)        (* { headers: null, error } *)
| AuthHeaders (authorization : string).   (* { headers: { Authorization, ... }, error: null } *)

Definition T := M (list Call).

Definition call {A} (c : Call) (reply : Outcome A) : T A :=
  fun calls => (reply, (calls ++ [c])%list).

Section Handlers.

Variable savedTokens : option string.   (* [let savedTokens = null]: the token set, or none *)
Variable remote : Remote.

Definition authHeader : T Auth :=
  match savedTokens with
  | None => ret (AuthError "Not authorized. Visit /oauth2/start first.")
  | Some _ =>
      token <~ call GetAccessToken (getAccessToken remote) ;;
      if Js.truthy_str token
      then ret (AuthHeaders ("Bearer " ++ default "" token))
      else ret (AuthError "No access token (re-auth at /oauth2/start)")
  end.

(** [j.items || []] *)
Definition listTaskLists (headers : string) : T (list TaskList) :=
  items <~ call (ListTaskLists headers) (lists_items remote) ;;
  ret (default [] items).

Definition errorResult (text : string) : ToolResult :=
  {| content := TextMessage text; isError := true |}.

(** [!query || String(t.title || '').toLowerCase().includes(query.toLowerCase())] *)
Definition matches (query : option string) (t : Task) : bool :=
  negb (Js.truthy_str query) ||
  Js.includes (Js.toLowerCase (default "" query))
              (Js.toLowerCase (default "" (title t))).

(** The inner loop: push every matching task of one list. *)
Fixpoint pushMatches (query : option string) (listId : string)
    (items : list Task) (hits : list Hit) : list Hit :=
  match items with
  | [] => hits
  | t :: rest =>
      pushMatches query listId rest
        (if matches query t
         then (hits ++ [{| hit_listId := listId; hit_task := t |}])%list
         else hits)
  end.

(** The outer loop: one tasks call per list, in list order. *)
Fixpoint searchLists (headers : string) (show : bool) (query : option string)
    (lists : list TaskList) (hits : list Hit) : T (list Hit) :=
  match lists with
  | [] => ret hits
  | l :: rest =>
      items <~ call (ListTasks headers (id l) show) (tasks_items remote (id l) show) ;;
      searchLists headers show query rest
        (pushMatches query (id l) (default [] items) hits)
  end.

Definition search (query listId : option string) (showCompleted : option bool)
    : T ToolResult :=
  let show := match showCompleted with Some b => b | None => true end in
  a <~ authHeader ;;
  match a with
  | AuthError error => ret (errorResult error)
  | AuthHeaders headers =>
      lists <~ (if Js.truthy_str listId
                then ret [ {| id := default "" listId |} ]
                else listTaskLists headers) ;;
      hits <~ searchLists headers show query lists [] ;;
      ret {| content := TextHits (take 25 hits); isError := false |}
  end.

Definition fetch (listId taskId : string) : T ToolResult :=
  a <~ authHeader ;;
  match a with
  | AuthError error => ret (errorResult error)
  | AuthHeaders headers =>
      j <~ call (FetchTask headers listId taskId) (task_json remote listId taskId) ;;
      ret {| content := TextTask j; isError := false |}
  end.

Definition createIn (headers targetListId title : string) (notes due : option string)
    : T ToolResult :=
  j <~ call (CreateTask headers targetListId title notes due)
            (created_json remote targetListId title notes due) ;;
  ret {| content := TextTask j; isError := false |}.

Definition create_task (listId : option string) (title : string)
    (notes due : option string) : T ToolResult :=
  a <~ authHeader ;;
  match a with
  | AuthError error => ret (errorResult error)
  | AuthHeaders headers =>
      if Js.truthy_str listId
      then createIn headers (default "" listId) title notes due
      else
        lists <~ listTaskLists headers ;;
        match lists with
        | [] => ret (errorResult "No task lists found.")
        | l :: _ => createIn headers (id l) title notes due
        end
  end.

(** The tools registered with [server.registerTool], by name, with the
    arguments their input schemas admit. *)
Inductive ToolCall :=
| Search (query listId : option string) (showCompleted : option bool)
| Fetch (listId taskId : string)
| Create_task (listId : option string) (title : string) (notes due : option string).

Definition invoke (c : ToolCall) : T ToolResult :=
  match c with
  | Search query listId showCompleted => search query listId showCompleted
  | Fetch listId taskId => fetch listId taskId
  | Create_task listId title notes due => create_task listId title notes due
  end.

End Handlers.

(** What the claims compare [search] with: the matches of one list, in the
    order its tasks were received. *)
Definition hitsOfList (query : option string) (listId : string) (items : list Task)
    : list Hit :=
  List.map (fun t => {| hit_listId := listId; hit_task := t |})
           (List.filter (matches query) items).

(** The spec's words for [search]: the target lists are the given one, or
    all of the account's lists ... *)
Definition spec_targets (listId : option string) (accountLists : list TaskList)
    : list TaskList :=
  if Js.truthy_str listId then [ {| id := default "" listId |} ] else accountLists.

(** ... and the result is the first 25 matches, list before list. *)
Definition spec_search (query : option string) (targets : list TaskList)
    (tasksOf : string -> list Task) : list Hit :=
  take 25 (concat (List.map (fun l => hitsOfList query (id l) (tasksOf (id l))) targets)).

End Tools.

(* ===================================================================== *)
(** ** The session lifecycle: [sessions], [sessionTimers], [touchSession],
       and the [/mcp] handlers                                            *)
(* ===================================================================== *)

Module Sessions.
Import Effects Router.
Local Open Scope eff_scope.

(** [const TTL_MS = 10 * 60 * 1000] *)
Definition TTL_MS : Z := 10 * 60 * 1000.

(** A transport object of the protocol library, as far as this code reads or
    drives it: its [sessionId] (undefined until the handshake) and whether
    [close()] has run. *)
Record Transport := { sessionId : option string; closed : bool }.

(** An armed timeout: when it is due, and the [sessionId] and [transport]
    its callback closes over. *)
Record Timer := { deadline : Z; timer_sessionId : string; timer_transport : nat }.

Inductive LogEntry :=
| SessionInitialized (sessionId : string)   (* 'MCP session initialized' *)
| SessionExpired (sessionId : string)       (* 'MCP session expired (TTL)' *)
| PostClosed (sessionId : string)           (* 'MCP POST closed (session preserved by TTL)' *)
| SessionClosed (sessionId : string)        (* 'MCP session closed (GET/DELETE)' *)
| McpError (m : Method) (e : string)        (* 'mcp error (<METHOD> /mcp)' *)
| UnhandledRejection (e : string).          (* the runtime: a promise rejected, no handler *)

(** Where the handler of a request stands: awaiting [server.connect],
    awaiting [transport.handleRequest], or returned. *)
Inductive Phase := Connecting | Handling | Finished.

(** One request/response pair being served. *)
Record Exchange := {
  ex_request : Request;
  ex_transport : option nat;          (* the handler's [transport] variable *)
  ex_phase : Phase;
  ex_onclose : bool;                  (* [res.on('close', ...)] registered, not yet fired *)
  ex_response : option (Z * Body)     (* status and body this code has sent, if any *)
}.

Record State := {
  now : Z;                            (* the clock, in milliseconds *)
  sessions : gmap string nat;         (* sessionId -> transport *)
  sessionTimers : gmap string nat;    (* sessionId -> timeout *)
  timeouts : gmap nat Timer;          (* the runtime's armed timeouts *)
  nextTimer : nat;
  transports : gmap nat Transport;    (* the transport objects *)
  nextTransport : nat;
  inflight : gmap nat Exchange;
  issued : gset string;               (* ids [randomUUID] has handed out *)
  log : list LogEntry
}.

Definition initial : State :=
  {| now := 0; sessions := ∅; sessionTimers := ∅; timeouts := ∅; nextTimer := 0%nat;
     transports := ∅; nextTransport := 0%nat; inflight := ∅; issued := ∅; log := [] |}.

Definition set_now (t : Z) (s : State) : State :=
  {| now := t; sessions := sessions s; sessionTimers := sessionTimers s;
     timeouts := timeouts s; nextTimer := nextTimer s; transports := transports s;
     nextTransport := nextTransport s; inflight := inflight s; issued := issued s;
     log := log s |}.

Definition set_sessions (f : gmap string nat -> gmap string nat) (s : State) : State :=
  {| now := now s; sessions := f (sessions s); sessionTimers := sessionTimers s;
     timeouts := timeouts s; nextTimer := nextTimer s; transports := transports s;
     nextTransport := nextTransport s; inflight := inflight s; issued := issued s;
     log := log s |}.

Definition set_sessionTimers (f : gmap string nat -> gmap string nat) (s : State) : State :=
  {| now := now s; sessions := sessions s; sessionTimers := f (sessionTimers s);
     timeouts := timeouts s; nextTimer := nextTimer s; transports := transports s;
     nextTransport := nextTransport s; inflight := inflight s; issued := issued s;
     log := log s |}.

Definition set_timeouts (f : gmap nat Timer -> gmap nat Timer) (n : nat) (s : State) : State :=
  {| now := now s; sessions := sessions s; sessionTimers := sessionTimers s;
     timeouts := f (timeouts s); nextTimer := n; transports := transports s;
     nextTransport := nextTransport s; inflight := inflight s; issued := issued s;
     log := log s |}.

Definition set_transports (f : gmap nat Transport -> gmap nat Transport) (n : nat)
    (s : State) : State :=
  {| now := now s; sessions := sessions s; sessionTimers := sessionTimers s;
     timeouts := timeouts s; nextTimer := nextTimer s; transports := f (transports s);
     nextTransport := n; inflight := inflight s; issued := issued s; log := log s |}.

Definition set_inflight (f : gmap nat Exchange -> gmap nat Exchange) (s : State) : State :=
  {| now := now s; sessions := sessions s; sessionTimers := sessionTimers s;
     timeouts := timeouts s; nextTimer := nextTimer s; transports := transports s;
     nextTransport := nextTransport s; inflight := f (inflight s); issued := issued s;
     log := log s |}.

Definition set_issued (f : gset string -> gset string) (s : State) : State :=
  {| now := now s; sessions := sessions s; sessionTimers := sessionTimers s;
     timeouts := timeouts s; nextTimer := nextTimer s; transports := transports s;
     nextTransport := nextTransport s; inflight := inflight s; issued := f (issued s);
     log := log s |}.

Definition add_log (e : LogEntry) (s : State) : State :=
  {| now := now s; sessions := sessions s; sessionTimers := sessionTimers s;
     timeouts := timeouts s; nextTimer := nextTimer s; transports := transports s;
     nextTransport := nextTransport s; inflight := inflight s; issued := issued s;
     log := (log s ++ [e])%list |}.

Definition H := M State.

(** [console.log(...)] *)
Definition console_log (e : LogEntry) : H unit := modify (add_log e).

(** [clearTimeout(t)]: the timeout leaves the table; unknown handles are ignored. *)
Definition clearTimeout (t : nat) : H unit :=
  fun s => (Returned tt, set_timeouts (delete t) (nextTimer s) s).

(** [setTimeout(callback, ms)]: a new handle, due [ms] after the current time. *)
Definition setTimeout (sessionId : string) (transport : nat) (ms : Z) : H nat :=
  fun s =>
    let t := nextTimer s in
    (Returned t,
     set_timeouts
       <[t := {| deadline := now s + ms; timer_sessionId := sessionId;
                 timer_transport := transport |}]> (S t) s).

(** [transport.sessionId] *)
Definition sessionIdOf (transport : nat) (s : State) : option string :=
  match transports s !! transport with
  | Some tr => sessionId tr
  | None => None
  end.

(** [lookup]: [sessions.get(id)] *)
Definition lookup (id : string) (s : State) : option nat := sessions s !! id.

(** How a call of [transport.close()] can end.  The protocol library
    declares [close] as an async function, so with it a failure takes the
    form of a rejected promise; the two release paths wrap the call in
    [try { } catch { }], which is for a call that throws. *)
Inductive Closing :=
| Closes       (* the transport is closed *)
| Throws       (* the call itself throws *)
| Rejects.     (* the call returns a promise that rejects *)

Section Server.

Variable API_KEY : option string.         (* process.env.MCP_API_KEY *)
Variable FORCE_JSON : bool.               (* process.env.MCP_FORCE_JSON === '1' *)
Variable close_does : Transport -> Closing. (* how [transport.close()] ends on this transport *)

(** [transport.close()], called without [await]: the call closes the
    transport, or throws, or hands back a promise that rejects.  Nothing is
    attached to that promise, so its rejection is left to the runtime. *)
Definition transport_close (transport : nat) : H unit :=
  fun s =>
    match transports s !! transport with
    | Some tr =>
        match close_does tr with
        | Closes =>
            (Returned tt,
             set_transports <[transport := {| sessionId := sessionId tr; closed := true |}]>
                            (nextTransport s) s)
        | Throws => (Thrown "close failed", s)
        | Rejects => (Returned tt, add_log (UnhandledRejection "close failed") s)
        end
    | None => (Returned tt, s)
    end.

(** The callback [touchSession] hands to [setTimeout]. *)
Definition expire (sessionId : string) (transport : nat) : H unit :=
  try_catch (transport_close transport) (fun _ => ret tt) ;;;
  modify (set_sessions (delete sessionId)) ;;;
  modify (set_sessionTimers (delete sessionId)) ;;;
  console_log (SessionExpired sessionId).

Definition touchSession (sessionId : option string) (transport : nat) : H unit :=
  if negb (Js.truthy_str sessionId) then ret tt
  else
    let sid := default "" sessionId in
    old <~ gets (fun s => sessionTimers s !! sid) ;;
    when_some old clearTimeout ;;;
    t <~ setTimeout sid transport TTL_MS ;;
    modify (set_sessionTimers <[sid := t]>).

(** [new StreamableHTTPServerTransport({...})] *)
Definition newTransport : H nat :=
  fun s =>
    let t := nextTransport s in
    (Returned t, set_transports <[t := {| sessionId := None; closed := false |}]> (S t) s).

(** [onsessioninitialized(sessionId)] of the transport created by a POST. *)
Definition onsessioninitialized (transport : nat) (sessionId : string) : H unit :=
  modify (set_sessions <[sessionId := transport]>) ;;;
  touchSession (Some sessionId) transport ;;;
  console_log (SessionInitialized sessionId).

(** The [Accept] compatibility rewrite at the top of the POST handler. *)
Definition ensureAccept (req : Request) : Request :=
  let acc := Js.toLowerCase (default "" (accept req)) in
  let with_accept a :=
    {| method := method req; query_key := query_key req; x_api_key := x_api_key req;
       authorization := authorization req; mcp_session_id := mcp_session_id req;
       accept := Some a; body_is_initialize := body_is_initialize req |} in
  if FORCE_JSON then with_accept "application/json"
  else if negb (Js.includes "application/json" acc)
          || negb (Js.includes "text/event-stream" acc)
       then with_accept "application/json, text/event-stream"
       else req.

(** [req.get('Mcp-Session-Id') || req.get('mcp-session-id')]: header names
    are matched without regard to case, so both reads see the same header. *)
Definition headerId (req : Request) : option string :=
  if Js.truthy_str (mcp_session_id req) then mcp_session_id req else mcp_session_id req.

(** [headerId ? sessions.get(headerId) : null] *)
Definition sessionFor (req : Request) : H (option nat) :=
  if Js.truthy_str (headerId req)
  then gets (fun s => sessions s !! default "" (headerId req))
  else ret None.

Definition answered (req : Request) (status : Z) (body : Body) : Exchange :=
  {| ex_request := req; ex_transport := None; ex_phase := Finished;
     ex_onclose := false; ex_response := Some (status, body) |}.

Definition failed (ex : Exchange) (e : string) : H Exchange :=
  console_log (McpError (method (ex_request ex)) e) ;;;
  ret {| ex_request := ex_request ex; ex_transport := ex_transport ex;
         ex_phase := Finished; ex_onclose := ex_onclose ex;
         ex_response := Some (500, JsonError "mcp error" e) |}.

(** [app.post('/mcp')], from entry to its first suspension: either the 400
    answer, or the new transport handed to [server.connect], or the
    continuation of an existing session handed to [transport.handleRequest]. *)
Definition post_begin (req : Request) : H Exchange :=
  try_catch
    (let req' := ensureAccept req in
     transport <~ sessionFor req' ;;
     match transport with
     | None =>
         if negb (body_is_initialize req')
         then ret (answered req' 400
                     (JsonRpcError (-32000)
                        "Bad Request: No valid session ID provided (missing initialize)"))
         else
           t <~ newTransport ;;
           ret {| ex_request := req'; ex_transport := Some t; ex_phase := Connecting;
                  ex_onclose := false; ex_response := None |}
     | Some t =>
         sid <~ gets (sessionIdOf t) ;;
         touchSession sid t ;;;
         ret {| ex_request := req'; ex_transport := Some t; ex_phase := Handling;
                ex_onclose := true; ex_response := None |}
     end)
    (failed (answered req 500 (Text ""))).

(** After [await server.connect(transport)]: the close listener is
    registered and [transport.handleRequest] is called. *)
Definition post_connected (ex : Exchange) : H Exchange :=
  ret {| ex_request := ex_request ex; ex_transport := ex_transport ex;
         ex_phase := Handling; ex_onclose := true; ex_response := ex_response ex |}.

(** After [await transport.handleRequest(req, res, req.body)]. *)
Definition post_handled (ex : Exchange) : H Exchange :=
  try_catch
    (match ex_transport ex with
     | Some t =>
         sid <~ gets (sessionIdOf t) ;;
         touchSession sid t
     | None => ret tt
     end ;;;
     ret {| ex_request := ex_request ex; ex_transport := ex_transport ex;
            ex_phase := Finished; ex_onclose := ex_onclose ex;
            ex_response := ex_response ex |})
    (failed ex).

(** The POST handler's [res.on('close')] listener. *)
Definition post_onclose (transport : nat) : H unit :=
  sid <~ gets (sessionIdOf transport) ;;
  if Js.truthy_str sid then console_log (PostClosed (default "" sid)) else ret tt.

(** [handleSessionReq] (GET and DELETE, and HEAD by way of the GET route),
    up to [await transport.handleRequest]. *)
Definition session_begin (req : Request) : H Exchange :=
  try_catch
    (transport <~ sessionFor req ;;
     match transport with
     | None => ret (answered req 400 (Text "Invalid or missing session ID"))
     | Some t =>
         sid <~ gets (sessionIdOf t) ;;
         touchSession sid t ;;;
         ret {| ex_request := req; ex_transport := Some t; ex_phase := Handling;
                ex_onclose := true; ex_response := None |}
     end)
    (failed (answered req 500 (Text ""))).

(** The [res.on('close')] listener of [handleSessionReq]. *)
Definition session_onclose (transport : nat) : H unit :=
  sid <~ gets (sessionIdOf transport) ;;
  if Js.truthy_str sid then
    let sid := default "" sid in
    t <~ gets (fun s => sessionTimers s !! sid) ;;
    when_some t clearTimeout ;;;
    modify (set_sessionTimers (delete sid)) ;;;
    modify (set_sessions (delete sid)) ;;;
    try_catch (transport_close transport) (fun _ => ret tt) ;;;
    console_log (SessionClosed sid)
  else ret tt.

(** What the protocol library does to the transport while it serves a
    DELETE: it closes it, then answers. *)
Definition sdk_close (transport : nat) : H unit :=
  fun s =>
    match transports s !! transport with
    | Some tr =>
        (Returned tt,
         set_transports <[transport := {| sessionId := sessionId tr; closed := true |}]>
                        (nextTransport s) s)
    | None => (Returned tt, s)
    end.

(** After [await transport.handleRequest(req, res)] in [handleSessionReq]:
    the handler has nothing left to do. *)
Definition session_handled (ex : Exchange) : H Exchange :=
  (if Method_eqb (method (ex_request ex)) DELETE
   then when_some (ex_transport ex) sdk_close
   else ret tt) ;;;
  ret {| ex_request := ex_request ex; ex_transport := ex_transport ex;
         ex_phase := Finished; ex_onclose := ex_onclose ex;
         ex_response := ex_response ex |}.

(** What the protocol library does while it serves the initialize message
    on a fresh transport: it draws the id from [sessionIdGenerator], stores
    it in the transport and calls [onsessioninitialized]. *)
Definition sdk_initialize (transport : nat) (tr : Transport) (uuid : string) : H unit :=
  fun s =>
    (Returned tt,
     set_transports <[transport := {| sessionId := Some uuid; closed := closed tr |}]>
                    (nextTransport s) s).

(** ** The event loop

    JavaScript runs one block at a time: a handler runs without
    interruption up to its next [await], and while it waits any other
    request, timeout or close notification may be served.  Each event below
    is one such block.

    Three things belong to the surroundings and are fixed here as follows.
    - [randomUUID] never hands out the same id twice and never the empty
      string: [SdkInitialize] is enabled only for a fresh, non-empty id.
    - The protocol library completes the handshake only for an initialize
      message on a transport that has no session id yet, storing the id in
      the transport before it calls [onsessioninitialized].
    - Serving a DELETE, the protocol library closes the transport.
    An [Arrive] is a request whose body the JSON parser has let through,
    and [initMcpServer] is taken to have resolved: the library modules
    load.  What a POST gets otherwise is in [PostRoute] below; it touches
    none of the session state. *)
Inductive Event :=
| Tick (dt : Z)                          (* time passes *)
| Fire (t : nat)                         (* a due timeout runs its callback *)
| Arrive (rid : nat) (req : Request)     (* a request reaches [requireKey] on [/mcp] *)
| Connected (rid : nat)                  (* [server.connect] resolved *)
| ConnectFailed (rid : nat) (e : string) (* [server.connect] rejected *)
| SdkInitialize (rid : nat) (uuid : string) (* the handshake completes inside [handleRequest] *)
| Handled (rid : nat)                    (* [transport.handleRequest] resolved *)
| HandleFailed (rid : nat) (e : string)  (* [transport.handleRequest] rejected *)
| Closed (rid : nat).                    (* the response emitted 'close' *)

Definition exec (block : H unit) (s : State) : State := snd (block s).

(** Run a handler block and record the exchange it leaves; an exception
    that escapes a handler ends in the application's error middleware. *)
Definition file (rid : nat) (req : Request) (block : H Exchange) (s : State) : State :=
  match block s with
  | (Returned ex, s') => set_inflight <[rid := ex]> s'
  | (Thrown e, s') =>
      set_inflight <[rid := answered req 500 (JsonError "Something went wrong!" e)]> s'
  end.

Definition closed_exchange (ex : Exchange) : Exchange :=
  {| ex_request := ex_request ex; ex_transport := ex_transport ex;
     ex_phase := ex_phase ex; ex_onclose := false; ex_response := ex_response ex |}.

Definition step (ev : Event) (s : State) : option State :=
  match ev with
  | Tick dt => if 0 <=? dt then Some (set_now (now s + dt) s) else None
  | Fire t =>
      match timeouts s !! t with
      | Some tm =>
          if deadline tm <=? now s
          then Some (exec (expire (timer_sessionId tm) (timer_transport tm))
                          (set_timeouts (delete t) (nextTimer s) s))
          else None
      | None => None
      end
  | Arrive rid req =>
      match inflight s !! rid with
      | Some _ => None
      | None =>
          match requireKey API_KEY req with
          | Respond status body => Some (set_inflight <[rid := answered req status body]> s)
          | Next =>
              match method req with
              | POST => Some (file rid req (post_begin req) s)
              | GET | HEAD | DELETE => Some (file rid req (session_begin req) s)
              | _ => None
              end
          end
      end
  | Connected rid =>
      match inflight s !! rid with
      | Some ex =>
          match ex_phase ex with
          | Connecting => Some (file rid (ex_request ex) (post_connected ex) s)
          | _ => None
          end
      | None => None
      end
  | ConnectFailed rid e =>
      match inflight s !! rid with
      | Some ex =>
          match ex_phase ex with
          | Connecting => Some (file rid (ex_request ex) (failed ex e) s)
          | _ => None
          end
      | None => None
      end
  | SdkInitialize rid uuid =>
      match inflight s !! rid with
      | Some ex =>
          match ex_phase ex, method (ex_request ex), ex_transport ex with
          | Handling, POST, Some t =>
              match transports s !! t with
              | Some tr =>
                  match sessionId tr with
                  | None =>
                      if body_is_initialize (ex_request ex)
                         && Js.truthy (Js.Str uuid)
                         && bool_decide (uuid ∉ issued s)
                      then Some (exec (sdk_initialize t tr uuid ;;; onsessioninitialized t uuid)
                                      (set_issued (union {[uuid]}) s))
                      else None
                  | Some _ => None
                  end
              | None => None
              end
          | _, _, _ => None
          end
      | None => None
      end
  | Handled rid =>
      match inflight s !! rid with
      | Some ex =>
          match ex_phase ex with
          | Handling =>
              match method (ex_request ex) with
              | POST => Some (file rid (ex_request ex) (post_handled ex) s)
              | _ => Some (file rid (ex_request ex) (session_handled ex) s)
              end
          | _ => None
          end
      | None => None
      end
  | HandleFailed rid e =>
      match inflight s !! rid with
      | Some ex =>
          match ex_phase ex with
          | Handling => Some (file rid (ex_request ex) (failed ex e) s)
          | _ => None
          end
      | None => None
      end
  | Closed rid =>
      match inflight s !! rid with
      | Some ex =>
          match ex_onclose ex, ex_transport ex with
          | true, Some t =>
              Some (set_inflight <[rid := closed_exchange ex]>
                      (exec (match method (ex_request ex) with
                             | POST => post_onclose t
                             | _ => session_onclose t
                             end) s))
          | _, _ => None
          end
      | None => None
      end
  end.

Fixpoint run (evs : list Event) (s : State) : option State :=
  match evs with
  | [] => Some s
  | ev :: rest =>
      match step ev s with
      | Some s' => run rest s'
      | None => None
      end
  end.

Definition reachable (s : State) : Prop := exists evs, run evs initial = Some s.

(** [ev] is the close of a response served by [handleSessionReq] (GET, HEAD
    or DELETE) on session [sid]. *)
Definition closes_session (sid : string) (ev : Event) (s : State) : bool :=
  match ev with
  | Closed rid =>
      match inflight s !! rid with
      | Some ex =>
          match method (ex_request ex), ex_transport ex with
          | POST, _ => false
          | _, Some t => bool_decide (sessionIdOf t s = Some sid)
          | _, None => false
          end
      | None => false
      end
  | _ => false
  end.

(** A run during which no GET, HEAD or DELETE response on [sid] closes. *)
Fixpoint run_keeping (sid : string) (evs : list Event) (s : State) : option State :=
  match evs with
  | [] => Some s
  | ev :: rest =>
      if closes_session sid ev s then None
      else match step ev s with
           | Some s' => run_keeping sid rest s'
           | None => None
           end
  end.

(** The due time of the timeout registered for [sid], if it is armed:
    [touchSession] puts it one TTL after the touch. *)
Definition due (sid : string) (s : State) : option Z :=
  match sessionTimers s !! sid with
  | Some h => deadline <$> timeouts s !! h
  | None => None
  end.

(** [sid] has been idle for a full TTL: the timeout registered for it is due. *)
Definition idle_expired (sid : string) (s : State) : bool :=
  match due sid s with
  | Some d => d <=? now s
  | None => false
  end.

(** A run during which no GET, HEAD or DELETE response on [sid] closes and
    no event finds [sid] idle for a full TTL. *)
Fixpoint run_within (sid : string) (evs : list Event) (s : State) : option State :=
  match evs with
  | [] => Some s
  | ev :: rest =>
      if closes_session sid ev s || idle_expired sid s then None
      else match step ev s with
           | Some s' => run_within sid rest s'
           | None => None
           end
  end.

End Server.

(** The properties every reachable state has. *)
Record Inv (s : State) : Prop := {
  inv_timer_registered :
    forall t tm, timeouts s !! t = Some tm -> sessionTimers s !! timer_sessionId tm = Some t;
  inv_session_has_timer :
    forall sid tr, sessions s !! sid = Some tr -> is_Some (sessionTimers s !! sid);
  inv_session_transport :
    forall sid t, sessions s !! sid = Some t -> sessionIdOf t s = Some sid;
  inv_timer_fresh :
    forall t tm, timeouts s !! t = Some tm -> (t < nextTimer s)%nat;
  inv_handle_fresh :
    forall sid t, sessionTimers s !! sid = Some t -> (t < nextTimer s)%nat;
  inv_transport_fresh :
    forall t tr, transports s !! t = Some tr -> (t < nextTransport s)%nat;
  inv_session_truthy :
    forall t, sessions s !! "" = Some t -> False
}.

(** What every block leaves alone: the clock stands still, issued ids stay
    issued, and a timeout that was not armed before is due one TTL from now. *)
Record Steady (s s' : State) : Prop := {
  steady_now : now s' = now s;
  steady_issued : issued s ⊆ issued s';
  steady_timeouts :
    forall t tm, timeouts s' !! t = Some tm ->
      timeouts s !! t = Some tm \/ deadline tm = now s + TTL_MS
}.

(** A handler block is quiet when it returns, is steady, and leaves
    [sessions] alone. *)
Definition quiet_block (block : H Exchange) (s : State) : Prop :=
  exists ex s', block s = (Returned ex, s')
    /\ Steady s s' /\ sessions s' = sessions s.

End Sessions.

(* ===================================================================== *)
(** ** The [/mcp] request log line                                        *)
(* ===================================================================== *)

Module Logging.
Import Router.


(** The [sessionId] field:
    [req.get('Mcp-Session-Id') || req.get('mcp-session-id') || null] *)
Definition loggedSessionId (req : Request) : Js.value :=
  Js.or (Js.or (Js.of_option (mcp_session_id req)) (Js.of_option (mcp_session_id req)))
        Js.Null.

End Logging.

(* ===================================================================== *)
(** ** The debug endpoints                                                *)
(* ===================================================================== *)

Module Debug.

(** [process.env]: variable names with their values, in enumeration order. *)
Definition Env := list (string * string).

(** [process.env.NAME] *)
Fixpoint env_get (name : string) (env : Env) : option string :=
  match env with
  | [] => None
  | (k, v) :: rest => if String.eqb k name then Some v else env_get name rest
  end.

(** [process.env.NAME ? process.env.NAME.length : 0] *)
Definition length_or_zero (v : option string) : nat :=
  if Js.truthy_str v then String.length (default "" v) else 0%nat.

Record EnvKeys := {
  keys : list string;
  id_len : nat;
  secret_len : nat;
  redirect_len : nat
}.

(** [GET /debug/envkeys] *)
Definition envkeys (env : Env) : EnvKeys :=
  {| keys := List.filter (Js.startsWith "GOOGLE_") (List.map fst env);
     id_len := length_or_zero (env_get "GOOGLE_CLIENT_ID" env);
     secret_len := length_or_zero (env_get "GOOGLE_CLIENT_SECRET" env);
     redirect_len := length_or_zero (env_get "GOOGLE_REDIRECT_URI" env) |}.

Record EnvInfo := {
  has_CLIENT_ID : bool;
  has_CLIENT_SECRET : bool;
  redirect_uri : option string      (* the value, or null *)
}.

(** [GET /debug/env] *)
Definition envinfo (env : Env) : EnvInfo :=
  {| has_CLIENT_ID := Js.truthy_str (env_get "GOOGLE_CLIENT_ID" env);
     has_CLIENT_SECRET := Js.truthy_str (env_get "GOOGLE_CLIENT_SECRET" env);
     redirect_uri :=
       if Js.truthy_str (env_get "GOOGLE_REDIRECT_URI" env)
       then env_get "GOOGLE_REDIRECT_URI" env
       else None |}.

(** What an observer is allowed to learn of an environment: the names and
    the lengths of the values. *)
Definition shape (env : Env) : list (string * nat) :=
  List.map (fun p => (fst p, String.length (snd p))) env.

End Debug.

(* ===================================================================== *)
(** ** The OAuth callback: [GET /oauth2/callback]                          *)
(* ===================================================================== *)

Module OAuth.

(** The error [oauth2Client.getToken] rejects with: [e.response?.data?.error]
    when the provider answered, and [e.message]. *)
Record ExchangeError := { data_error : option string; message : string }.

(** What [await oauth2Client.getToken(code)] comes to. *)
Inductive Exchange :=
| Exchanged (tokens : string)
| Refused (e : ExchangeError).

Inductive Reply :=
| MissingCode                     (* 400 'missing code' *)
| OAuthOk                         (* 200 'OAuth OK ...' *)
| OAuthError (text : string).     (* 500 `oauth error: ${...}` *)

Definition status (r : Reply) : Z :=
  match r with
  | MissingCode => 400
  | OAuthOk => 200
  | OAuthError _ => 500
  end.

(** The handler.  [code] is [req.query.code?.toString()]; [exchange] is what
    the provider would answer to this code; [savedTokens] is the process-wide
    token set, returned as the handler leaves it. *)
Definition callback (code : option string) (exchange : string -> Exchange)
    (savedTokens : option string) : Reply * option string :=
  if negb (Js.truthy_str code) then (MissingCode, savedTokens)
  else
    match exchange (default "" code) with
    | Exchanged tokens => (OAuthOk, Some tokens)
    | Refused e =>
        (OAuthError
           ("oauth error: " ++
            (if Js.truthy_str (data_error e) then default "" (data_error e) else message e)),
         savedTokens)
    end.

(** A series of callback requests, each with the answer the provider gives
    at that moment. *)
Fixpoint callbacks (reqs : list (option string * (string -> Exchange)))
    (savedTokens : option string) : option string :=
  match reqs with
  | [] => savedTokens
  | (code, exchange) :: rest => callbacks rest (snd (callback code exchange savedTokens))
  end.

(** The token set a callback request obtains, if it obtains one. *)
Definition obtained (rq : option string * (string -> Exchange)) : option string :=
  if Js.truthy_str (fst rq) then
    match snd rq (default "" (fst rq)) with
    | Exchanged tokens => Some tokens
    | Refused _ => None
    end
  else None.

End OAuth.

(* ===================================================================== *)
(** ** The quick test route: [GET /tasks]                                  *)
(* ===================================================================== *)

Module TasksRoute.
Import Effects Tools.
Local Open Scope eff_scope.

Inductive Body :=
| Plain (text : string)
| NoLists                                            (* { lists: [], tasks: [] } *)
| ListWithTasks (first : TaskList) (tasks : list Task). (* { list, tasks } *)

Record Response := { status : Z; body : Body }.

Section Handler.

Variable savedTokens : option string.
Variable remote : Remote.

(** The body of the [try] block. *)
Definition tasks_try : T Response :=
  match savedTokens with
  | None => ret {| status := 401; body := Plain "Authorize first at /oauth2/start" |}
  | Some _ =>
      token <~ call GetAccessToken (getAccessToken remote) ;;
      if negb (Js.truthy_str token)
      then ret {| status := 401; body := Plain "No access token; try /oauth2/start again" |}
      else
        let authHeader := "Bearer " ++ default "" token in
        items <~ call (ListTaskLists authHeader) (lists_items remote) ;;
        match items with
        | None | Some [] => ret {| status := 200; body := NoLists |}
        | Some (first :: _) =>
            tasks <~ call (ListTasks authHeader (id first) true)
                          (tasks_items remote (id first) true) ;;
            ret {| status := 200; body := ListWithTasks first (default [] tasks) |}
        end
  end.

(** [app.get('/tasks')]: the [try] block and its [catch]. *)
Definition tasks : T Response :=
  try_catch tasks_try (fun _ => ret {| status := 500; body := Plain "tasks error" |}).

End Handler.

End TasksRoute.

(* ===================================================================== *)
(** ** Loading the protocol library once: [initMcpServer], and the entry of
       the POST handler                                                   *)
(* ===================================================================== *)

Module Init.
Import Effects Router.

(** [mcpInitPromise]: unset, or the promise with what it settles to. *)
Definition Promise := option (Outcome unit).

(** [initMcpServer()].  [load] is what importing the library and registering
    the tools would come to if it were started now. *)
Definition initMcpServer (load : Outcome unit) (mcpInitPromise : Promise)
    : Outcome unit * Promise :=
  match mcpInitPromise with
  | None => (load, Some load)
  | Some settled => (settled, mcpInitPromise)
  end.


(** [app.post('/mcp')] from its first line to its first suspension after
    [await initMcpServer()]: a rejected load lands in the handler's [catch]. *)
Definition post_entry (FORCE_JSON : bool) (load : Outcome unit) (req : Request)
    (st : Promise * Sessions.State) : Sessions.Exchange * (Promise * Sessions.State) :=
  let r := initMcpServer load (fst st) in
  let block :=
    match fst r with
    | Returned _ => Sessions.post_begin FORCE_JSON req
    | Thrown e => Sessions.failed (Sessions.answered req 500 (Text "")) e
    end in
  match block (snd st) with
  | (Returned ex, s') => (ex, (snd r, s'))
  | (Thrown e, s') =>
      (Sessions.answered req 500 (JsonError "Something went wrong!" e), (snd r, s'))
  end.

End Init.

(* ===================================================================== *)
(** ** A POST to [/mcp], through the middleware stack                     *)
(* ===================================================================== *)

Module PostRoute.
Import Effects Router.

(** The error-handling middleware at the end of the stack:
    [res.status(500).json({ error: 'Something went wrong!', message: err.message })]. *)
Definition errorHandler (req : Request) (e : string) : Sessions.Exchange :=
  Sessions.answered req 500 (JsonError "Something went wrong!" e).

(** A POST to [/mcp], in the order the stack is mounted.  First the JSON
    body parser of [/mcp]: [parse] is what it comes to on this body, [next()]
    or, for JSON it cannot read or a body over the limit, [next(err)], which
    skips every route and ends in the error-handling middleware.  Then
    [requireKey]; then the handler, from [await initMcpServer()] on.  The
    CORS and logging middleware in between pass every POST on. *)
Definition post_mcp (API_KEY : option string) (FORCE_JSON : bool)
    (parse load : Outcome unit) (req : Request) (st : Init.Promise * Sessions.State)
    : Sessions.Exchange * (Init.Promise * Sessions.State) :=
  match parse with
  | Thrown e => (errorHandler req e, st)
  | Returned _ =>
      match requireKey API_KEY req with
      | Respond status body => (Sessions.answered req status body, st)
      | Next => Init.post_entry FORCE_JSON load req st
      end
  end.

End PostRoute.

(* ===================================================================== *)
(** * Scenarios: concrete requests, remotes and runs                      *)
(* ===================================================================== *)

Import Effects.

Definition no_key_request : Router.Request :=
  {| Router.method := Router.GET; Router.query_key := Js.Undefined;
     Router.x_api_key := None; Router.authorization := None;
     Router.mcp_session_id := None; Router.accept := None;
     Router.body_is_initialize := false |}.

Definition bearer_request : Router.Request :=
  {| Router.method := Router.POST; Router.query_key := Js.Str "";
     Router.x_api_key := None; Router.authorization := Some "Bearer  s3cret ";
     Router.mcp_session_id := None; Router.accept := None;
     Router.body_is_initialize := true |}.

Definition groceries : Tools.Task := {| Tools.title := Some "Groceries"; Tools.fields := "t1" |}.
Definition laundry : Tools.Task := {| Tools.title := Some "Laundry"; Tools.fields := "t2" |}.
Definition untitled : Tools.Task := {| Tools.title := None; Tools.fields := "t3" |}.

Definition demo_tasks (listId : string) : option (list Tools.Task) :=
  if String.eqb listId "L1" then Some [laundry; groceries]
  else if String.eqb listId "L2" then Some [untitled; groceries]
  else None.

Definition demo_remote : Tools.Remote :=
  {| Tools.getAccessToken := Returned (Some "ya29");
     Tools.lists_items :=
       Returned (Some [ {| Tools.id := "L1" |}; {| Tools.id := "L2" |}; {| Tools.id := "L3" |} ]);
     Tools.tasks_items := fun l _ => Returned (demo_tasks l);
     Tools.task_json := fun _ _ => Returned groceries;
     Tools.created_json := fun _ t _ _ =>
       Returned {| Tools.title := Some t; Tools.fields := "new" |} |}.

Definition empty_account : Tools.Remote :=
  {| Tools.getAccessToken := Returned (Some "ya29");
     Tools.lists_items := Returned None;
     Tools.tasks_items := fun _ _ => Returned None;
     Tools.task_json := fun _ _ => Thrown "not found";
     Tools.created_json := fun _ _ _ _ => Thrown "not found" |}.

Definition rejecting_remote : Tools.Remote :=
  {| Tools.getAccessToken := Thrown "invalid_grant";
     Tools.lists_items := Returned None;
     Tools.tasks_items := fun _ _ => Returned None;
     Tools.task_json := fun _ _ => Returned groceries;
     Tools.created_json := fun _ _ _ _ => Returned groceries |}.

Definition tokenless_remote : Tools.Remote :=
  {| Tools.getAccessToken := Returned None;
     Tools.lists_items := Returned None;
     Tools.tasks_items := fun _ _ => Returned None;
     Tools.task_json := fun _ _ => Returned groceries;
     Tools.created_json := fun _ _ _ _ => Returned groceries |}.

(** A configuration and a few runs to evaluate the handlers on. *)
Definition throws_when_closed (tr : Sessions.Transport) : Sessions.Closing :=
  if Sessions.closed tr then Sessions.Throws else Sessions.Closes.

Definition demo_step := Sessions.step (Some "k") false throws_when_closed.
Definition demo_run := Sessions.run (Some "k") false throws_when_closed.

Definition request (m : Router.Method) (session : option string) (initialize : bool)
    : Router.Request :=
  {| Router.method := m; Router.query_key := Js.Str "k"; Router.x_api_key := None;
     Router.authorization := None; Router.mcp_session_id := session;
     Router.accept := None; Router.body_is_initialize := initialize |}.

(** A client initializes session "s1" and its POST completes. *)
Definition open_session : list Sessions.Event :=
  [ Sessions.Arrive 0 (request Router.POST None true);
    Sessions.Connected 0;
    Sessions.SdkInitialize 0 "s1";
    Sessions.Handled 0;
    Sessions.Tick 1000 ].

Definition after (evs : list Sessions.Event) : Sessions.State :=
  default Sessions.initial (demo_run evs Sessions.initial).

(** The session "s1" is open; a DELETE on it has been served, which closed
    the transport, and the response has not closed yet. *)
Definition delete_served : list Sessions.Event :=
  (open_session ++
   [ Sessions.Arrive 1 (request Router.DELETE (Some "s1") false);
     Sessions.Handled 1 ])%list.

(** A GET stream on session "s1" is open. *)
Definition stream_open : list Sessions.Event :=
  (open_session ++
   [ Sessions.Arrive 1 (request Router.GET (Some "s1") false);
     Sessions.Handled 1 ])%list.

(** While a POST on session "s1" awaits [transport.handleRequest], a DELETE
    on the same session is served and its response closes; then the POST's
    await resumes. *)
Definition post_overtaken : list Sessions.Event :=
  (open_session ++
   [ Sessions.Arrive 1 (request Router.POST (Some "s1") false);
     Sessions.Arrive 2 (request Router.DELETE (Some "s1") false);
     Sessions.Handled 2;
     Sessions.Closed 2;
     Sessions.Handled 1 ])%list.

(** The initialize POST has been handed to the transport; the handshake has
    not completed yet. *)
Definition handshake_pending : list Sessions.Event :=
  [ Sessions.Arrive 0 (request Router.POST None true); Sessions.Connected 0 ].

(** After the handshake: the POST completes, the client posts again, and
    the clock stops one millisecond short of one TTL after the registration. *)
Definition busy_then_idle : list Sessions.Event :=
  [ Sessions.Handled 0; Sessions.Tick 1000;
    Sessions.Arrive 1 (request Router.POST (Some "s1") false); Sessions.Handled 1;
    Sessions.Tick 598999 ].

(** After the handshake: the POST completes and a DELETE is served. *)
Definition then_delete : list Sessions.Event :=
  [ Sessions.Handled 0; Sessions.Tick 1000;
    Sessions.Arrive 1 (request Router.DELETE (Some "s1") false); Sessions.Handled 1 ].

Definition shouting_bearer : Router.Request :=
  {| Router.method := Router.GET; Router.query_key := Js.Undefined;
     Router.x_api_key := Some ""; Router.authorization := Some "BEARER   s3cret  ";
     Router.mcp_session_id := None; Router.accept := None;
     Router.body_is_initialize := false |}.

Definition env_a : Debug.Env :=
  [ ("PORT", "8080"); ("GOOGLE_CLIENT_ID", "id-one"); ("GOOGLE_CLIENT_SECRET", "hunter2");
    ("MCP_API_KEY", "k1") ].
Definition env_b : Debug.Env :=
  [ ("PORT", "9090"); ("GOOGLE_CLIENT_ID", "id-two"); ("GOOGLE_CLIENT_SECRET", "swordf1");
    ("MCP_API_KEY", "k2") ].

Definition refusing (code : string) : OAuth.Exchange :=
  OAuth.Refused {| OAuth.data_error := Some "invalid_grant";
                   OAuth.message := "Request failed with status code 400" |}.

Definition granting (code : string) : OAuth.Exchange := OAuth.Exchanged ("tokens-for-" ++ code).

Definition flaky_remote : Tools.Remote :=
  {| Tools.getAccessToken := Returned (Some "ya29");
     Tools.lists_items := Returned (Some [ {| Tools.id := "L1" |}; {| Tools.id := "L2" |} ]);
     Tools.tasks_items := fun l _ =>
       if String.eqb l "L1" then Returned (Some [groceries]) else Thrown "ECONNRESET";
     Tools.task_json := fun _ _ => Thrown "ECONNRESET";
     Tools.created_json := fun _ _ _ _ => Thrown "ECONNRESET" |}.

(** The timeout registered for an id is armed and belongs to that id, and no
    armed timeout is due later than one TTL from now. *)
Record Armed (s : Sessions.State) : Prop := {
  armed_registered :
    forall sid h, Sessions.sessionTimers s !! sid = Some h ->
      exists tm, Sessions.timeouts s !! h = Some tm /\ Sessions.timer_sessionId tm = sid;
  armed_due :
    forall h tm, Sessions.timeouts s !! h = Some tm ->
      Sessions.deadline tm <= Sessions.now s + Sessions.TTL_MS
}.

(** What a handler block leaves as the record of its exchange: the request
    it was given (for a POST, after the [Accept] rewrite), and the table of
    exchanges untouched. *)
Definition files_request (FORCE_JSON : bool) (block : Sessions.H Sessions.Exchange)
    (req : Router.Request) (s : Sessions.State) : Prop :=
  exists ex s', block s = (Returned ex, s')
    /\ Sessions.inflight s' = Sessions.inflight s
    /\ (Sessions.ex_request ex = req
        \/ Sessions.ex_request ex = Sessions.ensureAccept FORCE_JSON req).

(** Every exchange on record either was turned away by the key check, or
    belongs to a POST, GET, HEAD or DELETE that passed it. *)
Definition keyed (API_KEY : option string) (s : Sessions.State) : Prop :=
  forall rid ex, Sessions.inflight s !! rid = Some ex ->
    (Router.requireKey API_KEY (Sessions.ex_request ex) = Router.Next
     /\ Router.method (Sessions.ex_request ex) <> Router.OPTIONS)
    \/ ex = Sessions.answered (Sessions.ex_request ex) 401 (Router.Text "unauthorized").

Definition streaming_post : Router.Request :=
  {| Router.method := Router.POST; Router.query_key := Js.Str "k"; Router.x_api_key := None;
     Router.authorization := None; Router.mcp_session_id := Some "s1";
     Router.accept := Some "Application/JSON, text/event-stream";
     Router.body_is_initialize := false |}.

(** What a call of [close()] adds to the process output, and what it does
    to the table of transports. *)
Definition close_note (c : Sessions.Closing) : list Sessions.LogEntry :=
  match c with
  | Sessions.Rejects => [Sessions.UnhandledRejection "close failed"]
  | _ => []
  end.

Definition close_mark (c : Sessions.Closing) (t : nat) (tr : Sessions.Transport)
    (m : gmap nat Sessions.Transport) : gmap nat Sessions.Transport :=
  match c with
  | Sessions.Closes =>
      <[t := {| Sessions.sessionId := Sessions.sessionId tr; Sessions.closed := true |}]> m
  | _ => m
  end.

(** A transport whose [close()] rejects once it is closed already. *)
Definition rejects_when_closed (tr : Sessions.Transport) : Sessions.Closing :=
  if Sessions.closed tr then Sessions.Rejects else Sessions.Closes.

(** After the handshake: the POST completes, and the client posts on the
    session every 599 seconds, three times over, and then waits once more. *)
Definition kept_busy : list Sessions.Event :=
  [ Sessions.Handled 0; Sessions.Tick 599000;
    Sessions.Arrive 1 (request Router.POST (Some "s1") false); Sessions.Handled 1;
    Sessions.Tick 599000;
    Sessions.Arrive 2 (request Router.POST (Some "s1") false); Sessions.Handled 2;
    Sessions.Tick 599000;
    Sessions.Arrive 3 (request Router.POST (Some "s1") false); Sessions.Handled 3;
    Sessions.Tick 599000 ].

(** The session "s1" is open; a HEAD request on it has been handed to the
    transport, which knows no HEAD and has answered it. *)
Definition head_served : list Sessions.Event :=
  (open_session ++
   [ Sessions.Arrive 1 (request Router.HEAD (Some "s1") false);
     Sessions.Handled 1 ])%list.

(* ===================================================================== *)
(** * Properties                                                          *)
(* ===================================================================== *)

(** ** String primitives *)

Lemma startsWith_app (p s : string) :
  Js.startsWith p s = true <-> exists r, s = p ++ r.
Proof.
  revert s. induction p as [|a p IH]; intros s; simpl.
  - split; [intros _; exists s; reflexivity | reflexivity].
  - destruct s as [|b s].
    + split; [discriminate | intros [r Hr]; discriminate].
    + rewrite andb_true_iff, Ascii.eqb_eq, IH. split.
      * intros [-> [r ->]]. exists r. reflexivity.
      * intros [r Hr]. injection Hr as -> ->. split; [reflexivity | exists r; reflexivity].
Qed.

Lemma includes_app (needle s : string) :
  Js.includes needle s = true <-> exists a b, s = a ++ needle ++ b.
Proof.
  induction s as [|c s IH].
  - simpl. rewrite orb_false_r, startsWith_app. split.
    + intros [r Hr]. exists "", r. exact Hr.
    + intros [a [b Hab]]. destruct a; simpl in Hab.
      * exists b. exact Hab.
      * discriminate.
  - cbn [Js.includes]. rewrite orb_true_iff, IH, startsWith_app. split.
    + intros [[r Hr] | [a [b Hab]]].
      * exists "", r. exact Hr.
      * exists (String c a), b. simpl. rewrite Hab. reflexivity.
    + intros [a [b Hab]]. destruct a as [|c' a]; simpl in Hab.
      * left. exists b. exact Hab.
      * right. injection Hab as _ ->. exists a, b. reflexivity.
Qed.

Lemma truthy_str_Some (o : option string) :
  Js.truthy_str o = true <-> exists s, o = Some s /\ s <> "".
Proof.
  destruct o as [s|]; simpl.
  - unfold Js.truthy_str; simpl. rewrite negb_true_iff. split.
    + intros Hs. exists s. split; [reflexivity|]. intros ->. discriminate.
    + intros [s' [[= <-] Hne]]. apply String.eqb_neq. exact Hne.
  - split; [discriminate | intros [s [? _]]; discriminate].
Qed.

(** ** The request router *)

(** C2, as stated, fails: with no API key configured the check is not
    disabled; a GET that carries no key is answered 401 'unauthorized'. *)
Lemma requireKey_unconfigured_rejects :
  Router.requireKey None no_key_request = Router.Respond 401 (Router.Text "unauthorized")
  /\ Router.requireKey None no_key_request <> Router.Next.
Proof. split; [reflexivity | discriminate]. Qed.

(** C2 (amended): OPTIONS requests always pass.  Any other request passes
    exactly when a non-empty key is configured and the supplied key, the
    first truthy one among [?key=], [X-API-Key] and the trimmed bearer
    token of [Authorization], is that string; every other request is
    answered 401 with the text 'unauthorized', in particular every one when
    no key is configured. *)
Theorem requireKey_decides (API_KEY : option string) (req : Router.Request) :
  (Router.method req = Router.OPTIONS -> Router.requireKey API_KEY req = Router.Next)
  /\ (Router.method req <> Router.OPTIONS ->
        (Router.requireKey API_KEY req = Router.Next <->
           exists k, API_KEY = Some k /\ k <> "" /\ Router.suppliedKey req = Js.Str k)
        /\ (Router.requireKey API_KEY req <> Router.Next ->
              Router.requireKey API_KEY req = Router.Respond 401 (Router.Text "unauthorized"))
        /\ (API_KEY = None ->
              Router.requireKey API_KEY req = Router.Respond 401 (Router.Text "unauthorized")))
  /\ (Js.truthy (Router.query_key req) = true ->
        Router.suppliedKey req = Router.query_key req)
  /\ (Js.truthy (Router.query_key req) = false ->
      Js.truthy_str (Router.x_api_key req) = true ->
        Router.suppliedKey req = Js.of_option (Router.x_api_key req))
  /\ (Js.truthy (Router.query_key req) = false ->
      Js.truthy_str (Router.x_api_key req) = false ->
        Router.suppliedKey req = Router.bearer (Router.authorization req)).
Proof.
  repeat split.
  - intros Hm. unfold Router.requireKey. rewrite Hm. reflexivity.
  - unfold Router.requireKey.
    destruct (Router.Method_eqb (Router.method req) Router.OPTIONS) eqn:Hm.
    { destruct (Router.method req); discriminate || contradiction. }
    cbv zeta. destruct (Js.truthy_str API_KEY) eqn:Hk; simpl.
    + apply truthy_str_Some in Hk as [k [-> Hne]]. simpl.
      destruct (Router.suppliedKey req) as [| |s|] eqn:Hs; simpl; try discriminate.
      destruct (String.eqb s k) eqn:Hsk; [|discriminate].
      apply String.eqb_eq in Hsk as ->. intros _. exists k. auto.
    + discriminate.
  - intros [k [-> [Hne Hs]]]. unfold Router.requireKey.
    destruct (Router.Method_eqb (Router.method req) Router.OPTIONS); [reflexivity|].
    cbv zeta. rewrite Hs.
    assert (Js.truthy_str (Some k) = true) as -> by (apply truthy_str_Some; eauto).
    simpl. rewrite String.eqb_refl. reflexivity.
  - unfold Router.requireKey.
    destruct (Router.Method_eqb (Router.method req) Router.OPTIONS); [congruence|].
    cbv zeta. destruct (_ && _); [congruence | reflexivity].
  - intros ->. unfold Router.requireKey.
    destruct (Router.Method_eqb (Router.method req) Router.OPTIONS) eqn:Hm; [|reflexivity].
    destruct (Router.method req); discriminate || contradiction.
  - intros Hq. unfold Router.suppliedKey, Js.or. rewrite Hq. simpl. rewrite Hq. reflexivity.
  - intros Hq Hx. unfold Router.suppliedKey, Js.or. rewrite Hq.
    unfold Js.truthy_str in Hx. rewrite Hx. reflexivity.
  - intros Hq Hx. unfold Router.suppliedKey, Js.or. rewrite Hq.
    unfold Js.truthy_str in Hx. rewrite Hx. reflexivity.
Qed.

Lemma requireKey_decides_witness :
  Router.requireKey (Some "s3cret") bearer_request = Router.Next
  /\ Router.suppliedKey bearer_request = Router.bearer (Some "Bearer  s3cret ").
Proof.
  pose proof (requireKey_decides (Some "s3cret") bearer_request)
    as (_ & Hpass & _ & _ & Hb).
  split.
  - apply Hpass; [discriminate|]. exists "s3cret".
    split; [reflexivity | split; [discriminate | reflexivity]].
  - apply Hb; reflexivity.
Defined.

(** ** The tool adapter layer *)

Section ToolFacts.

Import Tools.

Variable savedTokens : option string.
Variable remote : Remote.

Lemma pushMatches_app query listId items hits :
  pushMatches query listId items hits = (hits ++ hitsOfList query listId items)%list.
Proof.
  revert hits. induction items as [|t items IH]; intros hits; simpl.
  - unfold hitsOfList. simpl. rewrite app_nil_r. reflexivity.
  - rewrite IH. unfold hitsOfList. simpl. destruct (matches query t); simpl.
    + rewrite <- app_assoc. reflexivity.
    + reflexivity.
Qed.

Lemma searchLists_collects headers show query (replies : string -> option (list Task))
    lists hits calls :
  (forall l, In l lists -> tasks_items remote (id l) show = Returned (replies (id l))) ->
  searchLists remote headers show query lists hits calls =
    (Returned (hits ++ concat (List.map (fun l => hitsOfList query (id l)
                                                (default [] (replies (id l)))) lists))%list,
     (calls ++ List.map (fun l => ListTasks headers (id l) show) lists)%list).
Proof.
  revert hits calls. induction lists as [|l lists IH]; intros hits calls Hall; simpl.
  - rewrite !app_nil_r. reflexivity.
  - unfold bind, call. rewrite (Hall l) by (left; reflexivity).
    rewrite IH by (intros l' Hl'; apply Hall; right; exact Hl').
    rewrite pushMatches_app, <- !app_assoc. reflexivity.
Qed.

(** Every handler only adds to the record of outbound calls. *)
Lemma searchLists_extends headers show query lists hits calls :
  exists more, snd (searchLists remote headers show query lists hits calls)
               = (calls ++ more)%list.
Proof.
  revert hits calls. induction lists as [|l lists IH]; intros hits calls; simpl.
  - exists []. rewrite app_nil_r. reflexivity.
  - unfold bind, call. destruct (tasks_items remote (id l) show) as [items|e].
    + destruct (IH (pushMatches query (id l) (default [] items) hits)
                   (calls ++ [ListTasks headers (id l) show])%list) as [more Hm].
      exists (ListTasks headers (id l) show :: more). rewrite Hm, <- app_assoc. reflexivity.
    + exists [ListTasks headers (id l) show]. reflexivity.
Qed.

Lemma authHeader_held tokens calls :
  savedTokens = Some tokens ->
  authHeader savedTokens remote calls =
    (match getAccessToken remote with
     | Returned token =>
         if Js.truthy_str token
         then Returned (AuthHeaders ("Bearer " ++ default "" token))
         else Returned (AuthError "No access token (re-auth at /oauth2/start)")
     | Thrown e => Thrown e
     end, (calls ++ [GetAccessToken])%list).
Proof.
  intros ->. unfold authHeader, bind, call, ret.
  destruct (getAccessToken remote) as [token|e]; [|reflexivity].
  destruct (Js.truthy_str token); reflexivity.
Qed.

End ToolFacts.

(** C7: with a usable token and answering remote calls, [search] asks for
    the tasks of the given list when a (non-empty) [listId] is passed and
    of every list of the account otherwise, with [showCompleted] defaulting
    to true; it keeps a task exactly when no (non-empty) query is given or
    the lower-cased title contains the lower-cased query; and it returns the
    first 25 kept tasks, list before list, each list in the order received. *)
Theorem search_first_matches_in_list_order
    (tokens tok : string) (remote : Tools.Remote) (query listId : option string)
    (showCompleted : option bool) (accountLists : option (list Tools.TaskList))
    (replies : string -> option (list Tools.Task)) (calls : list Tools.Call) :
  Tools.getAccessToken remote = Returned (Some tok) ->
  tok <> "" ->
  (Js.truthy_str listId = false -> Tools.lists_items remote = Returned accountLists) ->
  (forall l, In l (Tools.spec_targets listId (default [] accountLists)) ->
     Tools.tasks_items remote (Tools.id l) (default true showCompleted)
       = Returned (replies (Tools.id l))) ->
  Tools.search (Some tokens) remote query listId showCompleted calls =
    (Returned {| Tools.content :=
                   Tools.TextHits
                     (Tools.spec_search query
                        (Tools.spec_targets listId (default [] accountLists))
                        (fun l => default [] (replies l)));
                 Tools.isError := false |},
     (calls ++ Tools.GetAccessToken ::
        (if Js.truthy_str listId then [] else [Tools.ListTaskLists ("Bearer " ++ tok)]) ++
        List.map (fun l => Tools.ListTasks ("Bearer " ++ tok) (Tools.id l)
                             (default true showCompleted))
                 (Tools.spec_targets listId (default [] accountLists)))%list)
  /\ (length (Tools.spec_search query
                (Tools.spec_targets listId (default [] accountLists))
                (fun l => default [] (replies l))) <= 25)%nat
  /\ (forall l items h,
        In h (Tools.hitsOfList query l items) <->
        Tools.hit_listId h = l /\ In (Tools.hit_task h) items
        /\ Tools.matches query (Tools.hit_task h) = true)
  /\ (forall t,
        Tools.matches query t = true <->
        Js.truthy_str query = false \/
        exists a b, Js.toLowerCase (default "" (Tools.title t))
                    = a ++ Js.toLowerCase (default "" query) ++ b).
Proof.
  intros Htok Hne Hlists Htasks. repeat apply conj.
  - unfold Tools.search, bind. rewrite (authHeader_held _ _ tokens) by reflexivity.
    rewrite Htok.
    assert (Js.truthy_str (Some tok) = true) as -> by (apply truthy_str_Some; eauto).
    unfold Tools.spec_targets in *. destruct (Js.truthy_str listId) eqn:Hl.
    + unfold ret at 1.
      rewrite (searchLists_collects remote _ _ _ replies) by exact Htasks.
      unfold ret, Tools.spec_search. simpl. rewrite <- app_assoc. reflexivity.
    + unfold Tools.listTaskLists, bind, Tools.call. rewrite Hlists by reflexivity.
      unfold ret at 1.
      rewrite (searchLists_collects remote _ _ _ replies) by exact Htasks.
      unfold ret, Tools.spec_search. simpl. rewrite <- !app_assoc. reflexivity.
  - unfold Tools.spec_search. rewrite length_take. lia.
  - intros l items h. unfold Tools.hitsOfList. rewrite in_map_iff. split.
    + intros [t [<- Ht]]. apply filter_In in Ht as [Hin Hm]. simpl. auto.
    + intros [Hl [Hin Hm]]. exists (Tools.hit_task h). split.
      * destruct h; simpl in *. subst. reflexivity.
      * apply filter_In. auto.
  - intros t. unfold Tools.matches. rewrite orb_true_iff, negb_true_iff, includes_app.
    reflexivity.
Qed.

Lemma search_first_matches_witness :
  Tools.search (Some "tokens") demo_remote (Some "groc") None None [] =
    (Returned {| Tools.content :=
                   Tools.TextHits [ {| Tools.hit_listId := "L1"; Tools.hit_task := groceries |};
                                    {| Tools.hit_listId := "L2"; Tools.hit_task := groceries |} ];
                 Tools.isError := false |},
     [Tools.GetAccessToken; Tools.ListTaskLists "Bearer ya29";
      Tools.ListTasks "Bearer ya29" "L1" true; Tools.ListTasks "Bearer ya29" "L2" true;
      Tools.ListTasks "Bearer ya29" "L3" true]).
Proof.
  pose proof (search_first_matches_in_list_order "tokens" "ya29" demo_remote
                (Some "groc") None None
                (Some [ {| Tools.id := "L1" |}; {| Tools.id := "L2" |}; {| Tools.id := "L3" |} ])
                demo_tasks []) as Hs.
  destruct Hs as [Hs _].
  - reflexivity.
  - discriminate.
  - intros _. reflexivity.
  - intros l _. reflexivity.
  - rewrite Hs. reflexivity.
Defined.

(** C8: [create_task] called without a (non-empty) [listId] asks for the
    account's lists; with none it returns, not throws, the error-flagged
    result 'No task lists found.' and creates nothing; with at least one it
    posts the task to the first list. *)
Theorem create_task_without_listId
    (tokens tok title : string) (remote : Tools.Remote) (listId notes due : option string)
    (accountLists : option (list Tools.TaskList)) (calls : list Tools.Call) :
  Tools.getAccessToken remote = Returned (Some tok) ->
  tok <> "" ->
  Js.truthy_str listId = false ->
  Tools.lists_items remote = Returned accountLists ->
  (default [] accountLists = [] ->
     Tools.create_task (Some tokens) remote listId title notes due calls =
       (Returned {| Tools.content := Tools.TextMessage "No task lists found.";
                    Tools.isError := true |},
        (calls ++ [Tools.GetAccessToken; Tools.ListTaskLists ("Bearer " ++ tok)])%list))
  /\ (forall l rest, default [] accountLists = l :: rest ->
        Tools.create_task (Some tokens) remote listId title notes due calls =
          (match Tools.created_json remote (Tools.id l) title notes due with
           | Returned j => Returned {| Tools.content := Tools.TextTask j;
                                       Tools.isError := false |}
           | Thrown e => Thrown e
           end,
           (calls ++ [Tools.GetAccessToken; Tools.ListTaskLists ("Bearer " ++ tok);
                      Tools.CreateTask ("Bearer " ++ tok) (Tools.id l) title notes due])%list)).
Proof.
  intros Htok Hne Hl Hlists.
  assert (Js.truthy_str (Some tok) = true) as Ht by (apply truthy_str_Some; eauto).
  split.
  - intros Hnil. unfold Tools.create_task, bind.
    rewrite (authHeader_held _ _ tokens) by reflexivity. rewrite Htok, Ht, Hl.
    unfold Tools.listTaskLists, bind, Tools.call. rewrite Hlists. unfold ret at 1.
    rewrite Hnil. unfold ret, Tools.errorResult. rewrite <- app_assoc. reflexivity.
  - intros l rest Hcons. unfold Tools.create_task, bind.
    rewrite (authHeader_held _ _ tokens) by reflexivity. rewrite Htok, Ht, Hl.
    unfold Tools.listTaskLists, bind, Tools.call. rewrite Hlists. unfold ret at 1.
    rewrite Hcons. unfold Tools.createIn, bind, Tools.call.
    destruct (Tools.created_json remote (Tools.id l) title notes due);
      unfold ret; rewrite <- !app_assoc; reflexivity.
Qed.

Lemma create_task_without_listId_witness :
  Tools.create_task (Some "tokens") empty_account None "Buy milk" None None [] =
    (Returned {| Tools.content := Tools.TextMessage "No task lists found.";
                 Tools.isError := true |},
     [Tools.GetAccessToken; Tools.ListTaskLists "Bearer ya29"])
  /\ Tools.create_task (Some "tokens") demo_remote None "Buy milk" None None [] =
    (Returned {| Tools.content :=
                   Tools.TextTask {| Tools.title := Some "Buy milk"; Tools.fields := "new" |};
                 Tools.isError := false |},
     [Tools.GetAccessToken; Tools.ListTaskLists "Bearer ya29";
      Tools.CreateTask "Bearer ya29" "L1" "Buy milk" None None]).
Proof.
  split.
  - apply (create_task_without_listId "tokens" "ya29" "Buy milk" empty_account
             None None None None []); try reflexivity. discriminate.
  - apply (create_task_without_listId "tokens" "ya29" "Buy milk" demo_remote
             None None None
             (Some [ {| Tools.id := "L1" |}; {| Tools.id := "L2" |}; {| Tools.id := "L3" |} ])
             [] eq_refl ltac:(discriminate) eq_refl eq_refl)
      with (l := {| Tools.id := "L1" |})
           (rest := [ {| Tools.id := "L2" |}; {| Tools.id := "L3" |} ]).
    reflexivity.
Defined.

(** C9, as stated, fails: with a token set held, when the call for an
    access token itself rejects, the handler returns nothing: the exception
    leaves [search] (and likewise [fetch] and [create_task]). *)
Lemma token_rejection_is_thrown :
  Tools.invoke (Some "tokens") rejecting_remote (Tools.Search None None None) []
    = (Thrown "invalid_grant", [Tools.GetAccessToken])
  /\ Tools.invoke (Some "tokens") rejecting_remote (Tools.Fetch "L1" "t1") []
    = (Thrown "invalid_grant", [Tools.GetAccessToken])
  /\ Tools.invoke (Some "tokens") rejecting_remote
       (Tools.Create_task None "Buy milk" None None) []
    = (Thrown "invalid_grant", [Tools.GetAccessToken]).
Proof. repeat split. Qed.

Lemma invoke_extends (tokens : string) (remote : Tools.Remote) (c : Tools.ToolCall)
    (calls : list Tools.Call) :
  exists more, snd (Tools.invoke (Some tokens) remote c calls)
               = (calls ++ Tools.GetAccessToken :: more)%list.
Proof.
  destruct c as [query listId showCompleted | listId taskId | listId title notes due];
    simpl; unfold Tools.search, Tools.fetch, Tools.create_task, bind;
    rewrite (authHeader_held _ _ tokens) by reflexivity;
    (destruct (Tools.getAccessToken remote) as [token|e]; [|exists []; reflexivity]);
    (destruct (Js.truthy_str token); [|exists []; reflexivity]).
  - destruct (Js.truthy_str listId).
    + unfold ret at 1.
      destruct (searchLists_extends remote ("Bearer " ++ default "" token)
                  (match showCompleted with Some b => b | None => true end) query
                  [ {| Tools.id := default "" listId |} ] []
                  (calls ++ [Tools.GetAccessToken])%list) as [more Hm].
      exists more. destruct (Tools.searchLists _ _ _ _ _ _ _) as [[hits|e] calls'];
        simpl in *; rewrite Hm, <- app_assoc; reflexivity.
    + unfold Tools.listTaskLists, bind, Tools.call.
      destruct (Tools.lists_items remote) as [items|e];
        [|exists [Tools.ListTaskLists ("Bearer " ++ default "" token)];
          simpl; rewrite <- app_assoc; reflexivity].
      unfold ret at 1.
      destruct (searchLists_extends remote ("Bearer " ++ default "" token)
                  (match showCompleted with Some b => b | None => true end) query
                  (default [] items) []
                  ((calls ++ [Tools.GetAccessToken]) ++
                   [Tools.ListTaskLists ("Bearer " ++ default "" token)])%list)
        as [more Hm].
      exists (Tools.ListTaskLists ("Bearer " ++ default "" token) :: more).
      destruct (Tools.searchLists _ _ _ _ _ _ _) as [[hits|e] calls'];
        simpl in *; rewrite Hm, <- !app_assoc; reflexivity.
  - unfold Tools.call. eexists.
    destruct (Tools.task_json remote listId taskId); simpl;
      rewrite <- app_assoc; reflexivity.
  - destruct (Js.truthy_str listId).
    + unfold Tools.createIn, bind, Tools.call. eexists.
      destruct (Tools.created_json remote _ _ _ _); simpl;
        rewrite <- app_assoc; reflexivity.
    + unfold Tools.listTaskLists, bind, Tools.call.
      destruct (Tools.lists_items remote) as [items|e];
        [|exists [Tools.ListTaskLists ("Bearer " ++ default "" token)];
          simpl; rewrite <- app_assoc; reflexivity].
      unfold ret at 1. destruct (default [] items) as [|l rest].
      * eexists. simpl. rewrite <- app_assoc. reflexivity.
      * unfold Tools.createIn, bind, Tools.call. eexists.
        destruct (Tools.created_json remote _ _ _ _); simpl;
          rewrite <- !app_assoc; reflexivity.
Qed.

(** C9 (amended): every tool first asks for the authorization header.
    With no token set held it returns, without any outbound call, the
    error-flagged result 'Not authorized. Visit /oauth2/start first.'; with
    a token set held its first outbound call is the one for an access token,
    and when that call resolves without a token it returns the error-flagged
    result 'No access token (re-auth at /oauth2/start)', a different message.
    When that call rejects, the exception leaves the handler uncaught. *)
Theorem tools_report_authorization_errors
    (savedTokens : option string) (remote : Tools.Remote) (c : Tools.ToolCall)
    (calls : list Tools.Call) :
  (savedTokens = None ->
     Tools.invoke savedTokens remote c calls =
       (Returned {| Tools.content :=
                      Tools.TextMessage "Not authorized. Visit /oauth2/start first.";
                    Tools.isError := true |}, calls))
  /\ (forall token, is_Some savedTokens ->
        Tools.getAccessToken remote = Returned token -> Js.truthy_str token = false ->
        Tools.invoke savedTokens remote c calls =
          (Returned {| Tools.content :=
                         Tools.TextMessage "No access token (re-auth at /oauth2/start)";
                       Tools.isError := true |},
           (calls ++ [Tools.GetAccessToken])%list))
  /\ (forall e, is_Some savedTokens ->
        Tools.getAccessToken remote = Thrown e ->
        Tools.invoke savedTokens remote c calls
          = (Thrown e, (calls ++ [Tools.GetAccessToken])%list))
  /\ (is_Some savedTokens ->
        exists more, snd (Tools.invoke savedTokens remote c calls)
                     = (calls ++ Tools.GetAccessToken :: more)%list)
  /\ "Not authorized. Visit /oauth2/start first."
       <> "No access token (re-auth at /oauth2/start)".
Proof.
  repeat apply conj.
  - intros ->. destruct c; reflexivity.
  - intros token [tokens ->] Htok Hfalsy.
    destruct c; simpl; unfold Tools.search, Tools.fetch, Tools.create_task, bind;
      rewrite (authHeader_held _ _ tokens) by reflexivity;
      rewrite Htok, Hfalsy; reflexivity.
  - intros e [tokens ->] Htok.
    destruct c; simpl; unfold Tools.search, Tools.fetch, Tools.create_task, bind;
      rewrite (authHeader_held _ _ tokens) by reflexivity;
      rewrite Htok; reflexivity.
  - intros [tokens ->]. apply invoke_extends.
  - discriminate.
Qed.

Lemma tools_report_authorization_errors_witness :
  Tools.invoke None demo_remote (Tools.Fetch "L1" "t1") [] =
    (Returned {| Tools.content :=
                   Tools.TextMessage "Not authorized. Visit /oauth2/start first.";
                 Tools.isError := true |}, [])
  /\ Tools.invoke (Some "tokens") tokenless_remote (Tools.Search (Some "groc") None None) [] =
    (Returned {| Tools.content :=
                   Tools.TextMessage "No access token (re-auth at /oauth2/start)";
                 Tools.isError := true |}, [Tools.GetAccessToken]).
Proof.
  split.
  - apply (tools_report_authorization_errors None demo_remote (Tools.Fetch "L1" "t1") []).
    reflexivity.
  - apply (tools_report_authorization_errors (Some "tokens") tokenless_remote
             (Tools.Search (Some "groc") None None) []) with (token := None).
    + exists "tokens". reflexivity.
    + reflexivity.
    + reflexivity.
Defined.

(** ** The session lifecycle *)

Ltac unfold_blocks :=
  unfold Sessions.touchSession, Sessions.expire, Sessions.session_onclose,
    Sessions.post_onclose, Sessions.onsessioninitialized, Sessions.sdk_initialize,
    Sessions.sdk_close, Sessions.newTransport, Sessions.transport_close,
    Sessions.setTimeout, Sessions.clearTimeout, Sessions.console_log,
    Sessions.exec, bind, try_catch, gets, modify, ret, when_some in *.

Lemma touchSession_falsy (sessionId : option string) (transport : nat) (s : Sessions.State) :
  Js.truthy_str sessionId = false ->
  Sessions.touchSession sessionId transport s = (Returned tt, s).
Proof. intros H. unfold Sessions.touchSession. rewrite H. reflexivity. Qed.

Lemma touchSession_returns sessionId transport s :
  fst (Sessions.touchSession sessionId transport s) = Returned tt.
Proof.
  unfold_blocks. destruct (Js.truthy_str sessionId); simpl; [|reflexivity].
  destruct (Sessions.sessionTimers s !! _); reflexivity.
Qed.

Lemma touchSession_Inv sessionId transport s :
  Sessions.Inv s -> Sessions.Inv (Sessions.exec (Sessions.touchSession sessionId transport) s).
Proof.
  intros [I1 I2 I3 I4 I6 I5 I7].
  destruct (Js.truthy_str sessionId) eqn:Ht;
    [|unfold Sessions.exec; rewrite touchSession_falsy by exact Ht; constructor; assumption].
  unfold_blocks. rewrite Ht. simpl.
  set (sid := default "" sessionId).
  destruct (Sessions.sessionTimers s !! sid) as [old|] eqn:Hold; simpl.
  - constructor; simpl.
    + intros t tm Hl. destruct (decide (t = Sessions.nextTimer s)) as [->|Hne].
      * rewrite lookup_insert_eq in Hl. injection Hl as <-. simpl. apply lookup_insert_eq.
      * rewrite lookup_insert_ne in Hl by congruence.
        destruct (decide (t = old)) as [->|Hno]; [rewrite lookup_delete_eq in Hl; discriminate|].
        rewrite lookup_delete_ne in Hl by congruence.
        pose proof (I1 _ _ Hl) as Hreg.
        destruct (decide (Sessions.timer_sessionId tm = sid)) as [He|He].
        -- rewrite He, Hold in Hreg. congruence.
        -- rewrite lookup_insert_ne by congruence. exact Hreg.
    + intros k tr Hk. destruct (decide (k = sid)) as [->|Hne].
      * rewrite lookup_insert_eq. eauto.
      * rewrite lookup_insert_ne by congruence. eauto.
    + intros k t Hk. apply (I3 _ _ Hk).
    + intros t tm Hl. destruct (decide (t = Sessions.nextTimer s)) as [->|Hne]; [lia|].
      rewrite lookup_insert_ne in Hl by congruence.
      destruct (decide (t = old)) as [->|Hno]; [rewrite lookup_delete_eq in Hl; discriminate|].
      rewrite lookup_delete_ne in Hl by congruence. apply I4 in Hl. lia.
    + intros k t Hk. destruct (decide (k = sid)) as [->|Hne].
      * rewrite lookup_insert_eq in Hk. injection Hk as <-. lia.
      * rewrite lookup_insert_ne in Hk by congruence. apply I6 in Hk. lia.
    + exact I5.
    + exact I7.
  - constructor; simpl.
    + intros t tm Hl. destruct (decide (t = Sessions.nextTimer s)) as [->|Hne].
      * rewrite lookup_insert_eq in Hl. injection Hl as <-. simpl. apply lookup_insert_eq.
      * rewrite lookup_insert_ne in Hl by congruence.
        pose proof (I1 _ _ Hl) as Hreg.
        destruct (decide (Sessions.timer_sessionId tm = sid)) as [He|He].
        -- rewrite He, Hold in Hreg. congruence.
        -- rewrite lookup_insert_ne by congruence. exact Hreg.
    + intros k tr Hk. destruct (decide (k = sid)) as [->|Hne].
      * rewrite lookup_insert_eq. eauto.
      * rewrite lookup_insert_ne by congruence. eauto.
    + intros k t Hk. apply (I3 _ _ Hk).
    + intros t tm Hl. destruct (decide (t = Sessions.nextTimer s)) as [->|Hne]; [lia|].
      rewrite lookup_insert_ne in Hl by congruence. apply I4 in Hl. lia.
    + intros k t Hk. destruct (decide (k = sid)) as [->|Hne].
      * rewrite lookup_insert_eq in Hk. injection Hk as <-. lia.
      * rewrite lookup_insert_ne in Hk by congruence. apply I6 in Hk. lia.
    + exact I5.
    + exact I7.
Qed.

Lemma Inv_frame s s' :
  Sessions.sessions s' = Sessions.sessions s ->
  Sessions.sessionTimers s' = Sessions.sessionTimers s ->
  Sessions.timeouts s' = Sessions.timeouts s ->
  Sessions.nextTimer s' = Sessions.nextTimer s ->
  Sessions.transports s' = Sessions.transports s ->
  Sessions.nextTransport s' = Sessions.nextTransport s ->
  Sessions.Inv s -> Sessions.Inv s'.
Proof.
  intros E1 E2 E3 E4 E5 E6 [I1 I2 I3 I4 I6 I5 I7].
  constructor; unfold Sessions.sessionIdOf in *; rewrite ?E1, ?E2, ?E3, ?E4, ?E5, ?E6;
    assumption.
Qed.

Lemma Inv_close_flag s t tr b :
  Sessions.transports s !! t = Some tr ->
  Sessions.Inv s ->
  Sessions.Inv (Sessions.set_transports
                  <[t := {| Sessions.sessionId := Sessions.sessionId tr;
                            Sessions.closed := b |}]> (Sessions.nextTransport s) s).
Proof.
  intros Ht [I1 I2 I3 I4 I6 I5 I7]. constructor; simpl; try assumption.
  - intros sid t' Hs. specialize (I3 _ _ Hs). unfold Sessions.sessionIdOf in *. simpl.
    destruct (decide (t' = t)) as [->|Hne].
    + rewrite lookup_insert_eq. rewrite Ht in I3. exact I3.
    + rewrite lookup_insert_ne by congruence. exact I3.
  - intros t' tr' Hl. destruct (decide (t' = t)) as [->|Hne].
    + eapply I5. exact Ht.
    + rewrite lookup_insert_ne in Hl by congruence. eapply I5. exact Hl.
Qed.

Lemma Inv_release s sid :
  (forall t tm, Sessions.timeouts s !! t = Some tm -> Sessions.timer_sessionId tm <> sid) ->
  Sessions.Inv s ->
  Sessions.Inv (Sessions.set_sessionTimers (delete sid) (Sessions.set_sessions (delete sid) s)).
Proof.
  intros Hno [I1 I2 I3 I4 I6 I5 I7]. constructor; simpl; try assumption.
  - intros t tm Hl. rewrite lookup_delete_ne by (apply not_eq_sym; eapply Hno; exact Hl). eauto.
  - intros k tr Hk. destruct (decide (k = sid)) as [->|Hne].
    + rewrite lookup_delete_eq in Hk. discriminate.
    + rewrite lookup_delete_ne in Hk by congruence. rewrite lookup_delete_ne by congruence. eauto.
  - intros k t Hk. destruct (decide (k = sid)) as [->|Hne].
    + rewrite lookup_delete_eq in Hk. discriminate.
    + rewrite lookup_delete_ne in Hk by congruence. apply (I3 _ _ Hk).
  - intros k t Hk. destruct (decide (k = sid)) as [->|Hne].
    + rewrite lookup_delete_eq in Hk. discriminate.
    + rewrite lookup_delete_ne in Hk by congruence. eauto.
  - intros t Hk. destruct (decide ("" = sid)) as [<-|Hne].
    + rewrite lookup_delete_eq in Hk. discriminate.
    + rewrite lookup_delete_ne in Hk by congruence. eauto.
Qed.

Lemma Inv_clear s t :
  Sessions.Inv s -> Sessions.Inv (Sessions.set_timeouts (delete t) (Sessions.nextTimer s) s).
Proof.
  intros [I1 I2 I3 I4 I6 I5 I7]. constructor; simpl; try assumption.
  - intros t' tm Hl. destruct (decide (t' = t)) as [->|Hne].
    + rewrite lookup_delete_eq in Hl. discriminate.
    + rewrite lookup_delete_ne in Hl by congruence. eauto.
  - intros t' tm Hl. destruct (decide (t' = t)) as [->|Hne].
    + rewrite lookup_delete_eq in Hl. discriminate.
    + rewrite lookup_delete_ne in Hl by congruence. eauto.
Qed.

Lemma Inv_add_log e s : Sessions.Inv s -> Sessions.Inv (Sessions.add_log e s).
Proof. apply Inv_frame; reflexivity. Qed.

(** The guarded close: the outcome is normal, and the state is the old one,
    or the old one with the rejection left to the runtime, or the old one
    with the transport marked closed. *)
Lemma swallowed_close close_does t s :
  exists s', try_catch (Sessions.transport_close close_does t) (fun _ => ret tt) s
             = (Returned tt, s')
    /\ (s' = s
        \/ s' = Sessions.add_log (Sessions.UnhandledRejection "close failed") s
        \/ exists tr, Sessions.transports s !! t = Some tr /\
          s' = Sessions.set_transports
                 <[t := {| Sessions.sessionId := Sessions.sessionId tr;
                           Sessions.closed := true |}]> (Sessions.nextTransport s) s).
Proof.
  unfold try_catch, Sessions.transport_close, ret.
  destruct (Sessions.transports s !! t) as [tr|] eqn:Ht;
    [|exists s; split; [reflexivity | left; reflexivity]].
  destruct (close_does tr).
  - eexists. split; [reflexivity|]. right. right. exists tr. split; reflexivity.
  - exists s. split; [reflexivity | left; reflexivity].
  - eexists. split; [reflexivity|]. right. left. reflexivity.
Qed.

Lemma expire_Inv close_does s t tm :
  Sessions.timeouts s !! t = Some tm ->
  Sessions.Inv s ->
  Sessions.Inv
    (Sessions.exec (Sessions.expire close_does (Sessions.timer_sessionId tm)
                      (Sessions.timer_transport tm))
       (Sessions.set_timeouts (delete t) (Sessions.nextTimer s) s)).
Proof.
  intros Ht HI.
  assert (Hno : forall t' tm', delete t (Sessions.timeouts s) !! t' = Some tm' ->
                  Sessions.timer_sessionId tm' <> Sessions.timer_sessionId tm).
  { intros t' tm' Hl He. destruct (decide (t' = t)) as [->|Hne].
    - rewrite lookup_delete_eq in Hl. discriminate.
    - rewrite lookup_delete_ne in Hl by congruence.
      pose proof (Sessions.inv_timer_registered _ HI _ _ Hl) as H1.
      pose proof (Sessions.inv_timer_registered _ HI _ _ Ht) as H2. congruence. }
  apply (Inv_clear _ t) in HI.
  unfold Sessions.expire, Sessions.exec, bind at 1.
  destruct (swallowed_close close_does (Sessions.timer_transport tm)
              (Sessions.set_timeouts (delete t) (Sessions.nextTimer s) s))
    as [s' [-> Hs']].
  unfold bind, modify, Sessions.console_log. simpl.
  eapply (Inv_frame (Sessions.set_sessionTimers (delete (Sessions.timer_sessionId tm))
                       (Sessions.set_sessions (delete (Sessions.timer_sessionId tm)) s')));
    try reflexivity.
  apply Inv_release.
  - destruct Hs' as [->|[->|[tr [_ ->]]]]; exact Hno.
  - destruct Hs' as [->|[->|[tr [Htr ->]]]];
      [exact HI | apply Inv_add_log; exact HI |].
    apply Inv_close_flag; assumption.
Qed.

Lemma session_onclose_Inv close_does s t :
  Sessions.Inv s -> Sessions.Inv (Sessions.exec (Sessions.session_onclose close_does t) s).
Proof.
  intros HI. unfold Sessions.session_onclose, Sessions.exec, bind at 1, gets at 1.
  destruct (Js.truthy_str (Sessions.sessionIdOf t s)); [|exact HI].
  set (sid := default "" (Sessions.sessionIdOf t s)).
  unfold bind at 1, gets at 1. unfold bind at 1.
  set (s1 := snd (when_some (Sessions.sessionTimers s !! sid) Sessions.clearTimeout s)).
  assert (Hw : when_some (Sessions.sessionTimers s !! sid) Sessions.clearTimeout s
               = (Returned tt, s1)).
  { subst s1. destruct (Sessions.sessionTimers s !! sid); reflexivity. }
  rewrite Hw.
  assert (HI1 : Sessions.Inv s1).
  { subst s1. destruct (Sessions.sessionTimers s !! sid); simpl; [apply Inv_clear|]; exact HI. }
  assert (Hno : forall t' tm', Sessions.timeouts s1 !! t' = Some tm' ->
                  Sessions.timer_sessionId tm' <> sid).
  { intros t' tm' Hl He. subst s1.
    destruct (Sessions.sessionTimers s !! sid) as [old|] eqn:Hold; simpl in Hl.
    - destruct (decide (t' = old)) as [->|Hne].
      + rewrite lookup_delete_eq in Hl. discriminate.
      + rewrite lookup_delete_ne in Hl by congruence.
        pose proof (Sessions.inv_timer_registered _ HI _ _ Hl) as H1. congruence.
    - pose proof (Sessions.inv_timer_registered _ HI _ _ Hl) as H1. congruence. }
  unfold bind at 1, modify at 1. unfold bind at 1, modify at 1. unfold bind at 1.
  apply (Inv_release _ sid Hno) in HI1.
  destruct (swallowed_close close_does t
              (Sessions.set_sessions (delete sid) (Sessions.set_sessionTimers (delete sid) s1)))
    as [s' [-> Hs']].
  unfold Sessions.console_log, modify. simpl.
  eapply (Inv_frame s'); try reflexivity.
  destruct Hs' as [->|[->|[tr [Htr ->]]]];
    [exact HI1 | apply Inv_add_log; exact HI1 |].
  apply (Inv_close_flag _ _ _ true Htr) in HI1. exact HI1.
Qed.

Lemma touchSession_sessions_commute f sessionId transport s :
  Sessions.exec (Sessions.touchSession sessionId transport) (Sessions.set_sessions f s)
  = Sessions.set_sessions f (Sessions.exec (Sessions.touchSession sessionId transport) s).
Proof.
  unfold_blocks. destruct (Js.truthy_str sessionId); simpl; [|reflexivity].
  destruct (Sessions.sessionTimers s !! _); reflexivity.
Qed.

Lemma touchSession_transports sessionId transport s :
  Sessions.transports (Sessions.exec (Sessions.touchSession sessionId transport) s)
  = Sessions.transports s.
Proof.
  unfold_blocks. destruct (Js.truthy_str sessionId); simpl; [|reflexivity].
  destruct (Sessions.sessionTimers s !! _); reflexivity.
Qed.

Lemma touchSession_sessions sessionId transport s :
  Sessions.sessions (Sessions.exec (Sessions.touchSession sessionId transport) s)
  = Sessions.sessions s.
Proof.
  unfold_blocks. destruct (Js.truthy_str sessionId); simpl; [|reflexivity].
  destruct (Sessions.sessionTimers s !! _); reflexivity.
Qed.

Lemma touchSession_registers sid transport s :
  sid <> "" ->
  Sessions.sessionTimers (Sessions.exec (Sessions.touchSession (Some sid) transport) s) !! sid
  = Some (Sessions.nextTimer s).
Proof.
  intros Hne. unfold_blocks.
  assert (Js.truthy_str (Some sid) = true) as -> by (apply truthy_str_Some; eauto).
  simpl. destruct (Sessions.sessionTimers s !! sid); simpl; apply lookup_insert_eq.
Qed.

Lemma Inv_register s sid t :
  sid <> "" ->
  is_Some (Sessions.sessionTimers s !! sid) ->
  Sessions.sessionIdOf t s = Some sid ->
  Sessions.Inv s -> Sessions.Inv (Sessions.set_sessions <[sid := t]> s).
Proof.
  intros Hsid Htm Hid [I1 I2 I3 I4 I6 I5 I7]. constructor; simpl; try assumption.
  - intros k tr Hk. destruct (decide (k = sid)) as [->|Hne]; [exact Htm|].
    rewrite lookup_insert_ne in Hk by congruence. eauto.
  - intros k t' Hk. destruct (decide (k = sid)) as [->|Hne].
    + rewrite lookup_insert_eq in Hk. injection Hk as <-. exact Hid.
    + rewrite lookup_insert_ne in Hk by congruence. apply (I3 _ _ Hk).
  - intros t' Hk. rewrite lookup_insert_ne in Hk by congruence. eauto.
Qed.

Lemma Inv_newTransport s :
  Sessions.Inv s -> Sessions.Inv (snd (Sessions.newTransport s)).
Proof.
  intros [I1 I2 I3 I4 I6 I5 I7]. constructor; simpl; try assumption.
  - intros sid t Hs. specialize (I3 _ _ Hs). unfold Sessions.sessionIdOf in *. simpl.
    destruct (Sessions.transports s !! t) as [tr|] eqn:Ht; [|discriminate].
    pose proof (I5 _ _ Ht) as Hlt. rewrite lookup_insert_ne by lia. rewrite Ht. exact I3.
  - intros t tr Hl. destruct (decide (t = Sessions.nextTransport s)) as [->|Hne]; [lia|].
    rewrite lookup_insert_ne in Hl by congruence. apply I5 in Hl. lia.
Qed.

Lemma Inv_initialize s t tr uuid :
  Sessions.transports s !! t = Some tr ->
  Sessions.sessionId tr = None ->
  uuid <> "" ->
  Sessions.Inv s ->
  Sessions.Inv (Sessions.exec (bind (Sessions.sdk_initialize t tr uuid)
                                 (fun _ => Sessions.onsessioninitialized t uuid))
                  (Sessions.set_issued (union {[uuid]}) s)).
Proof.
  intros Ht Hnone Hne HI.
  unfold Sessions.exec, bind at 1, Sessions.sdk_initialize.
  unfold Sessions.onsessioninitialized, bind at 1, modify at 1. unfold bind at 1.
  set (s1 := Sessions.set_transports _ _ _).
  assert (HI1 : Sessions.Inv s1).
  { destruct HI as [I1 I2 I3 I4 I6 I5 I7]. subst s1. constructor; simpl; try assumption.
    - intros sid t' Hs. specialize (I3 _ _ Hs). unfold Sessions.sessionIdOf in *. simpl.
      destruct (decide (t' = t)) as [->|Hnt].
      + rewrite Ht, Hnone in I3. discriminate.
      + rewrite lookup_insert_ne by congruence. exact I3.
    - intros t' tr' Hl. destruct (decide (t' = t)) as [->|Hnt].
      + eapply I5. exact Ht.
      + rewrite lookup_insert_ne in Hl by congruence. eapply I5. exact Hl. }
  pose proof (touchSession_returns (Some uuid) t (Sessions.set_sessions <[uuid:=t]> s1)) as Hr.
  pose proof (touchSession_sessions_commute <[uuid:=t]> (Some uuid) t s1) as Hc.
  unfold Sessions.exec in Hc.
  destruct (Sessions.touchSession (Some uuid) t (Sessions.set_sessions <[uuid:=t]> s1))
    as [o s2]. simpl in Hr, Hc. subst o s2.
  unfold Sessions.console_log, modify. simpl.
  apply (Inv_frame (Sessions.set_sessions <[uuid:=t]>
                      (Sessions.exec (Sessions.touchSession (Some uuid) t) s1)));
    try reflexivity.
  apply Inv_register; [exact Hne | | | apply touchSession_Inv; exact HI1].
  - rewrite touchSession_registers by exact Hne. eauto.
  - unfold Sessions.sessionIdOf. rewrite touchSession_transports. subst s1. simpl.
    rewrite lookup_insert_eq. reflexivity.
Qed.

Lemma file_Inv rid req block s :
  Sessions.Inv (snd (block s)) -> Sessions.Inv (Sessions.file rid req block s).
Proof.
  intros HI. unfold Sessions.file. destruct (block s) as [[ex|e] s']; simpl in HI;
    (eapply Inv_frame; [..|exact HI]; reflexivity).
Qed.

Lemma touch_step sessionId transport s :
  exists s', Sessions.touchSession sessionId transport s = (Returned tt, s')
             /\ s' = Sessions.exec (Sessions.touchSession sessionId transport) s.
Proof.
  pose proof (touchSession_returns sessionId transport s) as Hr. unfold Sessions.exec.
  destruct (Sessions.touchSession sessionId transport s) as [o s']. simpl in *. subst o.
  exists s'. split; reflexivity.
Qed.

Lemma post_begin_Inv FORCE_JSON req s :
  Sessions.Inv s -> Sessions.Inv (snd (Sessions.post_begin FORCE_JSON req s)).
Proof.
  intros HI. unfold Sessions.post_begin, try_catch, bind at 1.
  unfold Sessions.sessionFor.
  destruct (Js.truthy_str _); unfold gets, ret at 1.
  - destruct (Sessions.sessions s !! _) as [t|].
    + unfold bind at 1, gets. unfold bind.
      destruct (touch_step (Sessions.sessionIdOf t s) t s) as [s' [-> ->]]. simpl.
      apply touchSession_Inv. exact HI.
    + destruct (negb _); simpl; [exact HI|]. apply (Inv_newTransport s HI).
  - destruct (negb _); simpl; [exact HI|]. apply (Inv_newTransport s HI).
Qed.

Lemma session_begin_Inv req s :
  Sessions.Inv s -> Sessions.Inv (snd (Sessions.session_begin req s)).
Proof.
  intros HI. unfold Sessions.session_begin, try_catch, bind at 1.
  unfold Sessions.sessionFor.
  destruct (Js.truthy_str _); unfold gets, ret at 1; [|exact HI].
  destruct (Sessions.sessions s !! _) as [t|]; [|exact HI].
  unfold bind at 1, gets. unfold bind.
  destruct (touch_step (Sessions.sessionIdOf t s) t s) as [s' [-> ->]]. simpl.
  apply touchSession_Inv. exact HI.
Qed.

Lemma post_handled_Inv ex s :
  Sessions.Inv s -> Sessions.Inv (snd (Sessions.post_handled ex s)).
Proof.
  intros HI. unfold Sessions.post_handled, try_catch, bind at 1.
  destruct (Sessions.ex_transport ex) as [t|]; [|exact HI].
  unfold bind, gets.
  destruct (touch_step (Sessions.sessionIdOf t s) t s) as [s' [-> ->]]. simpl.
  apply touchSession_Inv. exact HI.
Qed.

Lemma session_handled_Inv ex s :
  Sessions.Inv s -> Sessions.Inv (snd (Sessions.session_handled ex s)).
Proof.
  intros HI. unfold Sessions.session_handled, bind.
  destruct (Router.Method_eqb _ _); [|exact HI].
  destruct (Sessions.ex_transport ex) as [t|]; [|exact HI].
  unfold when_some, Sessions.sdk_close.
  destruct (Sessions.transports s !! t) as [tr|] eqn:Ht; [|exact HI].
  simpl. apply Inv_close_flag; assumption.
Qed.

Lemma failed_Inv ex e s :
  Sessions.Inv s -> Sessions.Inv (snd (Sessions.failed ex e s)).
Proof. intros HI. eapply Inv_frame; [..|exact HI]; reflexivity. Qed.

Lemma Inv_initial : Sessions.Inv Sessions.initial.
Proof. constructor; simpl; intros *; rewrite lookup_empty; discriminate. Qed.

Section Reachability.

Variable API_KEY : option string.
Variable FORCE_JSON : bool.
Variable close_does : Sessions.Transport -> Sessions.Closing.

Lemma step_Inv ev s s' :
  Sessions.step API_KEY FORCE_JSON close_does ev s = Some s' ->
  Sessions.Inv s -> Sessions.Inv s'.
Proof.
  intros Hstep HI. destruct ev as [dt|t|rid req|rid|rid e|rid uuid|rid|rid e|rid];
    simpl in Hstep.
  - destruct (0 <=? dt); [|discriminate]. injection Hstep as <-.
    eapply Inv_frame; [..|exact HI]; reflexivity.
  - destruct (Sessions.timeouts s !! t) as [tm|] eqn:Ht; [|discriminate].
    destruct (Sessions.deadline tm <=? Sessions.now s); [|discriminate].
    injection Hstep as <-. apply expire_Inv; assumption.
  - destruct (Sessions.inflight s !! rid); [discriminate|].
    destruct (Router.requireKey API_KEY req).
    + destruct (Router.method req); try discriminate; injection Hstep as <-;
        apply file_Inv; auto using post_begin_Inv, session_begin_Inv.
    + injection Hstep as <-. eapply Inv_frame; [..|exact HI]; reflexivity.
  - destruct (Sessions.inflight s !! rid) as [ex|]; [|discriminate].
    destruct (Sessions.ex_phase ex); try discriminate. injection Hstep as <-.
    apply file_Inv. exact HI.
  - destruct (Sessions.inflight s !! rid) as [ex|]; [|discriminate].
    destruct (Sessions.ex_phase ex); try discriminate. injection Hstep as <-.
    apply file_Inv, failed_Inv. exact HI.
  - destruct (Sessions.inflight s !! rid) as [ex|]; [|discriminate].
    destruct (Sessions.ex_phase ex); try discriminate.
    destruct (Router.method (Sessions.ex_request ex)); try discriminate.
    destruct (Sessions.ex_transport ex) as [t|]; [|discriminate].
    destruct (Sessions.transports s !! t) as [tr|] eqn:Ht; [|discriminate].
    destruct (Sessions.sessionId tr) eqn:Hid; [discriminate|].
    destruct (_ && _) eqn:Hc; [|discriminate]. injection Hstep as <-.
    apply andb_true_iff in Hc as [Hc _]. apply andb_true_iff in Hc as [_ Hc].
    apply (Inv_initialize s t tr uuid Ht Hid); [|exact HI].
    intros ->. discriminate.
  - destruct (Sessions.inflight s !! rid) as [ex|]; [|discriminate].
    destruct (Sessions.ex_phase ex); try discriminate.
    destruct (Router.method (Sessions.ex_request ex)); injection Hstep as <-;
      apply file_Inv; auto using post_handled_Inv, session_handled_Inv.
  - destruct (Sessions.inflight s !! rid) as [ex|]; [|discriminate].
    destruct (Sessions.ex_phase ex); try discriminate. injection Hstep as <-.
    apply file_Inv, failed_Inv. exact HI.
  - destruct (Sessions.inflight s !! rid) as [ex|]; [|discriminate].
    destruct (Sessions.ex_onclose ex); [|discriminate].
    destruct (Sessions.ex_transport ex) as [t|]; [|discriminate].
    injection Hstep as <-.
    eapply Inv_frame with (s := Sessions.exec _ s); try reflexivity.
    destruct (Router.method (Sessions.ex_request ex));
      try (apply session_onclose_Inv; exact HI).
    unfold Sessions.exec, Sessions.post_onclose, bind, gets.
    destruct (Js.truthy_str _); [|exact HI].
    eapply Inv_frame; [..|exact HI]; reflexivity.
Qed.

Lemma run_Inv evs s s' :
  Sessions.run API_KEY FORCE_JSON close_does evs s = Some s' ->
  Sessions.Inv s -> Sessions.Inv s'.
Proof.
  revert s. induction evs as [|ev evs IH]; intros s Hrun HI; simpl in Hrun.
  - injection Hrun as <-. exact HI.
  - destruct (Sessions.step _ _ _ ev s) as [s1|] eqn:Hs; [|discriminate].
    eapply IH; [exact Hrun|]. eapply step_Inv; eassumption.
Qed.

Lemma reachable_Inv s :
  Sessions.reachable API_KEY FORCE_JSON close_does s -> Sessions.Inv s.
Proof. intros [evs Hrun]. eapply run_Inv; [exact Hrun | apply Inv_initial]. Qed.

End Reachability.

Lemma Steady_frame s s' :
  Sessions.now s' = Sessions.now s ->
  Sessions.issued s' = Sessions.issued s ->
  Sessions.timeouts s' = Sessions.timeouts s ->
  Sessions.Steady s s'.
Proof. intros E1 E2 E3. constructor; rewrite ?E1, ?E2, ?E3; auto. Qed.

Lemma Steady_trans s1 s2 s3 :
  Sessions.Steady s1 s2 -> Sessions.Steady s2 s3 -> Sessions.Steady s1 s3.
Proof.
  intros [N1 U1 T1] [N2 U2 T2]. constructor.
  - congruence.
  - set_solver.
  - intros t tm Hl. destruct (T2 _ _ Hl) as [Hold|Hnew].
    + apply T1. exact Hold.
    + right. congruence.
Qed.

Lemma touchSession_Steady sessionId transport s :
  Sessions.Steady s (Sessions.exec (Sessions.touchSession sessionId transport) s).
Proof.
  unfold_blocks. destruct (Js.truthy_str sessionId); simpl;
    [|apply Steady_frame; reflexivity].
  destruct (Sessions.sessionTimers s !! _) as [old|]; simpl; constructor; simpl; auto.
  - intros t tm Hl. destruct (decide (t = Sessions.nextTimer s)) as [->|Hne].
    + rewrite lookup_insert_eq in Hl. injection Hl as <-. right. reflexivity.
    + rewrite lookup_insert_ne in Hl by congruence.
      destruct (decide (t = old)) as [->|Hno]; [rewrite lookup_delete_eq in Hl; discriminate|].
      rewrite lookup_delete_ne in Hl by congruence. left. exact Hl.
  - intros t tm Hl. destruct (decide (t = Sessions.nextTimer s)) as [->|Hne].
    + rewrite lookup_insert_eq in Hl. injection Hl as <-. right. reflexivity.
    + rewrite lookup_insert_ne in Hl by congruence. left. exact Hl.
Qed.

Lemma file_quiet rid req block s :
  Sessions.quiet_block block s ->
  Sessions.Steady s (Sessions.file rid req block s)
  /\ Sessions.sessions (Sessions.file rid req block s) = Sessions.sessions s.
Proof.
  intros (ex & s' & Hb & HS & Hs). unfold Sessions.file. rewrite Hb.
  split; [|exact Hs]. eapply Steady_trans; [exact HS|]. apply Steady_frame; reflexivity.
Qed.

Lemma quiet_touched (ex : Sessions.Exchange) sessionId t s :
  exists ex' s', bind (Sessions.touchSession sessionId t) (fun _ => ret ex) s = (Returned ex', s')
    /\ Sessions.Steady s s' /\ Sessions.sessions s' = Sessions.sessions s.
Proof.
  unfold bind. destruct (touch_step sessionId t s) as [s' [-> ->]].
  exists ex, (Sessions.exec (Sessions.touchSession sessionId t) s).
  split; [reflexivity|]. split; [apply touchSession_Steady | apply touchSession_sessions].
Qed.

Lemma quiet_same (ex : Sessions.Exchange) s s' :
  Sessions.now s' = Sessions.now s ->
  Sessions.issued s' = Sessions.issued s ->
  Sessions.timeouts s' = Sessions.timeouts s ->
  Sessions.sessions s' = Sessions.sessions s ->
  exists ex0 s0, (Returned ex, s') = (Returned ex0, s0)
    /\ Sessions.Steady s s0 /\ Sessions.sessions s0 = Sessions.sessions s.
Proof.
  intros E1 E2 E3 E4. exists ex, s'. split; [reflexivity|].
  split; [apply Steady_frame; assumption | exact E4].
Qed.

Lemma post_begin_quiet FORCE_JSON req s :
  Sessions.quiet_block (Sessions.post_begin FORCE_JSON req) s.
Proof.
  unfold Sessions.quiet_block, Sessions.post_begin, try_catch, bind at 1.
  unfold Sessions.sessionFor.
  destruct (Js.truthy_str _); unfold gets, ret at 1.
  - destruct (Sessions.sessions s !! _) as [t|].
    + unfold bind at 1, gets.
      pose proof (quiet_touched
                  {| Sessions.ex_request := Sessions.ensureAccept FORCE_JSON req;
                     Sessions.ex_transport := Some t; Sessions.ex_phase := Sessions.Handling;
                     Sessions.ex_onclose := true; Sessions.ex_response := None |}
                  (Sessions.sessionIdOf t s) t s) as (ex & s' & Hq & H);
      (rewrite Hq || (unfold ret in Hq; rewrite Hq)).
      exists ex, s'. split; [reflexivity | exact H].
    + destruct (negb _); simpl; apply quiet_same; reflexivity.
  - destruct (negb _); simpl; apply quiet_same; reflexivity.
Qed.

Lemma session_begin_quiet req s :
  Sessions.quiet_block (Sessions.session_begin req) s.
Proof.
  unfold Sessions.quiet_block, Sessions.session_begin, try_catch, bind at 1.
  unfold Sessions.sessionFor.
  destruct (Js.truthy_str _); unfold gets, ret at 1;
    [|apply quiet_same; reflexivity].
  destruct (Sessions.sessions s !! _) as [t|]; [|apply quiet_same; reflexivity].
  unfold bind at 1, gets.
  pose proof (quiet_touched
              {| Sessions.ex_request := req;
                 Sessions.ex_transport := Some t; Sessions.ex_phase := Sessions.Handling;
                 Sessions.ex_onclose := true; Sessions.ex_response := None |}
              (Sessions.sessionIdOf t s) t s) as (ex & s' & Hq & H);
      (rewrite Hq || (unfold ret in Hq; rewrite Hq)).
  exists ex, s'. split; [reflexivity | exact H].
Qed.

Lemma post_handled_quiet ex s :
  Sessions.quiet_block (Sessions.post_handled ex) s.
Proof.
  unfold Sessions.quiet_block, Sessions.post_handled, try_catch.
  destruct (Sessions.ex_transport ex) as [t|]; [|apply quiet_same; reflexivity].
  unfold bind, gets.
  destruct (touch_step (Sessions.sessionIdOf t s) t s) as [s' [-> ->]].
  eexists _, _. split; [reflexivity|].
  split; [apply touchSession_Steady | apply touchSession_sessions].
Qed.

Lemma session_handled_quiet ex s :
  Sessions.quiet_block (Sessions.session_handled ex) s.
Proof.
  unfold Sessions.quiet_block, Sessions.session_handled, bind.
  destruct (Router.Method_eqb _ _); [|apply quiet_same; reflexivity].
  destruct (Sessions.ex_transport ex) as [t|]; [|apply quiet_same; reflexivity].
  unfold when_some, Sessions.sdk_close.
  destruct (Sessions.transports s !! t) as [tr|]; apply quiet_same; reflexivity.
Qed.

Lemma failed_quiet ex e s :
  Sessions.quiet_block (Sessions.failed ex e) s.
Proof. unfold Sessions.quiet_block, Sessions.failed, bind. apply quiet_same; reflexivity. Qed.

Lemma post_connected_quiet ex s :
  Sessions.quiet_block (Sessions.post_connected ex) s.
Proof. unfold Sessions.quiet_block, Sessions.post_connected. apply quiet_same; reflexivity. Qed.

(** The effect of the two release paths on the maps. *)
Lemma expire_effect close_does sid t s :
  exists s', Sessions.expire close_does sid t s = (Returned tt, s')
    /\ Sessions.sessions s' = delete sid (Sessions.sessions s)
    /\ Sessions.sessionTimers s' = delete sid (Sessions.sessionTimers s)
    /\ Sessions.timeouts s' = Sessions.timeouts s
    /\ Sessions.now s' = Sessions.now s
    /\ Sessions.issued s' = Sessions.issued s
    /\ (forall t', Sessions.sessionIdOf t' s' = Sessions.sessionIdOf t' s).
Proof.
  unfold Sessions.expire, bind at 1.
  destruct (swallowed_close close_does t s) as [s1 [-> Hs1]].
  unfold bind, modify, Sessions.console_log. eexists. split; [reflexivity|].
  destruct Hs1 as [->|[->|[tr [Htr ->]]]]; simpl; repeat split; try reflexivity.
  intros t'. unfold Sessions.sessionIdOf. simpl.
  destruct (decide (t' = t)) as [->|Hne].
  - rewrite lookup_insert_eq, Htr. reflexivity.
  - rewrite lookup_insert_ne by congruence. reflexivity.
Qed.

Lemma session_onclose_effect close_does t s :
  exists s', Sessions.session_onclose close_does t s = (Returned tt, s')
    /\ Sessions.now s' = Sessions.now s
    /\ Sessions.issued s' = Sessions.issued s
    /\ (forall t', Sessions.sessionIdOf t' s' = Sessions.sessionIdOf t' s)
    /\ (forall h tm, Sessions.timeouts s' !! h = Some tm -> Sessions.timeouts s !! h = Some tm)
    /\ if Js.truthy_str (Sessions.sessionIdOf t s)
       then Sessions.sessions s' = delete (default "" (Sessions.sessionIdOf t s)) (Sessions.sessions s)
            /\ Sessions.sessionTimers s'
               = delete (default "" (Sessions.sessionIdOf t s)) (Sessions.sessionTimers s)
       else s' = s.
Proof.
  unfold Sessions.session_onclose, bind at 1, gets at 1.
  destruct (Js.truthy_str (Sessions.sessionIdOf t s)) eqn:Htruthy;
    [|exists s; repeat split; auto].
  set (sid := default "" (Sessions.sessionIdOf t s)).
  unfold bind at 1, gets at 1. unfold bind at 1.
  set (s1 := snd (when_some (Sessions.sessionTimers s !! sid) Sessions.clearTimeout s)).
  assert (Hw : when_some (Sessions.sessionTimers s !! sid) Sessions.clearTimeout s
               = (Returned tt, s1)).
  { subst s1. destruct (Sessions.sessionTimers s !! sid); reflexivity. }
  rewrite Hw.
  assert (Hs1 : Sessions.sessions s1 = Sessions.sessions s
                /\ Sessions.sessionTimers s1 = Sessions.sessionTimers s
                /\ Sessions.now s1 = Sessions.now s
                /\ Sessions.issued s1 = Sessions.issued s
                /\ Sessions.transports s1 = Sessions.transports s
                /\ (forall h tm, Sessions.timeouts s1 !! h = Some tm ->
                      Sessions.timeouts s !! h = Some tm)).
  { subst s1. destruct (Sessions.sessionTimers s !! sid) as [old|]; simpl;
      repeat split; auto.
    intros h tm Hl. destruct (decide (h = old)) as [->|Hne].
    - rewrite lookup_delete_eq in Hl. discriminate.
    - rewrite lookup_delete_ne in Hl by congruence. exact Hl. }
  destruct Hs1 as (E1 & E2 & E3 & E4 & E5 & E6).
  unfold bind at 1, modify at 1. unfold bind at 1, modify at 1. unfold bind at 1.
  destruct (swallowed_close close_does t
              (Sessions.set_sessions (delete sid) (Sessions.set_sessionTimers (delete sid) s1)))
    as [s' [-> Hs']].
  unfold Sessions.console_log, modify. eexists. split; [reflexivity|].
  destruct Hs' as [->|[->|[tr [Htr ->]]]]; simpl; rewrite ?E1, ?E2, ?E3, ?E4;
    repeat split; auto.
  - intros t'. unfold Sessions.sessionIdOf. simpl. rewrite E5. reflexivity.
  - intros t'. unfold Sessions.sessionIdOf. simpl. rewrite E5. reflexivity.
  - intros t'. unfold Sessions.sessionIdOf. simpl in *. rewrite E5 in *.
    destruct (decide (t' = t)) as [->|Hne].
    + rewrite lookup_insert_eq, Htr. reflexivity.
    + rewrite lookup_insert_ne by congruence. reflexivity.
Qed.

Lemma expire_releases close_does sid t tr s :
  Sessions.transports s !! t = Some tr ->
  exists s', Sessions.expire close_does sid t s = (Returned tt, s')
    /\ Sessions.sessions s' = delete sid (Sessions.sessions s)
    /\ Sessions.sessionTimers s' = delete sid (Sessions.sessionTimers s)
    /\ Sessions.timeouts s' = Sessions.timeouts s
    /\ Sessions.transports s' = close_mark (close_does tr) t tr (Sessions.transports s)
    /\ Sessions.log s'
       = (Sessions.log s ++ close_note (close_does tr) ++ [Sessions.SessionExpired sid])%list.
Proof.
  intros Ht.
  unfold Sessions.expire, bind, try_catch, Sessions.transport_close, modify,
    Sessions.console_log, ret.
  rewrite Ht. destruct (close_does tr); simpl; eexists; (split; [reflexivity|]); simpl;
    rewrite <- ?app_assoc; repeat split; reflexivity.
Qed.

Lemma session_onclose_releases close_does sid t tr s :
  Sessions.transports s !! t = Some tr ->
  Sessions.sessionId tr = Some sid -> sid <> "" ->
  exists s', Sessions.session_onclose close_does t s = (Returned tt, s')
    /\ Sessions.sessions s' = delete sid (Sessions.sessions s)
    /\ Sessions.sessionTimers s' = delete sid (Sessions.sessionTimers s)
    /\ Sessions.timeouts s'
       = match Sessions.sessionTimers s !! sid with
         | Some h => delete h (Sessions.timeouts s)
         | None => Sessions.timeouts s
         end
    /\ Sessions.transports s' = close_mark (close_does tr) t tr (Sessions.transports s)
    /\ Sessions.inflight s' = Sessions.inflight s
    /\ Sessions.log s'
       = (Sessions.log s ++ close_note (close_does tr) ++ [Sessions.SessionClosed sid])%list.
Proof.
  intros Ht Hid Hne.
  assert (Htr : Js.truthy_str (Some sid) = true) by (apply truthy_str_Some; eauto).
  unfold Sessions.session_onclose, bind at 1, gets at 1.
  unfold Sessions.sessionIdOf at 1. rewrite Ht, Hid, Htr.
  unfold Sessions.sessionIdOf. rewrite Ht, Hid. simpl default.
  unfold bind, gets, when_some, try_catch, Sessions.transport_close, Sessions.clearTimeout,
    modify, Sessions.console_log, ret.
  destruct (Sessions.sessionTimers s !! sid) as [h|]; simpl; rewrite Ht;
    destruct (close_does tr); simpl; eexists; (split; [reflexivity|]); simpl;
    rewrite <- ?app_assoc; repeat split; reflexivity.
Qed.

Lemma initialize_state t tr uuid s :
  Sessions.exec (bind (Sessions.sdk_initialize t tr uuid)
                   (fun _ => Sessions.onsessioninitialized t uuid)) s
  = Sessions.add_log (Sessions.SessionInitialized uuid)
      (Sessions.exec (Sessions.touchSession (Some uuid) t)
         (Sessions.set_sessions <[uuid := t]>
            (Sessions.set_transports
               <[t := {| Sessions.sessionId := Some uuid;
                         Sessions.closed := Sessions.closed tr |}]>
               (Sessions.nextTransport s) s))).
Proof.
  unfold Sessions.exec, bind at 1, Sessions.sdk_initialize.
  unfold Sessions.onsessioninitialized, bind at 1, modify at 1. unfold bind at 1.
  destruct (touch_step (Some uuid) t
              (Sessions.set_sessions <[uuid:=t]>
                 (Sessions.set_transports
                    <[t := {| Sessions.sessionId := Some uuid;
                              Sessions.closed := Sessions.closed tr |}]>
                    (Sessions.nextTransport s) s))) as [s' [-> ->]].
  reflexivity.
Qed.

Section StepEffects.

Variable API_KEY : option string.
Variable FORCE_JSON : bool.
Variable close_does : Sessions.Transport -> Sessions.Closing.

Lemma step_effect ev s s' :
  Sessions.step API_KEY FORCE_JSON close_does ev s = Some s' ->
  Sessions.now s <= Sessions.now s'
  /\ Sessions.issued s ⊆ Sessions.issued s'
  /\ (forall t tm, Sessions.timeouts s' !! t = Some tm ->
        Sessions.timeouts s !! t = Some tm
        \/ Sessions.deadline tm = Sessions.now s + Sessions.TTL_MS)
  /\ (forall k t, Sessions.sessions s !! k = Some t ->
        Sessions.sessions s' !! k = Some t
        \/ (Sessions.sessions s' !! k = None /\
            exists h tm, ev = Sessions.Fire h /\ Sessions.timeouts s !! h = Some tm
                         /\ Sessions.timer_sessionId tm = k
                         /\ Sessions.deadline tm <= Sessions.now s)
        \/ (Sessions.sessions s' !! k = None /\ Sessions.closes_session k ev s = true)
        \/ (exists rid, ev = Sessions.SdkInitialize rid k /\ (k ∉ Sessions.issued s)
                        /\ is_Some (Sessions.sessions s' !! k))).
Proof.
  assert (Hquiet : forall rid req block,
            Sessions.quiet_block block s -> s' = Sessions.file rid req block s ->
            Sessions.now s <= Sessions.now s'
            /\ Sessions.issued s ⊆ Sessions.issued s'
            /\ (forall t tm, Sessions.timeouts s' !! t = Some tm ->
                  Sessions.timeouts s !! t = Some tm
                  \/ Sessions.deadline tm = Sessions.now s + Sessions.TTL_MS)
            /\ (forall k t, Sessions.sessions s !! k = Some t ->
                  Sessions.sessions s' !! k = Some t
                  \/ (Sessions.sessions s' !! k = None /\
                      exists h tm, ev = Sessions.Fire h /\ Sessions.timeouts s !! h = Some tm
                                   /\ Sessions.timer_sessionId tm = k
                                   /\ Sessions.deadline tm <= Sessions.now s)
                  \/ (Sessions.sessions s' !! k = None
                      /\ Sessions.closes_session k ev s = true)
                  \/ (exists rid, ev = Sessions.SdkInitialize rid k /\ (k ∉ Sessions.issued s)
                                  /\ is_Some (Sessions.sessions s' !! k)))).
  { intros rid req block Hb ->. destruct (file_quiet rid req block s Hb) as [[N U T] Hs].
    repeat split; [lia | exact U | exact T |]. intros k t Hk. left. rewrite Hs. exact Hk. }
  intros Hstep. destruct ev as [dt|h|rid req|rid|rid e|rid uuid|rid|rid e|rid];
    simpl in Hstep.
  - destruct (0 <=? dt) eqn:Hdt; [|discriminate]. injection Hstep as <-.
    apply Z.leb_le in Hdt. simpl. repeat split; auto; lia.
  - destruct (Sessions.timeouts s !! h) as [tm|] eqn:Ht; [|discriminate].
    destruct (Sessions.deadline tm <=? Sessions.now s) eqn:Hd; [|discriminate].
    injection Hstep as <-. apply Z.leb_le in Hd. unfold Sessions.exec.
    destruct (expire_effect close_does (Sessions.timer_sessionId tm)
                (Sessions.timer_transport tm)
                (Sessions.set_timeouts (delete h) (Sessions.nextTimer s) s))
      as (s1 & -> & Es & _ & Et & En & Ei & _).
    simpl in *. rewrite En, Ei, Et. split; [lia|]. split; [done|]. split.
    + intros t tm' Hl. left. destruct (decide (t = h)) as [->|Hne].
      * rewrite lookup_delete_eq in Hl. discriminate.
      * rewrite lookup_delete_ne in Hl by congruence. exact Hl.
    + intros k t Hk. rewrite Es.
      destruct (decide (k = Sessions.timer_sessionId tm)) as [->|Hne].
      * right. left. rewrite lookup_delete_eq. split; [reflexivity|]. exists h, tm. auto.
      * left. rewrite lookup_delete_ne by congruence. exact Hk.
  - destruct (Sessions.inflight s !! rid); [discriminate|].
    destruct (Router.requireKey API_KEY req).
    + destruct (Router.method req); try discriminate; injection Hstep as <-;
        (eapply Hquiet; [|reflexivity]); auto using post_begin_quiet, session_begin_quiet.
    + injection Hstep as <-. simpl. repeat split; auto; lia.
  - destruct (Sessions.inflight s !! rid) as [ex|]; [|discriminate].
    destruct (Sessions.ex_phase ex); try discriminate. injection Hstep as <-.
    (eapply Hquiet; [|reflexivity]); apply post_connected_quiet.
  - destruct (Sessions.inflight s !! rid) as [ex|]; [|discriminate].
    destruct (Sessions.ex_phase ex); try discriminate. injection Hstep as <-.
    (eapply Hquiet; [|reflexivity]); apply failed_quiet.
  - destruct (Sessions.inflight s !! rid) as [ex|]; [|discriminate].
    destruct (Sessions.ex_phase ex); try discriminate.
    destruct (Router.method (Sessions.ex_request ex)); try discriminate.
    destruct (Sessions.ex_transport ex) as [t|]; [|discriminate].
    destruct (Sessions.transports s !! t) as [tr|] eqn:Ht; [|discriminate].
    destruct (Sessions.sessionId tr) eqn:Hid; [discriminate|].
    destruct (_ && _) eqn:Hc; [|discriminate]. injection Hstep as <-.
    apply andb_true_iff in Hc as [_ Hfresh]. apply bool_decide_eq_true in Hfresh.
    rewrite initialize_state.
    match goal with |- context [Sessions.exec (Sessions.touchSession ?o ?t) ?s0] =>
      pose proof (touchSession_Steady o t s0) as [N U T];
      pose proof (touchSession_sessions o t s0) as Hs end.
    simpl in *. rewrite N.
    repeat split; [lia | etrans; [apply union_subseteq_r | exact U] | exact T |].
    intros k t0 Hk. rewrite Hs. destruct (decide (k = uuid)) as [->|Hne].
    + right. right. right. exists rid. rewrite lookup_insert_eq. eauto.
    + left. rewrite lookup_insert_ne by congruence. exact Hk.
  - destruct (Sessions.inflight s !! rid) as [ex|]; [|discriminate].
    destruct (Sessions.ex_phase ex); try discriminate.
    destruct (Router.method (Sessions.ex_request ex)); injection Hstep as <-;
      (eapply Hquiet; [|reflexivity]); auto using post_handled_quiet, session_handled_quiet.
  - destruct (Sessions.inflight s !! rid) as [ex|]; [|discriminate].
    destruct (Sessions.ex_phase ex); try discriminate. injection Hstep as <-.
    (eapply Hquiet; [|reflexivity]); apply failed_quiet.
  - destruct (Sessions.inflight s !! rid) as [ex|] eqn:Hex; [|discriminate].
    destruct (Sessions.ex_onclose ex); [|discriminate].
    destruct (Sessions.ex_transport ex) as [t|] eqn:Hext; [|discriminate].
    injection Hstep as <-.
    destruct (Router.method (Sessions.ex_request ex)) eqn:Hm;
      try (unfold Sessions.exec;
           destruct (session_onclose_effect close_does t s)
             as (s1 & -> & En & Ei & _ & Et & Hcase);
           simpl; rewrite En, Ei; repeat split; [lia | done | eauto |];
           intros k t0 Hk; rewrite Hex, Hm, Hext;
           destruct (Js.truthy_str (Sessions.sessionIdOf t s)) eqn:Htr;
           [ destruct Hcase as [Es _]; rewrite Es;
             apply truthy_str_Some in Htr as [sid [Hsid Hne]]; rewrite Hsid; simpl;
             destruct (decide (k = sid)) as [->|Hk'];
             [ right; right; left; rewrite lookup_delete_eq;
               split; [reflexivity | apply bool_decide_eq_true; reflexivity]
             | left; rewrite lookup_delete_ne by congruence; exact Hk ]
           | subst s1; left; exact Hk ]).
    unfold Sessions.exec, Sessions.post_onclose, bind, gets.
    destruct (Js.truthy_str _); simpl; repeat split; auto; lia.
Qed.

End StepEffects.

(** C3: in every state the handlers can reach, touching a session whose id
    is not falsy returns normally, removes the timeout registered for that
    id, and arms and registers a new timeout due exactly [TTL_MS] = 600000 ms
    after the touch; afterwards it is the only timeout armed for the id.  A timeout cannot run while the
    clock is below its due time and is gone once it has run.  With a falsy
    id (undefined or the empty string) [touchSession] changes nothing. *)
Theorem touchSession_rearms
    (API_KEY : option string) (FORCE_JSON : bool) (close_does : Sessions.Transport -> Sessions.Closing)
    (s : Sessions.State) (sid : string) (transport : nat) :
  Sessions.reachable API_KEY FORCE_JSON close_does s ->
  sid <> "" ->
  exists s',
    Sessions.touchSession (Some sid) transport s = (Returned tt, s')
    /\ (forall old, Sessions.sessionTimers s !! sid = Some old ->
          Sessions.timeouts s' !! old = None)
    /\ Sessions.timeouts s !! Sessions.nextTimer s = None
    /\ Sessions.sessionTimers s' !! sid = Some (Sessions.nextTimer s)
    /\ Sessions.timeouts s' !! Sessions.nextTimer s
       = Some {| Sessions.deadline := Sessions.now s + 600000;
                 Sessions.timer_sessionId := sid;
                 Sessions.timer_transport := transport |}
    /\ (forall t tm, Sessions.timeouts s' !! t = Some tm ->
          Sessions.timer_sessionId tm = sid ->
          t = Sessions.nextTimer s /\ Sessions.deadline tm = Sessions.now s + 600000)
    /\ (forall s2 t tm, Sessions.timeouts s2 !! t = Some tm ->
          Sessions.now s2 < Sessions.deadline tm ->
          Sessions.step API_KEY FORCE_JSON close_does (Sessions.Fire t) s2 = None)
    /\ (forall s2 s3 t,
          Sessions.step API_KEY FORCE_JSON close_does (Sessions.Fire t) s2 = Some s3 ->
          Sessions.timeouts s3 !! t = None)
    /\ (forall falsy t0, Js.truthy_str falsy = false ->
          Sessions.touchSession falsy t0 s = (Returned tt, s)).
Proof.
  intros Hreach Hne.
  destruct (reachable_Inv _ _ _ _ Hreach) as [I1 I2 I3 I4 I6 I5 I7].
  assert (Hfresh : Sessions.timeouts s !! Sessions.nextTimer s = None).
  { destruct (Sessions.timeouts s !! Sessions.nextTimer s) eqn:Hl; [|reflexivity].
    apply I4 in Hl. lia. }
  assert (Htr : Js.truthy_str (Some sid) = true) by (apply truthy_str_Some; eauto).
  assert (Hlate : forall s2 t tm, Sessions.timeouts s2 !! t = Some tm ->
            Sessions.now s2 < Sessions.deadline tm ->
            Sessions.step API_KEY FORCE_JSON close_does (Sessions.Fire t) s2 = None).
  { intros s2 t tm Hl Hlt. simpl. rewrite Hl.
    destruct (Sessions.deadline tm <=? Sessions.now s2) eqn:Hd; [|reflexivity].
    apply Z.leb_le in Hd. lia. }
  assert (Honce : forall s2 s3 t,
            Sessions.step API_KEY FORCE_JSON close_does (Sessions.Fire t) s2 = Some s3 ->
            Sessions.timeouts s3 !! t = None).
  { intros s2 s3 t Hstep. simpl in Hstep.
    destruct (Sessions.timeouts s2 !! t) as [tm|]; [|discriminate].
    destruct (Sessions.deadline tm <=? Sessions.now s2); [|discriminate].
    injection Hstep as <-. unfold Sessions.exec.
    destruct (expire_effect close_does (Sessions.timer_sessionId tm)
                (Sessions.timer_transport tm)
                (Sessions.set_timeouts (delete t) (Sessions.nextTimer s2) s2))
      as (s1 & -> & _ & _ & Et & _). simpl in *. rewrite Et. apply lookup_delete_eq. }
  unfold Sessions.touchSession at 1. rewrite Htr. simpl.
  unfold bind, gets, when_some, Sessions.clearTimeout, Sessions.setTimeout, modify.
  destruct (Sessions.sessionTimers s !! sid) as [old|] eqn:Hold; simpl;
    eexists; (split; [reflexivity|]); simpl;
    (split; [|split; [exact Hfresh|split; [apply lookup_insert_eq|
       split; [rewrite lookup_insert_eq; reflexivity|
       split; [|split; [exact Hlate|split; [exact Honce|
         intros; apply touchSession_falsy; assumption]]]]]]]).
  - intros old' [= <-]. apply I6 in Hold.
    rewrite lookup_insert_ne by lia. apply lookup_delete_eq.
  - intros t tm Hl Hs. destruct (decide (t = Sessions.nextTimer s)) as [->|Hnt].
    + rewrite lookup_insert_eq in Hl. injection Hl as <-. auto.
    + rewrite lookup_insert_ne in Hl by congruence.
      destruct (decide (t = old)) as [->|Hno]; [rewrite lookup_delete_eq in Hl; discriminate|].
      rewrite lookup_delete_ne in Hl by congruence.
      apply I1 in Hl. rewrite Hs, Hold in Hl. congruence.
  - discriminate.
  - intros t tm Hl Hs. destruct (decide (t = Sessions.nextTimer s)) as [->|Hnt].
    + rewrite lookup_insert_eq in Hl. injection Hl as <-. auto.
    + rewrite lookup_insert_ne in Hl by congruence.
      apply I1 in Hl. rewrite Hs, Hold in Hl. discriminate.
Qed.

Lemma touchSession_rearms_witness :
  Sessions.reachable (Some "k") false throws_when_closed (after open_session)
  /\ exists s',
       Sessions.touchSession (Some "s1") 0 (after open_session) = (Returned tt, s')
       /\ Sessions.timeouts s' !! 1%nat = None
       /\ Sessions.sessionTimers s' !! "s1" = Some 2%nat
       /\ Sessions.timeouts s' !! 2%nat
          = Some {| Sessions.deadline := 601000; Sessions.timer_sessionId := "s1";
                    Sessions.timer_transport := 0 |}.
Proof.
  assert (HI : Sessions.reachable (Some "k") false throws_when_closed (after open_session)).
  { exists open_session. vm_compute. reflexivity. }
  split; [exact HI|].
  destruct (touchSession_rearms (Some "k") false throws_when_closed
              (after open_session) "s1" 0 HI ltac:(discriminate))
    as (s' & Hrun & Hold & _ & Hreg & Harm & _).
  exists s'. split; [exact Hrun|]. split; [apply Hold; vm_compute; reflexivity|].
  split; [exact Hreg | exact Harm].
Defined.

(** C5: both release paths, the timeout callback and the close listener of
    [handleSessionReq], return normally however [transport.close()] ends;
    afterwards neither [sessions] nor [sessionTimers] has an entry for the
    id, whether or not there was one before; and running the same path again
    returns normally and leaves both maps without the entry.  A call of
    [close()] that throws is caught and leaves no trace: the state is as it
    was, and the path logs its one line.  A call that hands back a rejecting
    promise is not caught: the guarded call ends like the unguarded one,
    normally, and the rejection stays with the runtime, unhandled, on either
    path. *)
Theorem release_is_idempotent
    (close_does : Sessions.Transport -> Sessions.Closing) (s : Sessions.State)
    (sid : string) (transport : nat) :
  (exists s1 s2,
     Sessions.expire close_does sid transport s = (Returned tt, s1)
     /\ Sessions.sessions s1 !! sid = None /\ Sessions.sessionTimers s1 !! sid = None
     /\ Sessions.expire close_does sid transport s1 = (Returned tt, s2)
     /\ Sessions.sessions s2 !! sid = None /\ Sessions.sessionTimers s2 !! sid = None)
  /\ (Sessions.sessionIdOf transport s = Some sid -> sid <> "" ->
      exists s1 s2,
        Sessions.session_onclose close_does transport s = (Returned tt, s1)
        /\ Sessions.sessions s1 !! sid = None /\ Sessions.sessionTimers s1 !! sid = None
        /\ Sessions.session_onclose close_does transport s1 = (Returned tt, s2)
        /\ Sessions.sessions s2 !! sid = None /\ Sessions.sessionTimers s2 !! sid = None)
  /\ (forall tr, Sessions.transports s !! transport = Some tr ->
        close_does tr = Sessions.Throws ->
        try_catch (Sessions.transport_close close_does transport) (fun _ => ret tt) s
          = (Returned tt, s)
        /\ Sessions.log (Sessions.exec (Sessions.expire close_does sid transport) s)
           = (Sessions.log s ++ [Sessions.SessionExpired sid])%list
        /\ (Sessions.sessionId tr = Some sid -> sid <> "" ->
            Sessions.log (Sessions.exec (Sessions.session_onclose close_does transport) s)
            = (Sessions.log s ++ [Sessions.SessionClosed sid])%list))
  /\ (forall tr, Sessions.transports s !! transport = Some tr ->
        close_does tr = Sessions.Rejects ->
        try_catch (Sessions.transport_close close_does transport) (fun _ => ret tt) s
          = Sessions.transport_close close_does transport s
        /\ Sessions.transport_close close_does transport s
           = (Returned tt, Sessions.add_log (Sessions.UnhandledRejection "close failed") s)
        /\ Sessions.log (Sessions.exec (Sessions.expire close_does sid transport) s)
           = (Sessions.log s
              ++ [Sessions.UnhandledRejection "close failed"; Sessions.SessionExpired sid])%list
        /\ (Sessions.sessionId tr = Some sid -> sid <> "" ->
            Sessions.log (Sessions.exec (Sessions.session_onclose close_does transport) s)
            = (Sessions.log s
               ++ [Sessions.UnhandledRejection "close failed";
                   Sessions.SessionClosed sid])%list)).
Proof.
  repeat apply conj.
  - destruct (expire_effect close_does sid transport s) as (s1 & H1 & Es1 & Et1 & _).
    destruct (expire_effect close_does sid transport s1) as (s2 & H2 & Es2 & Et2 & _).
    exists s1, s2. rewrite Es2, Et2, Es1, Et1, !lookup_delete_eq.
    repeat split; assumption.
  - intros Hid Hne.
    assert (Htr : Js.truthy_str (Some sid) = true) by (apply truthy_str_Some; eauto).
    destruct (session_onclose_effect close_does transport s)
      as (s1 & H1 & _ & _ & Hid1 & _ & Hc1).
    destruct (session_onclose_effect close_does transport s1)
      as (s2 & H2 & _ & _ & _ & _ & Hc2).
    rewrite Hid1, Hid, Htr in Hc2. rewrite Hid, Htr in Hc1. simpl in Hc1, Hc2.
    destruct Hc1 as [Es1 Et1]. destruct Hc2 as [Es2 Et2].
    exists s1, s2. rewrite Es2, Et2, Es1, Et1, !lookup_delete_eq.
    repeat split; assumption.
  - intros tr Ht Hc. split; [|split].
    + unfold try_catch, Sessions.transport_close. rewrite Ht, Hc. reflexivity.
    + destruct (expire_releases close_does sid transport tr s Ht) as (s1 & E & _ & _ & _ & _ & L).
      unfold Sessions.exec. rewrite E, Hc in *. exact L.
    + intros Hid Hne.
      destruct (session_onclose_releases close_does sid transport tr s Ht Hid Hne)
        as (s1 & E & _ & _ & _ & _ & _ & L).
      unfold Sessions.exec. rewrite E, Hc in *. exact L.
  - intros tr Ht Hc. split; [|split; [|split]].
    + unfold try_catch, Sessions.transport_close. rewrite Ht, Hc. reflexivity.
    + unfold Sessions.transport_close. rewrite Ht, Hc. reflexivity.
    + destruct (expire_releases close_does sid transport tr s Ht) as (s1 & E & _ & _ & _ & _ & L).
      unfold Sessions.exec. rewrite E, Hc in *. exact L.
    + intros Hid Hne.
      destruct (session_onclose_releases close_does sid transport tr s Ht Hid Hne)
        as (s1 & E & _ & _ & _ & _ & _ & L).
      unfold Sessions.exec. rewrite E, Hc in *. exact L.
Qed.

Lemma release_is_idempotent_witness :
  Sessions.transports (after delete_served) !! 0%nat
    = Some {| Sessions.sessionId := Some "s1"; Sessions.closed := true |}
  /\ Sessions.log (Sessions.exec (Sessions.session_onclose rejects_when_closed 0)
                     (after delete_served))
     = (Sessions.log (after delete_served)
        ++ [Sessions.UnhandledRejection "close failed"; Sessions.SessionClosed "s1"])%list
  /\ exists s1 s2,
       Sessions.session_onclose rejects_when_closed 0 (after delete_served) = (Returned tt, s1)
       /\ Sessions.sessions s1 !! "s1" = None /\ Sessions.sessionTimers s1 !! "s1" = None
       /\ Sessions.session_onclose rejects_when_closed 0 s1 = (Returned tt, s2)
       /\ Sessions.sessions s2 !! "s1" = None /\ Sessions.sessionTimers s2 !! "s1" = None.
Proof.
  destruct (release_is_idempotent rejects_when_closed (after delete_served) "s1" 0)
    as (_ & Hclose & _ & Hrejects).
  split; [vm_compute; reflexivity|]. split.
  - apply (Hrejects {| Sessions.sessionId := Some "s1"; Sessions.closed := true |});
      [vm_compute; reflexivity | reflexivity | reflexivity | discriminate].
  - apply Hclose; [vm_compute; reflexivity | discriminate].
Defined.

Lemma ensureAccept_keeps FORCE_JSON req :
  Router.mcp_session_id (Sessions.ensureAccept FORCE_JSON req) = Router.mcp_session_id req
  /\ Router.body_is_initialize (Sessions.ensureAccept FORCE_JSON req)
     = Router.body_is_initialize req
  /\ Router.method (Sessions.ensureAccept FORCE_JSON req) = Router.method req.
Proof.
  unfold Sessions.ensureAccept. destruct FORCE_JSON; [repeat split|].
  destruct (_ || _); repeat split.
Qed.

Lemma headerId_is_header req : Sessions.headerId req = Router.mcp_session_id req.
Proof. unfold Sessions.headerId. destruct (Js.truthy_str _); reflexivity. Qed.

Lemma post_begin_refuses FORCE_JSON req s :
  Router.body_is_initialize req = false ->
  (Js.truthy_str (Router.mcp_session_id req) = false
   \/ Sessions.sessions s !! default "" (Router.mcp_session_id req) = None) ->
  Sessions.post_begin FORCE_JSON req s =
    (Returned (Sessions.answered (Sessions.ensureAccept FORCE_JSON req) 400
                 (Router.JsonRpcError (-32000)
                    "Bad Request: No valid session ID provided (missing initialize)")), s).
Proof.
  intros Hinit Hsession.
  destruct (ensureAccept_keeps FORCE_JSON req) as (Eh & Ei & _).
  unfold Sessions.post_begin, try_catch, bind, Sessions.sessionFor.
  rewrite !headerId_is_header, Eh, Ei, Hinit.
  destruct (Js.truthy_str (Router.mcp_session_id req)) eqn:Ht.
  - destruct Hsession as [Hf|Hnone]; [discriminate|].
    unfold gets. rewrite Hnone. reflexivity.
  - reflexivity.
Qed.

Lemma requireKey_verdict API_KEY req :
  Router.requireKey API_KEY req = Router.Next
  \/ Router.requireKey API_KEY req = Router.Respond 401 (Router.Text "unauthorized").
Proof.
  unfold Router.requireKey. destruct (Router.Method_eqb _ _); [left; reflexivity|].
  destruct (_ && _); [left|right]; reflexivity.
Qed.

(** C6, as stated, fails: a POST with the right key, no session header and
    a body that is no initialize message is answered 500 'mcp error' when
    the protocol library could not be loaded, and 500 'Something went
    wrong!' when its body is JSON the parser cannot read. *)
Lemma post_without_session_answered_500 :
  Router.requireKey (Some "k") (request Router.POST None false) = Router.Next
  /\ Router.mcp_session_id (request Router.POST None false) = None
  /\ Router.body_is_initialize (request Router.POST None false) = false
  /\ Sessions.ex_response
       (fst (PostRoute.post_mcp (Some "k") false (Returned tt) (Thrown "Cannot find package")
               (request Router.POST None false) (None, Sessions.initial)))
     = Some (500, Router.JsonError "mcp error" "Cannot find package")
  /\ Sessions.ex_response
       (fst (PostRoute.post_mcp (Some "k") false (Thrown "Unexpected end of JSON input")
               (Returned tt) (request Router.POST None false)
               (Some (Returned tt), after open_session)))
     = Some (500, Router.JsonError "Something went wrong!" "Unexpected end of JSON input").
Proof. vm_compute. repeat split. Qed.

(** C6 (amended): take a POST whose session header is absent, empty or names
    no live session and whose body is not an initialize message.  When the
    body parser accepts the body, the key check passes and the protocol
    library has loaded, it is answered at once with status 400 and the
    JSON-RPC error envelope (code -32000, 'Bad Request: No valid session ID
    provided (missing initialize)'), and nothing but the record of the
    exchange changes.  It is answered with a 500 in exactly two cases: the
    body parser rejects the body, which the error middleware answers with
    'Something went wrong!' before the key check is reached; or the key
    check passes and loading the protocol library has failed, which the
    handler's catch answers with 'mcp error'.  A request that fails the key
    check is answered 401.  In every case the session maps, the timeouts
    and the transports stay as they were. *)
Theorem post_without_session_is_refused
    (API_KEY : option string) (FORCE_JSON : bool)
    (close_does : Sessions.Transport -> Sessions.Closing)
    (parse load : Outcome unit) (p : Init.Promise)
    (s : Sessions.State) (rid : nat) (req : Router.Request) :
  Router.method req = Router.POST ->
  Router.body_is_initialize req = false ->
  (Js.truthy_str (Router.mcp_session_id req) = false
   \/ Sessions.sessions s !! default "" (Router.mcp_session_id req) = None) ->
  (parse = Returned tt -> Router.requireKey API_KEY req = Router.Next ->
   fst (Init.initMcpServer load p) = Returned tt ->
   fst (PostRoute.post_mcp API_KEY FORCE_JSON parse load req (p, s))
     = Sessions.answered (Sessions.ensureAccept FORCE_JSON req) 400
         (Router.JsonRpcError (-32000)
            "Bad Request: No valid session ID provided (missing initialize)")
   /\ snd (snd (PostRoute.post_mcp API_KEY FORCE_JSON parse load req (p, s))) = s)
  /\ ((exists body,
         Sessions.ex_response (fst (PostRoute.post_mcp API_KEY FORCE_JSON parse load req (p, s)))
         = Some (500, body))
      <-> ((exists e, parse = Thrown e)
           \/ (parse = Returned tt /\ Router.requireKey API_KEY req = Router.Next
               /\ exists e, fst (Init.initMcpServer load p) = Thrown e)))
  /\ (forall e, parse = Thrown e ->
        PostRoute.post_mcp API_KEY FORCE_JSON parse load req (p, s)
        = (Sessions.answered req 500 (Router.JsonError "Something went wrong!" e), (p, s)))
  /\ (forall e, parse = Returned tt -> Router.requireKey API_KEY req = Router.Next ->
        fst (Init.initMcpServer load p) = Thrown e ->
        Sessions.ex_response (fst (PostRoute.post_mcp API_KEY FORCE_JSON parse load req (p, s)))
        = Some (500, Router.JsonError "mcp error" e))
  /\ (parse = Returned tt -> Router.requireKey API_KEY req <> Router.Next ->
        PostRoute.post_mcp API_KEY FORCE_JSON parse load req (p, s)
        = (Sessions.answered req 401 (Router.Text "unauthorized"), (p, s)))
  /\ (Sessions.sessions (snd (snd (PostRoute.post_mcp API_KEY FORCE_JSON parse load req (p, s))))
        = Sessions.sessions s
      /\ Sessions.sessionTimers
           (snd (snd (PostRoute.post_mcp API_KEY FORCE_JSON parse load req (p, s))))
         = Sessions.sessionTimers s
      /\ Sessions.timeouts (snd (snd (PostRoute.post_mcp API_KEY FORCE_JSON parse load req (p, s))))
         = Sessions.timeouts s
      /\ Sessions.transports
           (snd (snd (PostRoute.post_mcp API_KEY FORCE_JSON parse load req (p, s))))
         = Sessions.transports s)
  /\ (Router.requireKey API_KEY req = Router.Next -> Sessions.inflight s !! rid = None ->
      Sessions.step API_KEY FORCE_JSON close_does (Sessions.Arrive rid req) s =
        Some (Sessions.set_inflight
                <[rid := Sessions.answered (Sessions.ensureAccept FORCE_JSON req) 400
                           (Router.JsonRpcError (-32000)
                              "Bad Request: No valid session ID provided (missing initialize)")]>
                s)).
Proof.
  intros Hm Hinit Hsession.
  pose proof (post_begin_refuses FORCE_JSON req s Hinit Hsession) as Hb.
  assert (Hloaded : fst (Init.initMcpServer load p) = Returned tt ->
            Init.post_entry FORCE_JSON load req (p, s)
            = (Sessions.answered (Sessions.ensureAccept FORCE_JSON req) 400
                 (Router.JsonRpcError (-32000)
                    "Bad Request: No valid session ID provided (missing initialize)"),
               (snd (Init.initMcpServer load p), s))).
  { intros Hl. unfold Init.post_entry. cbn [fst snd]. rewrite Hl, Hb. reflexivity. }
  assert (Hfailed : forall e, fst (Init.initMcpServer load p) = Thrown e ->
            Init.post_entry FORCE_JSON load req (p, s)
            = ({| Sessions.ex_request := req; Sessions.ex_transport := None;
                  Sessions.ex_phase := Sessions.Finished; Sessions.ex_onclose := false;
                  Sessions.ex_response := Some (500, Router.JsonError "mcp error" e) |},
               (snd (Init.initMcpServer load p),
                Sessions.add_log (Sessions.McpError (Router.method req) e) s))).
  { intros e Hl. unfold Init.post_entry. cbn [fst snd]. rewrite Hl. reflexivity. }
  repeat apply conj.
  - intros -> Hkey Hl. unfold PostRoute.post_mcp. rewrite Hkey, (Hloaded Hl). split; reflexivity.
  - intros [body Hr]. unfold PostRoute.post_mcp in Hr.
    destruct parse as [[]|e]; [|left; eauto].
    right. split; [reflexivity|].
    destruct (requireKey_verdict API_KEY req) as [Hkey|Hkey]; rewrite Hkey in Hr;
      [|discriminate].
    split; [exact Hkey|].
    destruct (fst (Init.initMcpServer load p)) as [[]|e] eqn:Hl; [|eauto].
    rewrite (Hloaded eq_refl) in Hr. discriminate.
  - intros [[e ->] | (-> & Hkey & e & Hl)]; unfold PostRoute.post_mcp.
    + eexists. reflexivity.
    + rewrite Hkey, (Hfailed e Hl). eexists. reflexivity.
  - intros e ->. reflexivity.
  - intros e -> Hkey Hl. unfold PostRoute.post_mcp. rewrite Hkey, (Hfailed e Hl). reflexivity.
  - intros -> Hkey. unfold PostRoute.post_mcp.
    destruct (requireKey_verdict API_KEY req) as [Hk|Hk]; [contradiction|].
    rewrite Hk. reflexivity.
  - unfold PostRoute.post_mcp. destruct parse as [[]|e]; [|reflexivity].
    destruct (requireKey_verdict API_KEY req) as [Hkey|Hkey]; rewrite Hkey; [|reflexivity].
    destruct (fst (Init.initMcpServer load p)) as [[]|e] eqn:Hl;
      [rewrite (Hloaded eq_refl) | rewrite (Hfailed e eq_refl)]; reflexivity.
  - unfold PostRoute.post_mcp. destruct parse as [[]|e]; [|reflexivity].
    destruct (requireKey_verdict API_KEY req) as [Hkey|Hkey]; rewrite Hkey; [|reflexivity].
    destruct (fst (Init.initMcpServer load p)) as [[]|e] eqn:Hl;
      [rewrite (Hloaded eq_refl) | rewrite (Hfailed e eq_refl)]; reflexivity.
  - unfold PostRoute.post_mcp. destruct parse as [[]|e]; [|reflexivity].
    destruct (requireKey_verdict API_KEY req) as [Hkey|Hkey]; rewrite Hkey; [|reflexivity].
    destruct (fst (Init.initMcpServer load p)) as [[]|e] eqn:Hl;
      [rewrite (Hloaded eq_refl) | rewrite (Hfailed e eq_refl)]; reflexivity.
  - unfold PostRoute.post_mcp. destruct parse as [[]|e]; [|reflexivity].
    destruct (requireKey_verdict API_KEY req) as [Hkey|Hkey]; rewrite Hkey; [|reflexivity].
    destruct (fst (Init.initMcpServer load p)) as [[]|e] eqn:Hl;
      [rewrite (Hloaded eq_refl) | rewrite (Hfailed e eq_refl)]; reflexivity.
  - intros Hkey Hrid. simpl. rewrite Hrid, Hkey, Hm. unfold Sessions.file. rewrite Hb.
    reflexivity.
Qed.

Lemma post_without_session_is_refused_witness :
  fst (PostRoute.post_mcp (Some "k") false (Returned tt) (Returned tt)
         (request Router.POST (Some "gone") false) (None, after open_session))
  = Sessions.answered
      (Sessions.ensureAccept false (request Router.POST (Some "gone") false)) 400
      (Router.JsonRpcError (-32000)
         "Bad Request: No valid session ID provided (missing initialize)")
  /\ Sessions.ex_response
       (fst (PostRoute.post_mcp (Some "k") false (Returned tt) (Returned tt)
               (request Router.POST (Some "gone") false)
               (Some (Thrown "Cannot find package"), after open_session)))
     = Some (500, Router.JsonError "mcp error" "Cannot find package")
  /\ demo_step (Sessions.Arrive 7 (request Router.POST (Some "gone") false))
               (after open_session)
     = Some (Sessions.set_inflight
               <[7%nat := Sessions.answered
                            (Sessions.ensureAccept false
                               (request Router.POST (Some "gone") false)) 400
                            (Router.JsonRpcError (-32000)
                               "Bad Request: No valid session ID provided (missing initialize)")]>
               (after open_session)).
Proof.
  assert (Hgone : Js.truthy_str (Router.mcp_session_id (request Router.POST (Some "gone") false))
                  = false
                  \/ Sessions.sessions (after open_session)
                       !! default "" (Router.mcp_session_id
                                        (request Router.POST (Some "gone") false)) = None)
    by (right; vm_compute; reflexivity).
  split; [|split].
  - apply (post_without_session_is_refused (Some "k") false throws_when_closed
             (Returned tt) (Returned tt) None (after open_session) 7
             (request Router.POST (Some "gone") false) eq_refl eq_refl Hgone);
      reflexivity.
  - apply (post_without_session_is_refused (Some "k") false throws_when_closed
             (Returned tt) (Returned tt) (Some (Thrown "Cannot find package"))
             (after open_session) 7
             (request Router.POST (Some "gone") false) eq_refl eq_refl Hgone);
      reflexivity.
  - apply (post_without_session_is_refused (Some "k") false throws_when_closed
             (Returned tt) (Returned tt) None (after open_session) 7
             (request Router.POST (Some "gone") false) eq_refl eq_refl Hgone);
      [reflexivity | vm_compute; reflexivity].
Defined.

Lemma closes_session_true sid ev s :
  Sessions.closes_session sid ev s = true ->
  exists rid ex t,
    ev = Sessions.Closed rid /\ Sessions.inflight s !! rid = Some ex
    /\ Router.method (Sessions.ex_request ex) <> Router.POST
    /\ Sessions.ex_transport ex = Some t /\ Sessions.sessionIdOf t s = Some sid.
Proof.
  destruct ev as [dt|h|rid req|rid|rid e|rid uuid|rid|rid e|rid]; simpl; try discriminate.
  destruct (Sessions.inflight s !! rid) as [ex|] eqn:Hex; [|discriminate].
  destruct (Router.method (Sessions.ex_request ex)) eqn:Hm; try discriminate;
    (destruct (Sessions.ex_transport ex) as [t|] eqn:Ht; [|discriminate]);
    intros Hd; apply bool_decide_eq_true in Hd;
    exists rid, ex, t; rewrite Hm; repeat split; auto; discriminate.
Qed.

(** C1, as stated, fails: the client opens a GET stream on its session and
    then merely closes that connection, well inside the TTL and without any
    DELETE; the close listener of the GET releases the session. *)
Lemma get_close_releases_session :
  demo_run stream_open Sessions.initial = Some (after stream_open)
  /\ Sessions.lookup "s1" (after stream_open) = Some 0%nat
  /\ Sessions.sessionTimers (after stream_open) !! "s1" = Some 2%nat
  /\ demo_step (Sessions.Closed 1) (after stream_open)
     = Some (after (stream_open ++ [Sessions.Closed 1]))
  /\ Sessions.lookup "s1" (after (stream_open ++ [Sessions.Closed 1])) = None
  /\ Sessions.sessionTimers (after (stream_open ++ [Sessions.Closed 1])) !! "s1" = None
  /\ Sessions.timeouts (after (stream_open ++ [Sessions.Closed 1])) !! 2%nat = None
  /\ Sessions.transports (after (stream_open ++ [Sessions.Closed 1])) !! 0%nat
     = Some {| Sessions.sessionId := Some "s1"; Sessions.closed := true |}
  /\ Sessions.now (after (stream_open ++ [Sessions.Closed 1])) = 1000.
Proof. vm_compute. repeat split. Qed.

(** The close of a GET, HEAD or DELETE response removes its session from both maps. *)
Lemma session_close_step API_KEY FORCE_JSON close_does s s' rid ex t sid :
  Sessions.step API_KEY FORCE_JSON close_does (Sessions.Closed rid) s = Some s' ->
  Sessions.inflight s !! rid = Some ex ->
  Router.method (Sessions.ex_request ex) <> Router.POST ->
  Sessions.ex_transport ex = Some t ->
  Sessions.sessionIdOf t s = Some sid -> sid <> "" ->
  Sessions.sessions s' !! sid = None /\ Sessions.sessionTimers s' !! sid = None.
Proof.
  intros Hstep Hex Hm Ht Hid Hne. simpl in Hstep. rewrite Hex, Ht in Hstep.
  destruct (Sessions.ex_onclose ex); [|discriminate].
  assert (Htr : Js.truthy_str (Some sid) = true) by (apply truthy_str_Some; eauto).
  destruct (session_onclose_effect close_does t s) as (s1 & Hrun & _ & _ & _ & _ & Hc).
  rewrite Hid, Htr in Hc. simpl in Hc. destruct Hc as [Es Et].
  destruct (Router.method (Sessions.ex_request ex)); try contradiction;
    injection Hstep as <-; unfold Sessions.exec; rewrite Hrun; simpl;
    rewrite Es, Et, !lookup_delete_eq; auto.
Qed.

(** C1 (amended): the close of a POST response changes neither map, no
    timeout and no transport; it only writes the log line.  An entry leaves
    [sessions] only when a due timeout for that id runs or when the response
    of a request served by [handleSessionReq] on that session closes, be it
    a GET, a HEAD or a DELETE.  The close of such a response removes the id
    from both maps, clears the timeout registered for it, calls [close()] on
    the transport, which is closed unless that call fails, and logs 'MCP
    session closed'; a due timeout that runs removes its id from both maps
    and calls [close()] on its transport likewise. *)
Theorem only_expiry_or_session_close_releases
    (API_KEY : option string) (FORCE_JSON : bool)
    (close_does : Sessions.Transport -> Sessions.Closing)
    (s s' : Sessions.State) (ev : Sessions.Event) :
  Sessions.step API_KEY FORCE_JSON close_does ev s = Some s' ->
  (forall rid ex, ev = Sessions.Closed rid -> Sessions.inflight s !! rid = Some ex ->
     Router.method (Sessions.ex_request ex) = Router.POST ->
     Sessions.sessions s' = Sessions.sessions s
     /\ Sessions.sessionTimers s' = Sessions.sessionTimers s
     /\ Sessions.timeouts s' = Sessions.timeouts s
     /\ Sessions.transports s' = Sessions.transports s
     /\ (Sessions.log s' = Sessions.log s
         \/ exists sid, Sessions.log s' = (Sessions.log s ++ [Sessions.PostClosed sid])%list))
  /\ (forall sid t, Sessions.sessions s !! sid = Some t -> Sessions.sessions s' !! sid = None ->
        (exists h tm, ev = Sessions.Fire h /\ Sessions.timeouts s !! h = Some tm
                      /\ Sessions.timer_sessionId tm = sid
                      /\ Sessions.deadline tm <= Sessions.now s)
        \/ (exists rid ex t',
              ev = Sessions.Closed rid /\ Sessions.inflight s !! rid = Some ex
              /\ Router.method (Sessions.ex_request ex) <> Router.POST
              /\ Sessions.ex_transport ex = Some t'
              /\ Sessions.sessionIdOf t' s = Some sid))
  /\ (forall rid ex t tr sid,
        ev = Sessions.Closed rid -> Sessions.inflight s !! rid = Some ex ->
        Router.method (Sessions.ex_request ex) <> Router.POST ->
        Sessions.ex_transport ex = Some t ->
        Sessions.transports s !! t = Some tr ->
        Sessions.sessionId tr = Some sid -> sid <> "" ->
        Sessions.sessions s' !! sid = None /\ Sessions.sessionTimers s' !! sid = None
        /\ (forall h, Sessions.sessionTimers s !! sid = Some h ->
              Sessions.timeouts s' !! h = None)
        /\ (close_does tr = Sessions.Closes ->
            Sessions.transports s' !! t
            = Some {| Sessions.sessionId := Some sid; Sessions.closed := true |})
        /\ (close_does tr <> Sessions.Closes ->
            Sessions.transports s' = Sessions.transports s)
        /\ last (Sessions.log s') = Some (Sessions.SessionClosed sid))
  /\ (forall h tm tr,
        ev = Sessions.Fire h -> Sessions.timeouts s !! h = Some tm ->
        Sessions.transports s !! Sessions.timer_transport tm = Some tr ->
        Sessions.sessions s' !! Sessions.timer_sessionId tm = None
        /\ Sessions.sessionTimers s' !! Sessions.timer_sessionId tm = None
        /\ Sessions.timeouts s' !! h = None
        /\ (close_does tr = Sessions.Closes ->
            Sessions.transports s' !! Sessions.timer_transport tm
            = Some {| Sessions.sessionId := Sessions.sessionId tr;
                      Sessions.closed := true |})
        /\ last (Sessions.log s')
           = Some (Sessions.SessionExpired (Sessions.timer_sessionId tm))).
Proof.
  intros Hstep. repeat apply conj.
  - intros rid ex -> Hex Hm. simpl in Hstep. rewrite Hex, Hm in Hstep.
    destruct (Sessions.ex_onclose ex); [|discriminate].
    destruct (Sessions.ex_transport ex) as [t|]; [|discriminate].
    injection Hstep as <-.
    unfold Sessions.exec, Sessions.post_onclose, bind, gets, Sessions.console_log, modify, ret.
    destruct (Js.truthy_str (Sessions.sessionIdOf t s)); simpl; repeat split; eauto.
  - intros sid t Hs Hnone.
    destruct (step_effect _ _ _ _ _ _ Hstep) as (_ & _ & _ & Hcases).
    destruct (Hcases _ _ Hs) as [Hkeep | [[_ Hfire] | [[_ Hclose] | (rid & _ & _ & Hsome)]]].
    + congruence.
    + left. exact Hfire.
    + right. apply closes_session_true in Hclose. exact Hclose.
    + rewrite Hnone in Hsome. destruct Hsome as [? ?]. discriminate.
  - intros rid ex t tr sid -> Hex Hm Ht Htr Hid Hne.
    simpl in Hstep. rewrite Hex, Ht in Hstep.
    destruct (Sessions.ex_onclose ex); [|discriminate].
    destruct (session_onclose_releases close_does sid t tr s Htr Hid Hne)
      as (s1 & Hrun & Es & Et & Eo & Ep & _ & El).
    assert (Hs' : s' = Sessions.set_inflight <[rid := Sessions.closed_exchange ex]> s1).
    { destruct (Router.method (Sessions.ex_request ex)); try contradiction;
        injection Hstep as <-; unfold Sessions.exec; rewrite Hrun; reflexivity. }
    subst s'. simpl. rewrite Es, Et, Eo, Ep, El, !lookup_delete_eq.
    repeat split.
    + intros h Hh. rewrite Hh. apply lookup_delete_eq.
    + intros ->. simpl. rewrite Hid. apply lookup_insert_eq.
    + intros Hc. destruct (close_does tr); [contradiction|reflexivity..].
    + rewrite app_assoc. apply last_snoc.
  - intros h tm tr -> Hh Htr. simpl in Hstep. rewrite Hh in Hstep.
    destruct (Sessions.deadline tm <=? Sessions.now s); [|discriminate].
    injection Hstep as <-.
    destruct (expire_releases close_does (Sessions.timer_sessionId tm)
                (Sessions.timer_transport tm) tr
                (Sessions.set_timeouts (delete h) (Sessions.nextTimer s) s) Htr)
      as (s1 & Hrun & Es & Et & Eo & Ep & El).
    unfold Sessions.exec. rewrite Hrun. simpl.
    rewrite Es, Et, Eo, Ep, El, !lookup_delete_eq. simpl.
    repeat split.
    + apply lookup_delete_eq.
    + intros ->. simpl. apply lookup_insert_eq.
    + rewrite app_assoc. apply last_snoc.
Qed.

Lemma only_expiry_or_session_close_releases_witness :
  (Sessions.sessions (after (stream_open ++ [Sessions.Closed 0]))
     = Sessions.sessions (after stream_open)
   /\ Sessions.sessionTimers (after (stream_open ++ [Sessions.Closed 0]))
     = Sessions.sessionTimers (after stream_open))
  /\ (Sessions.sessions (after (head_served ++ [Sessions.Closed 1])) !! "s1" = None
      /\ Sessions.timeouts (after (head_served ++ [Sessions.Closed 1])) !! 2%nat = None
      /\ Sessions.transports (after (head_served ++ [Sessions.Closed 1])) !! 0%nat
         = Some {| Sessions.sessionId := Some "s1"; Sessions.closed := true |}).
Proof.
  split.
  - assert (Hstep : demo_step (Sessions.Closed 0) (after stream_open)
                    = Some (after (stream_open ++ [Sessions.Closed 0])))
      by (vm_compute; reflexivity).
    destruct (only_expiry_or_session_close_releases _ _ _ _ _ _ Hstep) as (Hpost & _).
    destruct (Hpost 0%nat
                {| Sessions.ex_request :=
                     Sessions.ensureAccept false (request Router.POST None true);
                   Sessions.ex_transport := Some 0%nat; Sessions.ex_phase := Sessions.Finished;
                   Sessions.ex_onclose := true; Sessions.ex_response := None |})
      as (Hs & Ht & _).
    + reflexivity.
    + vm_compute. reflexivity.
    + reflexivity.
    + split; assumption.
  - assert (Hstep : demo_step (Sessions.Closed 1) (after head_served)
                    = Some (after (head_served ++ [Sessions.Closed 1])))
      by (vm_compute; reflexivity).
    destruct (only_expiry_or_session_close_releases _ _ _ _ _ _ Hstep)
      as (_ & _ & Hclose & _).
    destruct (Hclose 1%nat
                {| Sessions.ex_request := request Router.HEAD (Some "s1") false;
                   Sessions.ex_transport := Some 0%nat; Sessions.ex_phase := Sessions.Finished;
                   Sessions.ex_onclose := true; Sessions.ex_response := None |}
                0%nat {| Sessions.sessionId := Some "s1"; Sessions.closed := false |} "s1")
      as (Hs & _ & Ht & Hc & _).
    + reflexivity.
    + vm_compute. reflexivity.
    + discriminate.
    + reflexivity.
    + vm_compute. reflexivity.
    + reflexivity.
    + discriminate.
    + split; [exact Hs|]. split; [apply Ht; vm_compute; reflexivity|].
      apply Hc. reflexivity.
Defined.

(** C10, as stated, fails in one direction: the POST handler touches the
    session again after its await without looking at [sessions]; when the
    session was released meanwhile, [sessionTimers] gets an entry for an id
    that [sessions] no longer has. *)
Lemma timer_without_session :
  demo_run post_overtaken Sessions.initial = Some (after post_overtaken)
  /\ Sessions.sessions (after post_overtaken) !! "s1" = None
  /\ Sessions.sessionTimers (after post_overtaken) !! "s1" = Some 4%nat
  /\ Sessions.timeouts (after post_overtaken) !! 4%nat
     = Some {| Sessions.deadline := 601000; Sessions.timer_sessionId := "s1";
               Sessions.timer_transport := 0 |}.
Proof. vm_compute. repeat split. Qed.

Lemma onsessioninitialized_state t sid s :
  Sessions.exec (Sessions.onsessioninitialized t sid) s
  = Sessions.add_log (Sessions.SessionInitialized sid)
      (Sessions.exec (Sessions.touchSession (Some sid) t)
         (Sessions.set_sessions <[sid := t]> s)).
Proof.
  unfold Sessions.exec, Sessions.onsessioninitialized, bind at 1, modify at 1.
  unfold bind at 1.
  destruct (touch_step (Some sid) t (Sessions.set_sessions <[sid:=t]> s)) as [s' [-> ->]].
  reflexivity.
Qed.

(** C10 (amended): in every state the handlers can reach, each id that has
    an entry in [sessions] has an entry in [sessionTimers].  The
    initialization callback registers the session and arms its timer in one
    block, and the two release paths, the timeout callback and the close
    listener of GET/DELETE, remove the id from both maps in one block. *)
Theorem session_has_timer
    (API_KEY : option string) (FORCE_JSON : bool) (close_does : Sessions.Transport -> Sessions.Closing)
    (evs : list Sessions.Event) (s : Sessions.State) :
  Sessions.run API_KEY FORCE_JSON close_does evs Sessions.initial = Some s ->
  (forall sid t, Sessions.sessions s !! sid = Some t ->
     is_Some (Sessions.sessionTimers s !! sid))
  /\ (forall sid t, sid <> "" ->
        Sessions.sessions (Sessions.exec (Sessions.onsessioninitialized t sid) s) !! sid
          = Some t
        /\ Sessions.sessionTimers (Sessions.exec (Sessions.onsessioninitialized t sid) s) !! sid
          = Some (Sessions.nextTimer s))
  /\ (forall sid t,
        Sessions.sessions (Sessions.exec (Sessions.expire close_does sid t) s) !! sid = None
        /\ Sessions.sessionTimers (Sessions.exec (Sessions.expire close_does sid t) s) !! sid
           = None)
  /\ (forall sid t, Sessions.sessionIdOf t s = Some sid -> sid <> "" ->
        Sessions.sessions (Sessions.exec (Sessions.session_onclose close_does t) s) !! sid
          = None
        /\ Sessions.sessionTimers
             (Sessions.exec (Sessions.session_onclose close_does t) s) !! sid = None).
Proof.
  intros Hrun. repeat apply conj.
  - apply Sessions.inv_session_has_timer.
    apply (reachable_Inv API_KEY FORCE_JSON close_does). exists evs. exact Hrun.
  - intros sid t Hne. rewrite onsessioninitialized_state. simpl. split.
    + rewrite touchSession_sessions. simpl. apply lookup_insert_eq.
    + rewrite touchSession_registers by assumption. reflexivity.
  - intros sid t. unfold Sessions.exec.
    destruct (expire_effect close_does sid t s) as (s1 & -> & Es & Et & _).
    simpl. rewrite Es, Et, !lookup_delete_eq. auto.
  - intros sid t Hid Hne.
    assert (Htr : Js.truthy_str (Some sid) = true) by (apply truthy_str_Some; eauto).
    unfold Sessions.exec.
    destruct (session_onclose_effect close_does t s) as (s1 & -> & _ & _ & _ & _ & Hc).
    rewrite Hid, Htr in Hc. simpl in *. destruct Hc as [-> ->].
    rewrite !lookup_delete_eq. auto.
Qed.

Lemma session_has_timer_witness :
  is_Some (Sessions.sessionTimers (after stream_open) !! "s1").
Proof.
  assert (Hrun : demo_run stream_open Sessions.initial = Some (after stream_open))
    by (vm_compute; reflexivity).
  destruct (session_has_timer _ _ _ _ _ Hrun) as (Hinv & _).
  apply (Hinv "s1" 0%nat). vm_compute. reflexivity.
Defined.

Section Lookup.

Variable API_KEY : option string.
Variable FORCE_JSON : bool.
Variable close_does : Sessions.Transport -> Sessions.Closing.

Lemma run_keeping_now sid evs s s2 :
  Sessions.run_keeping API_KEY FORCE_JSON close_does sid evs s = Some s2 ->
  Sessions.now s <= Sessions.now s2.
Proof.
  revert s. induction evs as [|ev evs IH]; intros s Hrun; simpl in Hrun.
  - injection Hrun as <-. lia.
  - destruct (Sessions.closes_session sid ev s); [discriminate|].
    destruct (Sessions.step _ _ _ ev s) as [s'|] eqn:Hstep; [|discriminate].
    apply step_effect in Hstep as (Hn & _). apply IH in Hrun. lia.
Qed.

(** A registered session stays registered, with the same transport, as long
    as no GET, HEAD or DELETE response on it closes and its timeouts are not
    yet due. *)
Lemma kept_alive sid t T0 evs s s2 :
  Sessions.sessions s !! sid = Some t ->
  sid ∈ Sessions.issued s ->
  T0 <= Sessions.now s ->
  (forall h tm, Sessions.timeouts s !! h = Some tm -> Sessions.timer_sessionId tm = sid ->
     T0 + Sessions.TTL_MS <= Sessions.deadline tm) ->
  Sessions.run_keeping API_KEY FORCE_JSON close_does sid evs s = Some s2 ->
  Sessions.now s2 < T0 + Sessions.TTL_MS ->
  Sessions.sessions s2 !! sid = Some t.
Proof.
  revert s. induction evs as [|ev evs IH]; intros s Hs Hissued Hnow Hdue Hrun Hwindow;
    simpl in Hrun.
  - injection Hrun as <-. exact Hs.
  - destruct (Sessions.closes_session sid ev s) eqn:Hclose; [discriminate|].
    destruct (Sessions.step _ _ _ ev s) as [s'|] eqn:Hstep; [|discriminate].
    pose proof (run_keeping_now _ _ _ _ Hrun) as Hmono.
    destruct (step_effect _ _ _ _ _ _ Hstep) as (Hn & Hi & Ht & Hc).
    destruct (Hc _ _ Hs) as [Hkeep | [[_ Hfire] | [[_ Hcl] | (rid & _ & Hfresh & _)]]].
    + apply (IH s'); auto; [lia|].
      intros h tm Hl Hsid. destruct (Ht _ _ Hl) as [Hold|Hnew]; [eauto | lia].
    + destruct Hfire as (h & tm & _ & Hl & Hsid & Hd). specialize (Hdue _ _ Hl Hsid). lia.
    + congruence.
    + contradiction.
Qed.

Lemma touchSession_due sid transport s :
  sid <> "" ->
  Sessions.due sid (Sessions.exec (Sessions.touchSession (Some sid) transport) s)
  = Some (Sessions.now s + Sessions.TTL_MS).
Proof.
  intros Hne. unfold Sessions.due. rewrite touchSession_registers by exact Hne.
  unfold_blocks.
  assert (Js.truthy_str (Some sid) = true) as -> by (apply truthy_str_Some; eauto).
  simpl. destruct (Sessions.sessionTimers s !! sid); simpl; rewrite lookup_insert_eq;
    reflexivity.
Qed.

(** A registered session stays registered, with the same transport, as long
    as no response served by [handleSessionReq] on it closes and no event
    finds its timeout due. *)
Lemma kept_within sid t evs s s2 :
  Sessions.Inv s ->
  Sessions.sessions s !! sid = Some t ->
  sid ∈ Sessions.issued s ->
  Sessions.run_within API_KEY FORCE_JSON close_does sid evs s = Some s2 ->
  Sessions.sessions s2 !! sid = Some t.
Proof.
  revert s. induction evs as [|ev evs IH]; intros s HI Hs Hissued Hrun; simpl in Hrun.
  - injection Hrun as <-. exact Hs.
  - destruct (Sessions.closes_session sid ev s) eqn:Hclose; [discriminate|].
    destruct (Sessions.idle_expired sid s) eqn:Hidle; [discriminate|]. simpl in Hrun.
    destruct (Sessions.step _ _ _ ev s) as [s'|] eqn:Hstep; [|discriminate].
    destruct (step_effect _ _ _ _ _ _ Hstep) as (_ & Hi & _ & Hc).
    destruct (Hc _ _ Hs) as [Hkeep | [[_ Hfire] | [[_ Hcl] | (rid & _ & Hfresh & _)]]].
    + apply (IH s'); auto. eapply step_Inv; eassumption.
    + destruct Hfire as (h & tm & _ & Hl & Hsid & Hd).
      pose proof (Sessions.inv_timer_registered _ HI _ _ Hl) as Hreg.
      rewrite Hsid in Hreg. unfold Sessions.idle_expired, Sessions.due in Hidle.
      rewrite Hreg, Hl in Hidle. simpl in Hidle. apply Z.leb_gt in Hidle. lia.
    + congruence.
    + contradiction.
Qed.

(** C4, as stated, fails: session "s1" is created by an initiation
    request; one second later, far inside the TTL and with no DELETE ever
    issued, the client closes a GET stream it had opened on the session, and
    a lookup of "s1" finds nothing. *)
Lemma lookup_lost_on_stream_close :
  demo_run (stream_open ++ [Sessions.Closed 1]) Sessions.initial
    = Some (after (stream_open ++ [Sessions.Closed 1]))
  /\ Sessions.lookup "s1" (after open_session) = Some 0%nat
  /\ Sessions.lookup "s1" (after stream_open) = Some 0%nat
  /\ Sessions.now (after (stream_open ++ [Sessions.Closed 1])) < Sessions.TTL_MS
  /\ Sessions.lookup "s1" (after (stream_open ++ [Sessions.Closed 1])) = None.
Proof. vm_compute. repeat split. Qed.

(** C4 (amended): when the handshake of a session-initiation request
    completes, the new id is registered with the request's transport and its
    timeout is due one TTL later; every touch of the id moves the due time
    to one TTL after the touch.  Every later lookup of the id returns this
    same transport as long as no response served by [handleSessionReq] on
    the session (GET, HEAD or DELETE) has closed and the session was never
    idle for a full TTL: no event found the session's timeout due.  In
    particular the lookup succeeds throughout the first TTL after the
    registration.  And once the response of a DELETE served on the live
    session has closed, the lookup of its id finds nothing. *)
Theorem lookup_until_teardown
    (s s1 : Sessions.State) (rid : nat) (uuid : string) (ex : Sessions.Exchange) (t : nat) :
  Sessions.reachable API_KEY FORCE_JSON close_does s ->
  Sessions.inflight s !! rid = Some ex ->
  Sessions.ex_transport ex = Some t ->
  Sessions.step API_KEY FORCE_JSON close_does (Sessions.SdkInitialize rid uuid) s = Some s1 ->
  Sessions.lookup uuid s1 = Some t
  /\ Sessions.due uuid s1 = Some (Sessions.now s1 + 600000)
  /\ (forall s2 t',
        Sessions.due uuid (Sessions.exec (Sessions.touchSession (Some uuid) t') s2)
        = Some (Sessions.now s2 + 600000))
  /\ (forall evs s2,
        Sessions.run_within API_KEY FORCE_JSON close_does uuid evs s1 = Some s2 ->
        Sessions.lookup uuid s2 = Some t)
  /\ (forall evs s2,
        Sessions.run_keeping API_KEY FORCE_JSON close_does uuid evs s1 = Some s2 ->
        Sessions.now s2 < Sessions.now s1 + Sessions.TTL_MS ->
        Sessions.lookup uuid s2 = Some t)
  /\ (forall evs s2 rid' ex' s3,
        Sessions.run API_KEY FORCE_JSON close_does evs s1 = Some s2 ->
        Sessions.lookup uuid s2 = Some t ->
        Sessions.inflight s2 !! rid' = Some ex' ->
        Router.method (Sessions.ex_request ex') = Router.DELETE ->
        Sessions.ex_transport ex' = Some t ->
        Sessions.step API_KEY FORCE_JSON close_does (Sessions.Closed rid') s2 = Some s3 ->
        Sessions.lookup uuid s3 = None).
Proof.
  intros Hreach Hex Ht Hstep.
  pose proof (reachable_Inv _ _ _ _ Hreach) as HI.
  pose proof (step_Inv _ _ _ _ _ _ Hstep HI) as HI1.
  pose proof Hstep as Hinit. simpl in Hinit. rewrite Hex, Ht in Hinit.
  destruct (Sessions.ex_phase ex); try discriminate.
  destruct (Router.method (Sessions.ex_request ex)); try discriminate.
  destruct (Sessions.transports s !! t) as [tr|] eqn:Htr; [|discriminate].
  destruct (Sessions.sessionId tr) eqn:Hid; [discriminate|].
  destruct (_ && _) eqn:Hc; [|discriminate]. injection Hinit as Hs1.
  apply andb_true_iff in Hc as [Hc _]. apply andb_true_iff in Hc as [_ Htruthy].
  assert (Hne : uuid <> "") by (intros ->; discriminate).
  rewrite initialize_state in Hs1.
  set (s0 := Sessions.set_sessions <[uuid:=t]> _) in Hs1.
  assert (Hreg : Sessions.sessions s1 !! uuid = Some t).
  { subst s1. simpl. rewrite touchSession_sessions. subst s0. simpl. apply lookup_insert_eq. }
  assert (Hnow : Sessions.now s1 = Sessions.now s).
  { subst s1. simpl. rewrite (Sessions.steady_now _ _ (touchSession_Steady _ _ _)).
    reflexivity. }
  assert (Hissued : uuid ∈ Sessions.issued s1).
  { subst s1. simpl.
    apply (Sessions.steady_issued _ _ (touchSession_Steady (Some uuid) t s0)).
    subst s0. simpl. apply elem_of_union_l, elem_of_singleton. reflexivity. }
  change 600000 with Sessions.TTL_MS.
  repeat apply conj.
  - exact Hreg.
  - rewrite Hnow. subst s1.
    change (Sessions.due uuid (Sessions.exec (Sessions.touchSession (Some uuid) t) s0)
            = Some (Sessions.now s + Sessions.TTL_MS)).
    rewrite touchSession_due by exact Hne. subst s0. reflexivity.
  - intros s2 t'. apply touchSession_due. exact Hne.
  - intros evs s2 Hrun. unfold Sessions.lookup.
    apply (kept_within uuid t evs s1 s2); assumption.
  - intros evs s2 Hrun Hwindow. unfold Sessions.lookup.
    apply (kept_alive uuid t (Sessions.now s1) evs s1 s2); auto; [lia|].
    intros h tm Hl Hsid.
    pose proof (Sessions.inv_timer_registered _ HI1 _ _ Hl) as Hh. rewrite Hsid in Hh.
    assert (Hn : Sessions.sessionTimers s1 !! uuid = Some (Sessions.nextTimer s)).
    { subst s1. simpl. rewrite touchSession_registers by exact Hne. reflexivity. }
    rewrite Hn in Hh. injection Hh as <-.
    assert (Hl0 : Sessions.timeouts
                    (Sessions.exec (Sessions.touchSession (Some uuid) t) s0)
                    !! Sessions.nextTimer s = Some tm) by (subst s1; exact Hl).
    destruct (Sessions.steady_timeouts _ _ (touchSession_Steady _ _ _) _ _ Hl0)
      as [Hold|Hnew].
    + subst s0. simpl in Hold. apply (Sessions.inv_timer_fresh _ HI) in Hold. lia.
    + rewrite Hnew, Hnow. subst s0. simpl. lia.
  - intros evs s2 rid' ex' s3 Hrun Hlook Hex' Hm Ht' Hclose.
    pose proof (run_Inv _ _ _ _ _ _ Hrun HI1) as HI2.
    pose proof (Sessions.inv_session_transport _ HI2 _ _ Hlook) as Hsid.
    assert (Hm' : Router.method (Sessions.ex_request ex') <> Router.POST)
      by (rewrite Hm; discriminate).
    apply (session_close_step _ _ _ _ _ _ _ _ _ Hclose Hex' Hm' Ht' Hsid Hne).
Qed.

End Lookup.

Lemma lookup_until_teardown_witness :
  Sessions.lookup "s1" (after (handshake_pending ++ [Sessions.SdkInitialize 0 "s1"])) = Some 0%nat
  /\ (Sessions.now (after (handshake_pending ++ Sessions.SdkInitialize 0 "s1" :: kept_busy))
        = 2396000
      /\ Sessions.lookup "s1"
           (after (handshake_pending ++ Sessions.SdkInitialize 0 "s1" :: kept_busy))
         = Some 0%nat)
  /\ Sessions.lookup "s1"
       (after (handshake_pending ++ Sessions.SdkInitialize 0 "s1" :: busy_then_idle))
     = Some 0%nat
  /\ Sessions.lookup "s1"
       (after (handshake_pending ++ Sessions.SdkInitialize 0 "s1" :: then_delete
               ++ [Sessions.Closed 1]))
     = None.
Proof.
  assert (Hreach : Sessions.reachable (Some "k") false throws_when_closed
                     (after handshake_pending)).
  { exists handshake_pending. vm_compute. reflexivity. }
  destruct (lookup_until_teardown (Some "k") false throws_when_closed
              (after handshake_pending)
              (after (handshake_pending ++ [Sessions.SdkInitialize 0 "s1"]))
              0 "s1"
              {| Sessions.ex_request :=
                   Sessions.ensureAccept false (request Router.POST None true);
                 Sessions.ex_transport := Some 0%nat; Sessions.ex_phase := Sessions.Handling;
                 Sessions.ex_onclose := true; Sessions.ex_response := None |}
              0 Hreach)
    as (Hnew & _ & _ & Hwithin & Hkeep & Hgone).
  - vm_compute. reflexivity.
  - reflexivity.
  - vm_compute. reflexivity.
  - split; [exact Hnew|]. split; [|split].
    + split; [vm_compute; reflexivity|].
      apply (Hwithin kept_busy). vm_compute. reflexivity.
    + apply (Hkeep busy_then_idle); vm_compute; reflexivity.
    + apply (Hgone then_delete
               (after (handshake_pending ++ Sessions.SdkInitialize 0 "s1" :: then_delete))
               1%nat
               {| Sessions.ex_request := request Router.DELETE (Some "s1") false;
                  Sessions.ex_transport := Some 0%nat; Sessions.ex_phase := Sessions.Finished;
                  Sessions.ex_onclose := true; Sessions.ex_response := None |});
        vm_compute; reflexivity.
Defined.

(** ** More on the router and the log line *)

Lemma requireKey_accepts API_KEY req :
  Router.method req <> Router.OPTIONS ->
  Router.requireKey API_KEY req = Router.Next ->
  exists k, API_KEY = Some k /\ k <> "" /\ Router.suppliedKey req = Js.Str k.
Proof.
  intros Hm. unfold Router.requireKey.
  destruct (Router.Method_eqb (Router.method req) Router.OPTIONS) eqn:Hm'.
  { destruct (Router.method req); discriminate || contradiction. }
  cbv zeta. destruct (Js.truthy_str API_KEY) eqn:Hk; simpl; [|discriminate].
  apply truthy_str_Some in Hk as [k [-> Hne]]. simpl.
  destruct (Router.suppliedKey req) as [| |s|] eqn:Hs; simpl; try discriminate.
  destruct (String.eqb s k) eqn:Hsk; [|discriminate].
  apply String.eqb_eq in Hsk as ->. intros _. exists k. auto.
Qed.

Lemma requireKey_rejects API_KEY req :
  Router.requireKey API_KEY req <> Router.Next ->
  Router.requireKey API_KEY req = Router.Respond 401 (Router.Text "unauthorized").
Proof.
  unfold Router.requireKey.
  destruct (Router.Method_eqb (Router.method req) Router.OPTIONS); [congruence|].
  cbv zeta. destruct (_ && _); [congruence | reflexivity].
Qed.


Lemma append_nil (b : string) : "" ++ b = b.
Proof. reflexivity. Qed.

Lemma append_cons c (a b : string) : String c a ++ b = String c (a ++ b).
Proof. reflexivity. Qed.

Lemma toLowerCase_length s : String.length (Js.toLowerCase s) = String.length s.
Proof. induction s as [|c s IH]; simpl; congruence. Qed.

Lemma toLowerCase_app a b : Js.toLowerCase (a ++ b) = Js.toLowerCase a ++ Js.toLowerCase b.
Proof.
  induction a as [|c a IH]; [reflexivity|].
  rewrite append_cons. simpl. rewrite IH, append_cons. reflexivity.
Qed.

Lemma slice_app p k : Js.slice (String.length p) (p ++ k) = k.
Proof.
  induction p as [|c p IH]; [destruct k; reflexivity|].
  rewrite append_cons. simpl. exact IH.
Qed.

(** X2: the bearer scheme is recognised in any letter case and the token is
    taken without surrounding white space: when neither [?key=] nor
    [X-API-Key] carries a truthy value and the [Authorization] header is a
    seven-character scheme that lower-cases to 'bearer ' followed by [k], the
    supplied key is [trim k], and the request passes exactly when that equals
    the configured key. *)
Theorem bearer_scheme_any_case
    (scheme k key : string) (req : Router.Request) :
  Js.toLowerCase scheme = "bearer " ->
  Js.truthy (Router.query_key req) = false ->
  Js.truthy_str (Router.x_api_key req) = false ->
  Router.authorization req = Some (scheme ++ k) ->
  Router.method req <> Router.OPTIONS ->
  key <> "" ->
  Router.suppliedKey req = Js.Str (Js.trim k)
  /\ (Router.requireKey (Some key) req = Router.Next <-> Js.trim k = key).
Proof.
  intros Hscheme Hq Hx Hauth Hm Hkey.
  assert (Hlen : String.length scheme = 7%nat).
  { rewrite <- toLowerCase_length, Hscheme. reflexivity. }
  assert (Hs : Router.suppliedKey req = Js.Str (Js.trim k)).
  { unfold Router.suppliedKey, Js.or. rewrite Hq. unfold Js.truthy_str in Hx. rewrite Hx.
    rewrite Hauth. unfold Router.bearer.
    rewrite toLowerCase_app, Hscheme.
    assert (Js.startsWith "bearer " ("bearer " ++ Js.toLowerCase k) = true) as ->
      by (apply startsWith_app; eauto).
    rewrite <- Hlen at 1. rewrite slice_app. reflexivity. }
  split; [exact Hs|].
  unfold Router.requireKey.
  destruct (Router.Method_eqb (Router.method req) Router.OPTIONS) eqn:Hm'.
  { destruct (Router.method req); discriminate || contradiction. }
  cbv zeta. rewrite Hs.
  assert (Js.truthy_str (Some key) = true) as -> by (apply truthy_str_Some; eauto).
  simpl. destruct (String.eqb (Js.trim k) key) eqn:He.
  - apply String.eqb_eq in He. split; auto.
  - apply String.eqb_neq in He. split; [discriminate | contradiction].
Qed.

Lemma bearer_scheme_any_case_witness :
  Router.requireKey (Some "s3cret") shouting_bearer = Router.Next.
Proof.
  apply (bearer_scheme_any_case "BEARER " "  s3cret  " "s3cret" shouting_bearer);
    try reflexivity; discriminate.
Defined.


(** ** The debug endpoints *)

Lemma truthy_str_length v :
  Js.truthy_str (Some v) = negb (Nat.eqb (String.length v) 0).
Proof. destruct v; reflexivity. Qed.

Lemma length_or_zero_Some v : Debug.length_or_zero (Some v) = String.length v.
Proof. destruct v; reflexivity. Qed.

Lemma shape_env_get env1 env2 name :
  Debug.shape env1 = Debug.shape env2 ->
  Debug.length_or_zero (Debug.env_get name env1) = Debug.length_or_zero (Debug.env_get name env2)
  /\ Js.truthy_str (Debug.env_get name env1) = Js.truthy_str (Debug.env_get name env2).
Proof.
  revert env2. induction env1 as [|[k1 v1] env1 IH]; intros [|[k2 v2] env2] Hs;
    try discriminate; [split; reflexivity|].
  simpl in Hs. injection Hs as Hk Hv Hs. subst k2. simpl.
  destruct (String.eqb k1 name).
  - rewrite !length_or_zero_Some, !truthy_str_length, Hv. split; reflexivity.
  - apply IH. exact Hs.
Qed.

Lemma shape_names env1 env2 :
  Debug.shape env1 = Debug.shape env2 -> List.map fst env1 = List.map fst env2.
Proof.
  intros Hs. apply (f_equal (List.map fst)) in Hs. unfold Debug.shape in Hs.
  rewrite !List.map_map in Hs. exact Hs.
Qed.

(** X3: the debug endpoints reveal only names and lengths of secrets: two
    environments whose variables have the same names and value lengths get
    the same [/debug/envkeys] answer and the same [has_CLIENT_ID] and
    [has_CLIENT_SECRET] flags of [/debug/env]; and every name listed starts
    with 'GOOGLE_'. *)
Theorem debug_reveals_names_and_lengths (env1 env2 : Debug.Env) :
  Debug.shape env1 = Debug.shape env2 ->
  Debug.envkeys env1 = Debug.envkeys env2
  /\ Debug.has_CLIENT_ID (Debug.envinfo env1) = Debug.has_CLIENT_ID (Debug.envinfo env2)
  /\ Debug.has_CLIENT_SECRET (Debug.envinfo env1)
     = Debug.has_CLIENT_SECRET (Debug.envinfo env2)
  /\ (forall name, In name (Debug.keys (Debug.envkeys env1)) ->
        exists rest, name = "GOOGLE_" ++ rest).
Proof.
  intros Hs. repeat apply conj.
  - unfold Debug.envkeys. rewrite (shape_names _ _ Hs).
    rewrite (proj1 (shape_env_get _ _ "GOOGLE_CLIENT_ID" Hs)).
    rewrite (proj1 (shape_env_get _ _ "GOOGLE_CLIENT_SECRET" Hs)).
    rewrite (proj1 (shape_env_get _ _ "GOOGLE_REDIRECT_URI" Hs)). reflexivity.
  - apply (shape_env_get _ _ "GOOGLE_CLIENT_ID" Hs).
  - apply (shape_env_get _ _ "GOOGLE_CLIENT_SECRET" Hs).
  - intros name Hin. apply filter_In in Hin as [_ Hp]. apply startsWith_app. exact Hp.
Qed.

Lemma debug_reveals_names_and_lengths_witness :
  Debug.envkeys env_a = Debug.envkeys env_b
  /\ Debug.keys (Debug.envkeys env_a) = ["GOOGLE_CLIENT_ID"; "GOOGLE_CLIENT_SECRET"].
Proof.
  split; [|reflexivity].
  apply (debug_reveals_names_and_lengths env_a env_b). reflexivity.
Defined.

(** ** The OAuth callback *)

(** X4: the callback replaces the held token set only when the exchange
    succeeds.  Without a (non-empty) code it answers 400 without consulting
    the provider; when the provider refuses it answers 500 with the
    provider's error text, or the exception message when there is none; in
    both cases the held token set is left as it was. *)
Theorem callback_replaces_tokens_only_on_success
    (code : option string) (exchange : string -> OAuth.Exchange)
    (savedTokens : option string) :
  (Js.truthy_str code = false ->
     forall other, OAuth.callback code other savedTokens = (OAuth.MissingCode, savedTokens))
  /\ (forall e, Js.truthy_str code = true -> exchange (default "" code) = OAuth.Refused e ->
        snd (OAuth.callback code exchange savedTokens) = savedTokens
        /\ OAuth.status (fst (OAuth.callback code exchange savedTokens)) = 500
        /\ (forall text, OAuth.data_error e = Some text -> text <> "" ->
              fst (OAuth.callback code exchange savedTokens)
              = OAuth.OAuthError ("oauth error: " ++ text))
        /\ (Js.truthy_str (OAuth.data_error e) = false ->
              fst (OAuth.callback code exchange savedTokens)
              = OAuth.OAuthError ("oauth error: " ++ OAuth.message e)))
  /\ (forall tokens, Js.truthy_str code = true ->
        exchange (default "" code) = OAuth.Exchanged tokens ->
        OAuth.callback code exchange savedTokens = (OAuth.OAuthOk, Some tokens))
  /\ (snd (OAuth.callback code exchange savedTokens) <> savedTokens ->
        fst (OAuth.callback code exchange savedTokens) = OAuth.OAuthOk).
Proof.
  unfold OAuth.callback. repeat apply conj.
  - intros -> other. reflexivity.
  - intros e -> He. rewrite He. simpl. repeat split.
    + intros text Ht Hne. rewrite Ht.
      assert (Js.truthy_str (Some text) = true) as -> by (apply truthy_str_Some; eauto).
      reflexivity.
    + intros ->. reflexivity.
  - intros tokens -> He. rewrite He. reflexivity.
  - destruct (Js.truthy_str code); simpl; [|congruence].
    destruct (exchange (default "" code)); simpl; congruence.
Qed.

Lemma callback_replaces_tokens_only_on_success_witness :
  OAuth.callback (Some "") granting (Some "old") = (OAuth.MissingCode, Some "old")
  /\ snd (OAuth.callback (Some "abc") refusing (Some "old")) = Some "old"
  /\ OAuth.callback (Some "abc") granting (Some "old") = (OAuth.OAuthOk, Some "tokens-for-abc").
Proof.
  destruct (callback_replaces_tokens_only_on_success (Some "") granting (Some "old"))
    as (Hmissing & _).
  destruct (callback_replaces_tokens_only_on_success (Some "abc") refusing (Some "old"))
    as (_ & Hrefused & _).
  destruct (callback_replaces_tokens_only_on_success (Some "abc") granting (Some "old"))
    as (_ & _ & Hgranted & _).
  split; [apply Hmissing; reflexivity|]. split.
  - apply (Hrefused {| OAuth.data_error := Some "invalid_grant";
                       OAuth.message := "Request failed with status code 400" |});
      reflexivity.
  - apply Hgranted; reflexivity.
Defined.

Lemma callback_snd code exchange savedTokens :
  snd (OAuth.callback code exchange savedTokens)
  = match OAuth.obtained (code, exchange) with
    | Some tokens => Some tokens
    | None => savedTokens
    end.
Proof.
  unfold OAuth.callback, OAuth.obtained. simpl.
  destruct (Js.truthy_str code); simpl; [|reflexivity].
  destruct (exchange (default "" code)); reflexivity.
Qed.

(** X5: the held token set is the one of the last successful exchange:
    after any series of callback requests it is the token set obtained by the
    last request that obtained one, and the set held before if none did;
    and once a request has obtained one, every tool starts by asking for an
    access token instead of answering 'Not authorized'. *)
Theorem last_exchange_wins
    (reqs : list (option string * (string -> OAuth.Exchange)))
    (savedTokens : option string) :
  OAuth.callbacks reqs savedTokens
  = match last (omap OAuth.obtained reqs) with
    | Some tokens => Some tokens
    | None => savedTokens
    end
  /\ (forall remote c calls,
        omap OAuth.obtained reqs <> [] ->
        exists more,
          snd (Tools.invoke (OAuth.callbacks reqs savedTokens) remote c calls)
          = (calls ++ Tools.GetAccessToken :: more)%list).
Proof.
  assert (Hlast : forall reqs savedTokens,
            OAuth.callbacks reqs savedTokens
            = match last (omap OAuth.obtained reqs) with
              | Some tokens => Some tokens
              | None => savedTokens
              end).
  { clear. induction reqs as [|[code exchange] reqs IH]; intros savedTokens; [reflexivity|].
    cbn [OAuth.callbacks]. rewrite IH, callback_snd.
    assert (Hcons : omap OAuth.obtained ((code, exchange) :: reqs)
                    = match OAuth.obtained (code, exchange) with
                      | Some y => y :: omap OAuth.obtained reqs
                      | None => omap OAuth.obtained reqs
                      end) by reflexivity.
    rewrite Hcons.
    destruct (OAuth.obtained (code, exchange)) as [tokens|]; [|reflexivity].
    rewrite last_cons. destruct (last (omap OAuth.obtained reqs)); reflexivity. }
  split; [apply Hlast|].
  intros remote c calls Hsome. rewrite Hlast.
  destruct (last (omap OAuth.obtained reqs)) as [tokens|] eqn:Hl.
  - apply invoke_extends.
  - apply last_None in Hl. contradiction.
Qed.

Lemma last_exchange_wins_witness :
  OAuth.callbacks [ (Some "a", granting); (None, granting); (Some "b", granting);
                    (Some "c", refusing) ] None
  = Some "tokens-for-b".
Proof.
  destruct (last_exchange_wins
              [ (Some "a", granting); (None, granting); (Some "b", granting);
                (Some "c", refusing) ] None) as [H _].
  rewrite H. reflexivity.
Defined.

(** ** The quick test route *)

(** X6: [GET /tasks] never throws: whatever the token call and the remote
    calls do, it answers, with status 200, 401 or 500.  With no token set
    held it answers 401 without any outbound call; a rejected token call or
    remote call is answered 500 with the fixed text 'tasks error'; an account
    without lists gets the empty answer without a tasks call; otherwise the
    answer holds the account's first list and that list's tasks, asked for
    with [showCompleted=true]. *)
Theorem tasks_route_always_answers
    (savedTokens : option string) (remote : Tools.Remote) (calls : list Tools.Call) :
  (exists r calls',
     TasksRoute.tasks savedTokens remote calls = (Returned r, calls')
     /\ (TasksRoute.status r = 200 \/ TasksRoute.status r = 401 \/ TasksRoute.status r = 500)
     /\ (TasksRoute.status r = 500 -> TasksRoute.body r = TasksRoute.Plain "tasks error"))
  /\ (savedTokens = None ->
        TasksRoute.tasks savedTokens remote calls
        = (Returned {| TasksRoute.status := 401;
                       TasksRoute.body := TasksRoute.Plain "Authorize first at /oauth2/start" |},
           calls))
  /\ (forall e, is_Some savedTokens ->
        Tools.getAccessToken remote = Thrown e
        \/ (exists tok, Tools.getAccessToken remote = Returned (Some tok) /\ tok <> ""
                        /\ Tools.lists_items remote = Thrown e)
        \/ (exists tok first rest,
              Tools.getAccessToken remote = Returned (Some tok) /\ tok <> ""
              /\ Tools.lists_items remote = Returned (Some (first :: rest))
              /\ Tools.tasks_items remote (Tools.id first) true = Thrown e) ->
        fst (TasksRoute.tasks savedTokens remote calls)
        = Returned {| TasksRoute.status := 500;
                      TasksRoute.body := TasksRoute.Plain "tasks error" |})
  /\ (forall tok, is_Some savedTokens ->
        Tools.getAccessToken remote = Returned (Some tok) -> tok <> "" ->
        Tools.lists_items remote = Returned None
        \/ Tools.lists_items remote = Returned (Some []) ->
        TasksRoute.tasks savedTokens remote calls
        = (Returned {| TasksRoute.status := 200; TasksRoute.body := TasksRoute.NoLists |},
           (calls ++ [Tools.GetAccessToken; Tools.ListTaskLists ("Bearer " ++ tok)])%list))
  /\ (forall tok first rest items, is_Some savedTokens ->
        Tools.getAccessToken remote = Returned (Some tok) -> tok <> "" ->
        Tools.lists_items remote = Returned (Some (first :: rest)) ->
        Tools.tasks_items remote (Tools.id first) true = Returned items ->
        TasksRoute.tasks savedTokens remote calls
        = (Returned {| TasksRoute.status := 200;
                       TasksRoute.body := TasksRoute.ListWithTasks first (default [] items) |},
           (calls ++ [Tools.GetAccessToken; Tools.ListTaskLists ("Bearer " ++ tok);
                      Tools.ListTasks ("Bearer " ++ tok) (Tools.id first) true])%list)).
Proof.
  repeat apply conj.
  - unfold TasksRoute.tasks, TasksRoute.tasks_try, try_catch, bind, Tools.call, ret.
    destruct savedTokens; [|eexists _, _; split; [reflexivity|]; simpl; split; auto; discriminate].
    destruct (Tools.getAccessToken remote) as [token|e];
      [|eexists _, _; split; [reflexivity|]; simpl; auto].
    destruct (Js.truthy_str token); simpl;
      [|eexists _, _; split; [reflexivity|]; simpl; split; auto; discriminate].
    destruct (Tools.lists_items remote) as [[[|first rest]|]|e];
      try (eexists _, _; split; [reflexivity|]; simpl; split; auto; discriminate);
      try (eexists _, _; split; [reflexivity|]; simpl; auto; fail).
    destruct (Tools.tasks_items remote (Tools.id first) true) as [items|e];
      eexists _, _; (split; [reflexivity|]); simpl; auto.
    split; auto; discriminate.
  - intros ->. reflexivity.
  - intros e [tokens ->] Hfail.
    unfold TasksRoute.tasks, TasksRoute.tasks_try, try_catch, bind, Tools.call, ret.
    destruct Hfail as [Ha | [(tok & Ha & Hne & Hb) | (tok & first & rest & Ha & Hne & Hb & Hl)]].
    + destruct (Tools.getAccessToken remote); [discriminate|reflexivity].
    + destruct (Tools.getAccessToken remote) as [token|]; [|discriminate].
      injection Ha as ->.
      assert (Js.truthy_str (Some tok) = true) as -> by (apply truthy_str_Some; eauto).
      simpl. destruct (Tools.lists_items remote); [discriminate|reflexivity].
    + destruct (Tools.getAccessToken remote) as [token|]; [|discriminate].
      injection Ha as ->.
      assert (Js.truthy_str (Some tok) = true) as -> by (apply truthy_str_Some; eauto).
      simpl. destruct (Tools.lists_items remote) as [items|]; [|discriminate].
      injection Hb as ->.
      destruct (Tools.tasks_items remote (Tools.id first) true); [discriminate|reflexivity].
  - intros tok [tokens ->] Ha Hne Hlists.
    unfold TasksRoute.tasks, TasksRoute.tasks_try, try_catch, bind, Tools.call, ret.
    destruct (Tools.getAccessToken remote) as [token|]; [|discriminate].
    injection Ha as ->.
    assert (Js.truthy_str (Some tok) = true) as -> by (apply truthy_str_Some; eauto).
    simpl. destruct (Tools.lists_items remote) as [items|];
      [|destruct Hlists; discriminate].
    destruct Hlists as [[= ->] | [= ->]]; rewrite <- app_assoc; reflexivity.
  - intros tok first rest items [tokens ->] Ha Hne Hb Hitems.
    unfold TasksRoute.tasks, TasksRoute.tasks_try, try_catch, bind, Tools.call, ret.
    destruct (Tools.getAccessToken remote) as [token|]; [|discriminate].
    injection Ha as ->.
    assert (Js.truthy_str (Some tok) = true) as -> by (apply truthy_str_Some; eauto).
    simpl. destruct (Tools.lists_items remote) as [items0|]; [|discriminate].
    injection Hb as ->.
    destruct (Tools.tasks_items remote (Tools.id first) true) as [items1|]; [|discriminate].
    injection Hitems as ->. rewrite <- !app_assoc. reflexivity.
Qed.

Lemma tasks_route_always_answers_witness :
  TasksRoute.tasks (Some "tokens") flaky_remote []
  = (Returned {| TasksRoute.status := 200;
                 TasksRoute.body := TasksRoute.ListWithTasks {| Tools.id := "L1" |} [groceries] |},
     [Tools.GetAccessToken; Tools.ListTaskLists "Bearer ya29";
      Tools.ListTasks "Bearer ya29" "L1" true])
  /\ fst (TasksRoute.tasks (Some "tokens") rejecting_remote [])
     = Returned {| TasksRoute.status := 500; TasksRoute.body := TasksRoute.Plain "tasks error" |}.
Proof.
  destruct (tasks_route_always_answers (Some "tokens") flaky_remote [])
    as (_ & _ & _ & _ & Hok).
  destruct (tasks_route_always_answers (Some "tokens") rejecting_remote [])
    as (_ & _ & Hfail & _).
  split.
  - apply (Hok "ya29" {| Tools.id := "L1" |} [ {| Tools.id := "L2" |} ] (Some [groceries]));
      try reflexivity; [eexists; reflexivity | discriminate].
  - apply (Hfail "invalid_grant"); [eexists; reflexivity | left; reflexivity].
Defined.

(** ** Loading the protocol library *)




(** ** More on the tools *)

Lemma searchLists_stops remote headers show query
    (replies : string -> option (list Tools.Task)) pre bad post e hits calls :
  (forall l, In l pre ->
     Tools.tasks_items remote (Tools.id l) show = Returned (replies (Tools.id l))) ->
  Tools.tasks_items remote (Tools.id bad) show = Thrown e ->
  Tools.searchLists remote headers show query (pre ++ bad :: post) hits calls
  = (Thrown e,
     (calls ++ List.map (fun l => Tools.ListTasks headers (Tools.id l) show) (pre ++ [bad]))%list).
Proof.
  revert hits calls. induction pre as [|l pre IH]; intros hits calls Hpre Hbad; simpl.
  - unfold bind, Tools.call.
    destruct (Tools.tasks_items remote (Tools.id bad) show); [discriminate|].
    injection Hbad as ->. reflexivity.
  - unfold bind, Tools.call.
    pose proof (Hpre l (or_introl eq_refl)) as Hl.
    destruct (Tools.tasks_items remote (Tools.id l) show) as [items|]; [|discriminate].
    rewrite IH by (try exact Hbad; intros l' Hl'; apply Hpre; right; exact Hl').
    rewrite <- app_assoc. reflexivity.
Qed.

(** X8: [search] stops at the first remote failure: when the tasks call of
    one target list rejects, after the lists before it answered, the
    exception leaves the handler, no result is returned, and the lists after
    it are never asked for. *)
Theorem search_stops_at_first_failure
    (tokens tok e : string) (remote : Tools.Remote) (query listId : option string)
    (showCompleted : option bool) (accountLists : option (list Tools.TaskList))
    (replies : string -> option (list Tools.Task))
    (pre post : list Tools.TaskList) (bad : Tools.TaskList) (calls : list Tools.Call) :
  Tools.getAccessToken remote = Returned (Some tok) ->
  tok <> "" ->
  (Js.truthy_str listId = false -> Tools.lists_items remote = Returned accountLists) ->
  Tools.spec_targets listId (default [] accountLists) = (pre ++ bad :: post)%list ->
  (forall l, In l pre ->
     Tools.tasks_items remote (Tools.id l) (default true showCompleted)
       = Returned (replies (Tools.id l))) ->
  Tools.tasks_items remote (Tools.id bad) (default true showCompleted) = Thrown e ->
  Tools.search (Some tokens) remote query listId showCompleted calls =
    (Thrown e,
     (calls ++ Tools.GetAccessToken ::
        (if Js.truthy_str listId then [] else [Tools.ListTaskLists ("Bearer " ++ tok)]) ++
        List.map (fun l => Tools.ListTasks ("Bearer " ++ tok) (Tools.id l)
                             (default true showCompleted))
                 (pre ++ [bad]))%list).
Proof.
  intros Htok Hne Hlists Htargets Hpre Hbad.
  unfold Tools.search, bind. rewrite (authHeader_held _ _ tokens) by reflexivity.
  destruct (Tools.getAccessToken remote) as [token|]; [|discriminate].
  injection Htok as ->.
  assert (Js.truthy_str (Some tok) = true) as -> by (apply truthy_str_Some; eauto).
  unfold Tools.spec_targets in Htargets. destruct (Js.truthy_str listId) eqn:Hl.
  - unfold ret at 1. rewrite Htargets.
    rewrite (searchLists_stops remote _ _ _ replies pre bad post e) by assumption.
    simpl. rewrite <- app_assoc. reflexivity.
  - unfold Tools.listTaskLists, bind, Tools.call.
    specialize (Hlists eq_refl).
    destruct (Tools.lists_items remote) as [items|]; [|discriminate].
    injection Hlists as ->. unfold ret at 1. rewrite Htargets.
    rewrite (searchLists_stops remote _ _ _ replies pre bad post e) by assumption.
    simpl. rewrite <- !app_assoc. reflexivity.
Qed.

Lemma search_stops_at_first_failure_witness :
  Tools.search (Some "tokens") flaky_remote None None None []
  = (Thrown "ECONNRESET",
     [Tools.GetAccessToken; Tools.ListTaskLists "Bearer ya29";
      Tools.ListTasks "Bearer ya29" "L1" true; Tools.ListTasks "Bearer ya29" "L2" true]).
Proof.
  apply (search_stops_at_first_failure "tokens" "ya29" "ECONNRESET" flaky_remote None None None
           (Some [ {| Tools.id := "L1" |}; {| Tools.id := "L2" |} ])
           (fun _ => Some [groceries])
           [ {| Tools.id := "L1" |} ] [] {| Tools.id := "L2" |} []);
    try reflexivity.
  - discriminate.
  - intros l [<-|[]]. reflexivity.
Defined.

(** X9: a tool that is given the list id asks the Tasks API exactly once:
    with a usable token, [fetch] issues the single-task call and
    [create_task] with a (non-empty) [listId] issues the create call on that
    list, without asking for the account's lists; the reply is returned
    unflagged, and a rejected call leaves the handler as an exception. *)
Theorem tools_with_list_id_call_once
    (tokens tok : string) (remote : Tools.Remote) (calls : list Tools.Call) :
  Tools.getAccessToken remote = Returned (Some tok) ->
  tok <> "" ->
  (forall listId taskId,
     Tools.fetch (Some tokens) remote listId taskId calls
     = (match Tools.task_json remote listId taskId with
        | Returned j => Returned {| Tools.content := Tools.TextTask j; Tools.isError := false |}
        | Thrown e => Thrown e
        end,
        (calls ++ [Tools.GetAccessToken; Tools.FetchTask ("Bearer " ++ tok) listId taskId])%list))
  /\ (forall listId title notes due, listId <> "" ->
        Tools.create_task (Some tokens) remote (Some listId) title notes due calls
        = (match Tools.created_json remote listId title notes due with
           | Returned j => Returned {| Tools.content := Tools.TextTask j;
                                       Tools.isError := false |}
           | Thrown e => Thrown e
           end,
           (calls ++ [Tools.GetAccessToken;
                      Tools.CreateTask ("Bearer " ++ tok) listId title notes due])%list)).
Proof.
  intros Htok Hne.
  assert (Ht : Js.truthy_str (Some tok) = true) by (apply truthy_str_Some; eauto).
  split.
  - intros listId taskId. unfold Tools.fetch, bind.
    rewrite (authHeader_held _ _ tokens) by reflexivity.
    destruct (Tools.getAccessToken remote) as [token|]; [|discriminate].
    injection Htok as ->. rewrite Ht. unfold Tools.call.
    destruct (Tools.task_json remote listId taskId); unfold ret; simpl;
      rewrite <- app_assoc; reflexivity.
  - intros listId title notes due Hlist. unfold Tools.create_task, bind.
    rewrite (authHeader_held _ _ tokens) by reflexivity.
    destruct (Tools.getAccessToken remote) as [token|]; [|discriminate].
    injection Htok as ->. rewrite Ht.
    assert (Js.truthy_str (Some listId) = true) as -> by (apply truthy_str_Some; eauto).
    change (default "" (Some listId)) with listId.
    unfold Tools.createIn, bind, Tools.call.
    destruct (Tools.created_json remote listId title notes due); unfold ret; simpl;
      rewrite <- app_assoc; reflexivity.
Qed.

Lemma tools_with_list_id_call_once_witness :
  Tools.create_task (Some "tokens") demo_remote (Some "L2") "Buy milk" None None []
  = (Returned {| Tools.content :=
                   Tools.TextTask {| Tools.title := Some "Buy milk"; Tools.fields := "new" |};
                 Tools.isError := false |},
     [Tools.GetAccessToken; Tools.CreateTask "Bearer ya29" "L2" "Buy milk" None None]).
Proof.
  destruct (tools_with_list_id_call_once "tokens" "ya29" demo_remote [] eq_refl
              ltac:(discriminate)) as [_ H].
  apply (H "L2" "Buy milk" None None). discriminate.
Defined.

(** ** More on the session handlers *)

(** X10: the [Accept] rewrite of the POST handler gives the transport what
    it insists on: with [FORCE_JSON] the header becomes exactly
    'application/json'; without it the lower-cased header names both
    'application/json' and 'text/event-stream' afterwards, and a header that
    already did is left as the client sent it.  The rewrite touches no other
    part of the request and doing it twice changes nothing more. *)
Theorem ensureAccept_satisfies_transport (FORCE_JSON : bool) (req : Router.Request) :
  Router.accept (Sessions.ensureAccept true req) = Some "application/json"
  /\ Js.includes "application/json"
       (Js.toLowerCase (default "" (Router.accept (Sessions.ensureAccept false req)))) = true
  /\ Js.includes "text/event-stream"
       (Js.toLowerCase (default "" (Router.accept (Sessions.ensureAccept false req)))) = true
  /\ (Js.includes "application/json" (Js.toLowerCase (default "" (Router.accept req))) = true ->
      Js.includes "text/event-stream" (Js.toLowerCase (default "" (Router.accept req))) = true ->
      Sessions.ensureAccept false req = req)
  /\ Sessions.ensureAccept FORCE_JSON (Sessions.ensureAccept FORCE_JSON req)
     = Sessions.ensureAccept FORCE_JSON req
  /\ (forall API_KEY, Router.requireKey API_KEY (Sessions.ensureAccept FORCE_JSON req)
                      = Router.requireKey API_KEY req)
  /\ Sessions.headerId (Sessions.ensureAccept FORCE_JSON req) = Sessions.headerId req.
Proof.
  assert (Hboth : Js.includes "application/json"
       (Js.toLowerCase (default "" (Router.accept (Sessions.ensureAccept false req)))) = true
     /\ Js.includes "text/event-stream"
       (Js.toLowerCase (default "" (Router.accept (Sessions.ensureAccept false req)))) = true).
  { unfold Sessions.ensureAccept.
    destruct (Js.includes "application/json"
                (Js.toLowerCase (default "" (Router.accept req)))) eqn:H1;
      destruct (Js.includes "text/event-stream"
                  (Js.toLowerCase (default "" (Router.accept req)))) eqn:H2; simpl;
      rewrite ?H1, ?H2; split; reflexivity. }
  destruct Hboth as [H1 H2].
  split; [reflexivity|]. split; [exact H1|]. split; [exact H2|]. split; [|split; [|split]].
  - intros Ha Hb. unfold Sessions.ensureAccept. rewrite Ha, Hb. reflexivity.
  - destruct FORCE_JSON; [reflexivity|].
    unfold Sessions.ensureAccept at 1. rewrite H1, H2. reflexivity.
  - intros API_KEY. unfold Sessions.ensureAccept. destruct FORCE_JSON; [reflexivity|].
    destruct (_ || _); reflexivity.
  - unfold Sessions.ensureAccept. destruct FORCE_JSON; [reflexivity|].
    destruct (_ || _); reflexivity.
Qed.

(** X11: a GET or DELETE that passed the key check and whose session header
    is absent, empty or names no live session is answered at once with
    status 400 and the text 'Invalid or missing session ID'; nothing but the
    record of the exchange changes: no timer is armed and no session touched. *)
Theorem session_request_without_session_is_refused
    (API_KEY : option string) (FORCE_JSON : bool) (close_does : Sessions.Transport -> Sessions.Closing)
    (s : Sessions.State) (rid : nat) (req : Router.Request) :
  Router.method req = Router.GET \/ Router.method req = Router.DELETE ->
  Router.requireKey API_KEY req = Router.Next ->
  Sessions.inflight s !! rid = None ->
  (Js.truthy_str (Router.mcp_session_id req) = false
   \/ Sessions.sessions s !! default "" (Router.mcp_session_id req) = None) ->
  Sessions.step API_KEY FORCE_JSON close_does (Sessions.Arrive rid req) s =
    Some (Sessions.set_inflight
            <[rid := {| Sessions.ex_request := req; Sessions.ex_transport := None;
                        Sessions.ex_phase := Sessions.Finished; Sessions.ex_onclose := false;
                        Sessions.ex_response :=
                          Some (400, Router.Text "Invalid or missing session ID") |}]> s).
Proof.
  intros Hm Hkey Hrid Hsession.
  assert (Hb : Sessions.session_begin req s =
    (Returned (Sessions.answered req 400 (Router.Text "Invalid or missing session ID")), s)).
  { unfold Sessions.session_begin, try_catch, bind, Sessions.sessionFor.
    rewrite !headerId_is_header.
    destruct (Js.truthy_str (Router.mcp_session_id req)) eqn:Ht.
    - destruct Hsession as [Hf|Hnone]; [discriminate|].
      unfold gets. rewrite Hnone. reflexivity.
    - reflexivity. }
  simpl. rewrite Hrid, Hkey.
  destruct Hm as [-> | ->]; unfold Sessions.file; rewrite Hb; reflexivity.
Qed.

Lemma session_request_without_session_is_refused_witness :
  demo_step (Sessions.Arrive 7 (request Router.DELETE None false)) (after open_session)
  = Some (Sessions.set_inflight
            <[7%nat := {| Sessions.ex_request := request Router.DELETE None false;
                          Sessions.ex_transport := None;
                          Sessions.ex_phase := Sessions.Finished; Sessions.ex_onclose := false;
                          Sessions.ex_response :=
                            Some (400, Router.Text "Invalid or missing session ID") |}]>
            (after open_session)).
Proof.
  apply (session_request_without_session_is_refused (Some "k") false throws_when_closed).
  - right. reflexivity.
  - reflexivity.
  - vm_compute. reflexivity.
  - left. reflexivity.
Defined.

Lemma touchSession_arms sid transport s :
  sid <> "" ->
  Sessions.timeouts (Sessions.exec (Sessions.touchSession (Some sid) transport) s)
    !! Sessions.nextTimer s
  = Some {| Sessions.deadline := Sessions.now s + 600000;
            Sessions.timer_sessionId := sid; Sessions.timer_transport := transport |}.
Proof.
  intros Hne. unfold_blocks.
  assert (Js.truthy_str (Some sid) = true) as -> by (apply truthy_str_Some; eauto).
  simpl. destruct (Sessions.sessionTimers s !! sid); simpl; apply lookup_insert_eq.
Qed.

Lemma touchSession_cancels sid transport s old :
  sid <> "" ->
  Sessions.sessionTimers s !! sid = Some old ->
  (old < Sessions.nextTimer s)%nat ->
  Sessions.timeouts (Sessions.exec (Sessions.touchSession (Some sid) transport) s) !! old = None.
Proof.
  intros Hne Hold Hlt. unfold_blocks.
  assert (Js.truthy_str (Some sid) = true) as -> by (apply truthy_str_Some; eauto).
  simpl. rewrite Hold. simpl. rewrite lookup_insert_ne by lia. apply lookup_delete_eq.
Qed.

(** X12: every request on a live session pushes its expiry out: when a POST,
    GET or DELETE that passed the key check names a live session, the handler
    finds that session's transport, cancels the timeout registered for the
    session and arms a new one due 600000 ms from now, before it hands the
    request to the transport; the session map is not changed. *)
Theorem request_on_live_session_rearms
    (API_KEY : option string) (FORCE_JSON : bool) (close_does : Sessions.Transport -> Sessions.Closing)
    (s : Sessions.State) (rid : nat) (req : Router.Request) (sid : string) (t : nat) :
  Sessions.reachable API_KEY FORCE_JSON close_does s ->
  Sessions.lookup sid s = Some t ->
  Router.mcp_session_id req = Some sid ->
  Router.method req = Router.POST \/ Router.method req = Router.GET
    \/ Router.method req = Router.DELETE ->
  Router.requireKey API_KEY req = Router.Next ->
  Sessions.inflight s !! rid = None ->
  exists s' ex,
    Sessions.step API_KEY FORCE_JSON close_does (Sessions.Arrive rid req) s = Some s'
    /\ Sessions.inflight s' !! rid = Some ex
    /\ Sessions.ex_transport ex = Some t
    /\ Sessions.ex_phase ex = Sessions.Handling
    /\ Sessions.ex_response ex = None
    /\ Sessions.sessions s' = Sessions.sessions s
    /\ Sessions.sessionTimers s' !! sid = Some (Sessions.nextTimer s)
    /\ Sessions.timeouts s' !! Sessions.nextTimer s
       = Some {| Sessions.deadline := Sessions.now s + 600000;
                 Sessions.timer_sessionId := sid; Sessions.timer_transport := t |}
    /\ (forall old, Sessions.sessionTimers s !! sid = Some old ->
          Sessions.timeouts s' !! old = None).
Proof.
  intros Hreach Hlook Hhdr Hm Hkey Hrid.
  pose proof (reachable_Inv _ _ _ _ Hreach) as HI.
  pose proof (Sessions.inv_session_transport _ HI _ _ Hlook) as Hid.
  assert (Hne : sid <> "").
  { intros ->. exact (Sessions.inv_session_truthy _ HI _ Hlook). }
  assert (Htr : Js.truthy_str (Some sid) = true) by (apply truthy_str_Some; eauto).
  assert (Hfacts :
    Sessions.sessions (Sessions.exec (Sessions.touchSession (Some sid) t) s)
      = Sessions.sessions s
    /\ Sessions.sessionTimers (Sessions.exec (Sessions.touchSession (Some sid) t) s) !! sid
       = Some (Sessions.nextTimer s)
    /\ Sessions.timeouts (Sessions.exec (Sessions.touchSession (Some sid) t) s)
         !! Sessions.nextTimer s
       = Some {| Sessions.deadline := Sessions.now s + 600000;
                 Sessions.timer_sessionId := sid; Sessions.timer_transport := t |}
    /\ (forall old, Sessions.sessionTimers s !! sid = Some old ->
          Sessions.timeouts (Sessions.exec (Sessions.touchSession (Some sid) t) s) !! old
          = None)).
  { split; [apply touchSession_sessions|]. split; [apply touchSession_registers; exact Hne|].
    split; [apply touchSession_arms; exact Hne|].
    intros old Hold. apply touchSession_cancels; auto.
    eapply Sessions.inv_handle_fresh; eassumption. }
  destruct (touch_step (Some sid) t s) as (s1 & Htouch & Hs1). rewrite <- Hs1 in Hfacts.
  assert (Hpost : Sessions.post_begin FORCE_JSON req s
                  = (Returned {| Sessions.ex_request := Sessions.ensureAccept FORCE_JSON req;
                                 Sessions.ex_transport := Some t;
                                 Sessions.ex_phase := Sessions.Handling;
                                 Sessions.ex_onclose := true;
                                 Sessions.ex_response := None |}, s1)).
  { unfold Sessions.post_begin, try_catch, bind, Sessions.sessionFor, gets.
    rewrite !headerId_is_header.
    rewrite (proj1 (ensureAccept_keeps FORCE_JSON req)), Hhdr, Htr.
    change (default "" (Some sid)) with sid. unfold Sessions.lookup in Hlook.
    rewrite Hlook, Hid, Htouch. reflexivity. }
  assert (Hsess : Sessions.session_begin req s
                  = (Returned {| Sessions.ex_request := req;
                                 Sessions.ex_transport := Some t;
                                 Sessions.ex_phase := Sessions.Handling;
                                 Sessions.ex_onclose := true;
                                 Sessions.ex_response := None |}, s1)).
  { unfold Sessions.session_begin, try_catch, bind, Sessions.sessionFor, gets.
    rewrite !headerId_is_header, Hhdr, Htr.
    change (default "" (Some sid)) with sid. unfold Sessions.lookup in Hlook.
    rewrite Hlook, Hid, Htouch. reflexivity. }
  destruct Hfacts as (F1 & F2 & F3 & F4).
  simpl. rewrite Hrid, Hkey.
  destruct Hm as [-> | [-> | ->]]; unfold Sessions.file; rewrite ?Hpost, ?Hsess;
    eexists _, _; (split; [reflexivity|]); simpl; rewrite lookup_insert_eq;
    repeat split; assumption.
Qed.

Lemma request_on_live_session_rearms_witness :
  exists s' ex,
    demo_step (Sessions.Arrive 5 (request Router.GET (Some "s1") false)) (after open_session)
      = Some s'
    /\ Sessions.inflight s' !! 5%nat = Some ex
    /\ Sessions.ex_transport ex = Some 0%nat
    /\ Sessions.ex_phase ex = Sessions.Handling
    /\ Sessions.ex_response ex = None
    /\ Sessions.sessions s' = Sessions.sessions (after open_session)
    /\ Sessions.sessionTimers s' !! "s1" = Some (Sessions.nextTimer (after open_session))
    /\ Sessions.timeouts s' !! Sessions.nextTimer (after open_session)
       = Some {| Sessions.deadline := Sessions.now (after open_session) + 600000;
                 Sessions.timer_sessionId := "s1"; Sessions.timer_transport := 0 |}
    /\ (forall old, Sessions.sessionTimers (after open_session) !! "s1" = Some old ->
          Sessions.timeouts s' !! old = None).
Proof.
  apply (request_on_live_session_rearms (Some "k") false throws_when_closed).
  - exists open_session. vm_compute. reflexivity.
  - vm_compute. reflexivity.
  - reflexivity.
  - right. left. reflexivity.
  - reflexivity.
  - vm_compute. reflexivity.
Defined.

(** X13: a transport is never shared by two sessions, and the id a session
    is filed under is the id its transport carries: in every reachable state
    two ids that map to the same transport are the same id. *)
Theorem transport_not_shared
    (API_KEY : option string) (FORCE_JSON : bool) (close_does : Sessions.Transport -> Sessions.Closing)
    (s : Sessions.State) (sid sid' : string) (t : nat) :
  Sessions.reachable API_KEY FORCE_JSON close_does s ->
  Sessions.lookup sid s = Some t ->
  Sessions.lookup sid' s = Some t ->
  sid = sid' /\ Sessions.sessionIdOf t s = Some sid /\ sid <> "".
Proof.
  intros Hreach H1 H2. pose proof (reachable_Inv _ _ _ _ Hreach) as HI.
  pose proof (Sessions.inv_session_transport _ HI _ _ H1) as E1.
  pose proof (Sessions.inv_session_transport _ HI _ _ H2) as E2.
  split; [congruence|]. split; [exact E1|].
  intros ->. exact (Sessions.inv_session_truthy _ HI _ H1).
Qed.

Lemma transport_not_shared_witness :
  "s1" = "s1" /\ Sessions.sessionIdOf 0 (after open_session) = Some "s1" /\ "s1" <> "".
Proof.
  apply (transport_not_shared (Some "k") false throws_when_closed (after open_session)).
  - exists open_session. vm_compute. reflexivity.
  - vm_compute. reflexivity.
  - vm_compute. reflexivity.
Defined.

Section Registration.

Variable API_KEY : option string.
Variable FORCE_JSON : bool.
Variable close_does : Sessions.Transport -> Sessions.Closing.

(** What one event can do to [sessions]: nothing, delete one key, or, for
    the handshake, file the request's transport under the new id. *)
Lemma step_sessions ev s s' :
  Sessions.step API_KEY FORCE_JSON close_does ev s = Some s' ->
  Sessions.sessions s' = Sessions.sessions s
  \/ (exists k, Sessions.sessions s' = delete k (Sessions.sessions s))
  \/ (exists rid uuid ex t,
        ev = Sessions.SdkInitialize rid uuid
        /\ Sessions.inflight s !! rid = Some ex
        /\ Sessions.ex_transport ex = Some t
        /\ Sessions.ex_phase ex = Sessions.Handling
        /\ Router.method (Sessions.ex_request ex) = Router.POST
        /\ Router.body_is_initialize (Sessions.ex_request ex) = true
        /\ uuid <> "" /\ (uuid ∉ Sessions.issued s)
        /\ Sessions.sessionIdOf t s = None
        /\ Sessions.sessions s' = <[uuid := t]> (Sessions.sessions s)).
Proof.
  intros Hstep. destruct ev as [dt|h|rid req|rid|rid e|rid uuid|rid|rid e|rid];
    simpl in Hstep.
  - destruct (0 <=? dt); [|discriminate]. injection Hstep as <-. left. reflexivity.
  - destruct (Sessions.timeouts s !! h) as [tm|]; [|discriminate].
    destruct (Sessions.deadline tm <=? Sessions.now s); [|discriminate].
    injection Hstep as <-. unfold Sessions.exec.
    destruct (expire_effect close_does (Sessions.timer_sessionId tm)
                (Sessions.timer_transport tm)
                (Sessions.set_timeouts (delete h) (Sessions.nextTimer s) s))
      as (s1 & -> & Es & _).
    right. left. exists (Sessions.timer_sessionId tm). exact Es.
  - destruct (Sessions.inflight s !! rid); [discriminate|].
    destruct (Router.requireKey API_KEY req).
    + destruct (Router.method req); try discriminate; injection Hstep as <-; left;
        apply file_quiet; auto using post_begin_quiet, session_begin_quiet.
    + injection Hstep as <-. left. reflexivity.
  - destruct (Sessions.inflight s !! rid) as [ex|]; [|discriminate].
    destruct (Sessions.ex_phase ex); try discriminate. injection Hstep as <-.
    left. apply file_quiet, post_connected_quiet.
  - destruct (Sessions.inflight s !! rid) as [ex|]; [|discriminate].
    destruct (Sessions.ex_phase ex); try discriminate. injection Hstep as <-.
    left. apply file_quiet, failed_quiet.
  - destruct (Sessions.inflight s !! rid) as [ex|] eqn:Hex; [|discriminate].
    destruct (Sessions.ex_phase ex) eqn:Hph; try discriminate.
    destruct (Router.method (Sessions.ex_request ex)) eqn:Hm; try discriminate.
    destruct (Sessions.ex_transport ex) as [t|] eqn:Ht; [|discriminate].
    destruct (Sessions.transports s !! t) as [tr|] eqn:Htr; [|discriminate].
    destruct (Sessions.sessionId tr) eqn:Hid; [discriminate|].
    destruct (_ && _) eqn:Hc; [|discriminate]. injection Hstep as <-.
    apply andb_true_iff in Hc as [Hc Hfresh]. apply andb_true_iff in Hc as [Hinit Htruthy].
    apply bool_decide_eq_true in Hfresh.
    right. right. exists rid, uuid, ex, t. repeat split; auto.
    + intros ->. discriminate.
    + unfold Sessions.sessionIdOf. rewrite Htr. exact Hid.
    + rewrite initialize_state. simpl. rewrite touchSession_sessions. reflexivity.
  - destruct (Sessions.inflight s !! rid) as [ex|]; [|discriminate].
    destruct (Sessions.ex_phase ex); try discriminate.
    destruct (Router.method (Sessions.ex_request ex)); injection Hstep as <-; left;
      apply file_quiet; auto using post_handled_quiet, session_handled_quiet.
  - destruct (Sessions.inflight s !! rid) as [ex|]; [|discriminate].
    destruct (Sessions.ex_phase ex); try discriminate. injection Hstep as <-.
    left. apply file_quiet, failed_quiet.
  - destruct (Sessions.inflight s !! rid) as [ex|]; [|discriminate].
    destruct (Sessions.ex_onclose ex); [|discriminate].
    destruct (Sessions.ex_transport ex) as [t|]; [|discriminate].
    injection Hstep as <-.
    destruct (Router.method (Sessions.ex_request ex));
      try (unfold Sessions.exec;
           destruct (session_onclose_effect close_does t s)
             as (s1 & -> & _ & _ & _ & _ & Hcase);
           destruct (Js.truthy_str (Sessions.sessionIdOf t s));
           [ destruct Hcase as [Es _]; right; left; eexists; exact Es
           | subst s1; left; reflexivity ]).
    left. unfold Sessions.exec, Sessions.post_onclose, bind, gets.
    destruct (Js.truthy_str _); reflexivity.
Qed.

(** X14: a session is registered only by the handshake of an initialize
    POST: whenever an event makes [sessions] map an id to a transport it did
    not map it to before, the event is the completion of the handshake on an
    in-flight POST whose body is an initialize message, whose transport had
    no session id yet, and the id is non-empty and was never issued before.
    No other handler, timeout or close notification adds or redirects an
    entry. *)
Theorem only_handshake_registers (ev : Sessions.Event) (s s' : Sessions.State)
    (sid : string) (t : nat) :
  Sessions.step API_KEY FORCE_JSON close_does ev s = Some s' ->
  Sessions.lookup sid s' = Some t ->
  Sessions.lookup sid s <> Some t ->
  exists rid ex,
    ev = Sessions.SdkInitialize rid sid
    /\ Sessions.inflight s !! rid = Some ex
    /\ Sessions.ex_transport ex = Some t
    /\ Sessions.ex_phase ex = Sessions.Handling
    /\ Router.method (Sessions.ex_request ex) = Router.POST
    /\ Router.body_is_initialize (Sessions.ex_request ex) = true
    /\ sid <> "" /\ (sid ∉ Sessions.issued s)
    /\ Sessions.sessionIdOf t s = None.
Proof.
  unfold Sessions.lookup. intros Hstep Hnew Hold.
  destruct (step_sessions _ _ _ Hstep)
    as [Es | [[k Es] | (rid & uuid & ex & t' & -> & Hex & Ht & Hph & Hm & Hi & Hne & Hf & Hid & Es)]];
    rewrite Es in Hnew.
  - contradiction.
  - apply lookup_delete_Some in Hnew as [_ Hnew]. contradiction.
  - destruct (decide (uuid = sid)) as [->|Hk].
    + rewrite lookup_insert_eq in Hnew. injection Hnew as ->.
      exists rid, ex. repeat split; assumption.
    + rewrite lookup_insert_ne in Hnew by exact Hk. contradiction.
Qed.

End Registration.

Lemma only_handshake_registers_witness :
  exists rid ex,
    Sessions.SdkInitialize 0 "s1" = Sessions.SdkInitialize rid "s1"
    /\ Sessions.inflight (after handshake_pending) !! rid = Some ex
    /\ Sessions.ex_transport ex = Some 0%nat
    /\ Sessions.ex_phase ex = Sessions.Handling
    /\ Router.method (Sessions.ex_request ex) = Router.POST
    /\ Router.body_is_initialize (Sessions.ex_request ex) = true
    /\ "s1" <> "" /\ ("s1" ∉ Sessions.issued (after handshake_pending))
    /\ Sessions.sessionIdOf 0 (after handshake_pending) = None.
Proof.
  apply (only_handshake_registers (Some "k") false throws_when_closed
           (Sessions.SdkInitialize 0 "s1") (after handshake_pending)
           (after (handshake_pending ++ [Sessions.SdkInitialize 0 "s1"])) "s1" 0).
  - vm_compute. reflexivity.
  - vm_compute. reflexivity.
  - vm_compute. discriminate.
Defined.

(** ** Every live session can expire *)

Lemma Armed_frame s s' :
  Sessions.sessionTimers s' = Sessions.sessionTimers s ->
  Sessions.timeouts s' = Sessions.timeouts s ->
  Sessions.now s' = Sessions.now s ->
  Armed s -> Armed s'.
Proof. intros E1 E2 E3 [A1 A2]. constructor; rewrite ?E1, ?E2, ?E3; assumption. Qed.

Lemma touchSession_Armed sessionId transport s :
  (forall t tm, Sessions.timeouts s !! t = Some tm -> (t < Sessions.nextTimer s)%nat) ->
  Armed s -> Armed (Sessions.exec (Sessions.touchSession sessionId transport) s).
Proof.
  intros I4 [A1 A2].
  destruct (Js.truthy_str sessionId) eqn:Ht;
    [|unfold Sessions.exec; rewrite touchSession_falsy by exact Ht; constructor; assumption].
  unfold_blocks. rewrite Ht. simpl.
  set (sid := default "" sessionId).
  destruct (Sessions.sessionTimers s !! sid) as [old|] eqn:Hold; simpl.
  - constructor; simpl.
    + intros k h Hk. destruct (decide (k = sid)) as [->|Hne].
      * rewrite lookup_insert_eq in Hk. injection Hk as <-.
        rewrite lookup_insert_eq. eauto.
      * rewrite lookup_insert_ne in Hk by congruence.
        destruct (A1 _ _ Hk) as (tm & Hl & Hs). exists tm. split; [|exact Hs].
        destruct (A1 _ _ Hold) as (tmo & Hlo & Hso).
        rewrite lookup_insert_ne by (apply I4 in Hl; lia).
        rewrite lookup_delete_ne; [exact Hl|]. intros <-. congruence.
    + intros h tm Hl. destruct (decide (h = Sessions.nextTimer s)) as [->|Hne].
      * rewrite lookup_insert_eq in Hl. injection Hl as <-. simpl. lia.
      * rewrite lookup_insert_ne in Hl by congruence.
        apply lookup_delete_Some in Hl as [_ Hl]. eauto.
  - constructor; simpl.
    + intros k h Hk. destruct (decide (k = sid)) as [->|Hne].
      * rewrite lookup_insert_eq in Hk. injection Hk as <-.
        rewrite lookup_insert_eq. eauto.
      * rewrite lookup_insert_ne in Hk by congruence.
        destruct (A1 _ _ Hk) as (tm & Hl & Hs). exists tm. split; [|exact Hs].
        rewrite lookup_insert_ne by (apply I4 in Hl; lia). exact Hl.
    + intros h tm Hl. destruct (decide (h = Sessions.nextTimer s)) as [->|Hne].
      * rewrite lookup_insert_eq in Hl. injection Hl as <-. simpl. lia.
      * rewrite lookup_insert_ne in Hl by congruence. eauto.
Qed.

(** Dropping one id from [sessionTimers] together with the timeout it
    registered keeps the rest armed. *)
Lemma Armed_release s sid (tms : gmap nat Sessions.Timer) (sts : gmap string nat) :
  Armed s ->
  sts = delete sid (Sessions.sessionTimers s) ->
  (forall h tm, tms !! h = Some tm -> Sessions.timeouts s !! h = Some tm) ->
  (forall h tm, Sessions.timeouts s !! h = Some tm -> Sessions.timer_sessionId tm <> sid ->
     tms !! h = Some tm) ->
  forall s', Sessions.sessionTimers s' = sts -> Sessions.timeouts s' = tms ->
             Sessions.now s' = Sessions.now s -> Armed s'.
Proof.
  intros [A1 A2] -> Hsub Hkeep s' E1 E2 E3. constructor; rewrite ?E1, ?E2, ?E3.
  - intros k h Hk. apply lookup_delete_Some in Hk as [Hne Hk].
    destruct (A1 _ _ Hk) as (tm & Hl & Hs). exists tm. split; [|exact Hs].
    apply Hkeep; [exact Hl | congruence].
  - intros h tm Hl. eauto.
Qed.

Lemma session_onclose_timers close_does t s :
  Js.truthy_str (Sessions.sessionIdOf t s) = true ->
  Sessions.timeouts (Sessions.exec (Sessions.session_onclose close_does t) s)
  = match Sessions.sessionTimers s !! default "" (Sessions.sessionIdOf t s) with
    | Some old => delete old (Sessions.timeouts s)
    | None => Sessions.timeouts s
    end.
Proof.
  intros Htruthy.
  unfold Sessions.exec, Sessions.session_onclose, bind at 1, gets at 1. rewrite Htruthy.
  set (sid := default "" (Sessions.sessionIdOf t s)).
  unfold bind at 1, gets at 1. unfold bind at 1.
  set (s1 := snd (when_some (Sessions.sessionTimers s !! sid) Sessions.clearTimeout s)).
  assert (Hw : when_some (Sessions.sessionTimers s !! sid) Sessions.clearTimeout s
               = (Returned tt, s1)).
  { subst s1. destruct (Sessions.sessionTimers s !! sid); reflexivity. }
  rewrite Hw.
  unfold bind at 1, modify at 1. unfold bind at 1, modify at 1. unfold bind at 1.
  destruct (swallowed_close close_does t
              (Sessions.set_sessions (delete sid) (Sessions.set_sessionTimers (delete sid) s1)))
    as [s' [-> Hs']].
  unfold Sessions.console_log, modify.
  destruct Hs' as [->|[->|[tr [Htr ->]]]]; simpl; subst s1;
    destruct (Sessions.sessionTimers s !! sid); reflexivity.
Qed.

Lemma file_Armed rid req block s :
  Armed (snd (block s)) -> Armed (Sessions.file rid req block s).
Proof.
  intros HA. unfold Sessions.file. destruct (block s) as [[ex|e] s']; simpl in HA;
    (eapply Armed_frame; [..|exact HA]; reflexivity).
Qed.

Lemma post_begin_Armed FORCE_JSON req s :
  Sessions.Inv s -> Armed s -> Armed (snd (Sessions.post_begin FORCE_JSON req s)).
Proof.
  intros HI HA. unfold Sessions.post_begin, try_catch, bind at 1.
  unfold Sessions.sessionFor.
  destruct (Js.truthy_str _); unfold gets, ret at 1.
  - destruct (Sessions.sessions s !! _) as [t|].
    + unfold bind at 1, gets. unfold bind.
      destruct (touch_step (Sessions.sessionIdOf t s) t s) as [s' [-> ->]]. simpl.
      apply touchSession_Armed; [apply (Sessions.inv_timer_fresh _ HI) | exact HA].
    + destruct (negb _); simpl; [exact HA|].
      eapply Armed_frame; [..|exact HA]; reflexivity.
  - destruct (negb _); simpl; [exact HA|].
    eapply Armed_frame; [..|exact HA]; reflexivity.
Qed.

Lemma session_begin_Armed req s :
  Sessions.Inv s -> Armed s -> Armed (snd (Sessions.session_begin req s)).
Proof.
  intros HI HA. unfold Sessions.session_begin, try_catch, bind at 1.
  unfold Sessions.sessionFor.
  destruct (Js.truthy_str _); unfold gets, ret at 1; [|exact HA].
  destruct (Sessions.sessions s !! _) as [t|]; [|exact HA].
  unfold bind at 1, gets. unfold bind.
  destruct (touch_step (Sessions.sessionIdOf t s) t s) as [s' [-> ->]]. simpl.
  apply touchSession_Armed; [apply (Sessions.inv_timer_fresh _ HI) | exact HA].
Qed.

Lemma post_handled_Armed ex s :
  Sessions.Inv s -> Armed s -> Armed (snd (Sessions.post_handled ex s)).
Proof.
  intros HI HA. unfold Sessions.post_handled, try_catch, bind at 1.
  destruct (Sessions.ex_transport ex) as [t|]; [|exact HA].
  unfold bind, gets.
  destruct (touch_step (Sessions.sessionIdOf t s) t s) as [s' [-> ->]]. simpl.
  apply touchSession_Armed; [apply (Sessions.inv_timer_fresh _ HI) | exact HA].
Qed.

Lemma session_handled_Armed ex s :
  Armed s -> Armed (snd (Sessions.session_handled ex s)).
Proof.
  intros HA. unfold Sessions.session_handled, bind.
  destruct (Router.Method_eqb _ _); [|exact HA].
  destruct (Sessions.ex_transport ex) as [t|]; [|exact HA].
  unfold when_some, Sessions.sdk_close.
  destruct (Sessions.transports s !! t) as [tr|]; [|exact HA].
  simpl. eapply Armed_frame; [..|exact HA]; reflexivity.
Qed.

Lemma Armed_initial : Armed Sessions.initial.
Proof. constructor; simpl; intros *; rewrite lookup_empty; discriminate. Qed.

Section Expiry.

Variable API_KEY : option string.
Variable FORCE_JSON : bool.
Variable close_does : Sessions.Transport -> Sessions.Closing.

Lemma step_Armed ev s s' :
  Sessions.step API_KEY FORCE_JSON close_does ev s = Some s' ->
  Sessions.Inv s -> Armed s -> Armed s'.
Proof.
  intros Hstep HI HA. destruct ev as [dt|h|rid req|rid|rid e|rid uuid|rid|rid e|rid];
    simpl in Hstep.
  - destruct (0 <=? dt) eqn:Hdt; [|discriminate]. injection Hstep as <-.
    apply Z.leb_le in Hdt. destruct HA as [A1 A2]. constructor; simpl; [exact A1|].
    intros h tm Hl. apply A2 in Hl. lia.
  - destruct (Sessions.timeouts s !! h) as [tm|] eqn:Ht; [|discriminate].
    destruct (Sessions.deadline tm <=? Sessions.now s); [|discriminate].
    injection Hstep as <-. unfold Sessions.exec.
    destruct (expire_effect close_does (Sessions.timer_sessionId tm)
                (Sessions.timer_transport tm)
                (Sessions.set_timeouts (delete h) (Sessions.nextTimer s) s))
      as (s1 & -> & _ & Est & Et & En & _).
    simpl in *.
    apply (Armed_release s (Sessions.timer_sessionId tm) (delete h (Sessions.timeouts s))
             _ HA eq_refl); auto.
    + intros h' tm' Hl. apply lookup_delete_Some in Hl as [_ Hl]. exact Hl.
    + intros h' tm' Hl Hne. rewrite lookup_delete_ne; [exact Hl|]. intros <-. congruence.
  - destruct (Sessions.inflight s !! rid); [discriminate|].
    destruct (Router.requireKey API_KEY req).
    + destruct (Router.method req); try discriminate; injection Hstep as <-;
        apply file_Armed; auto using post_begin_Armed, session_begin_Armed.
    + injection Hstep as <-. eapply Armed_frame; [..|exact HA]; reflexivity.
  - destruct (Sessions.inflight s !! rid) as [ex|]; [|discriminate].
    destruct (Sessions.ex_phase ex); try discriminate. injection Hstep as <-.
    apply file_Armed. exact HA.
  - destruct (Sessions.inflight s !! rid) as [ex|]; [|discriminate].
    destruct (Sessions.ex_phase ex); try discriminate. injection Hstep as <-.
    apply file_Armed. eapply Armed_frame; [..|exact HA]; reflexivity.
  - destruct (Sessions.inflight s !! rid) as [ex|]; [|discriminate].
    destruct (Sessions.ex_phase ex); try discriminate.
    destruct (Router.method (Sessions.ex_request ex)); try discriminate.
    destruct (Sessions.ex_transport ex) as [t|]; [|discriminate].
    destruct (Sessions.transports s !! t) as [tr|]; [|discriminate].
    destruct (Sessions.sessionId tr); [discriminate|].
    destruct (_ && _); [|discriminate]. injection Hstep as <-.
    rewrite initialize_state.
    match goal with |- Armed (Sessions.add_log _ ?inner) =>
      apply (Armed_frame inner); [reflexivity..|] end.
    apply touchSession_Armed; [apply (Sessions.inv_timer_fresh _ HI)|].
    eapply Armed_frame; [..|exact HA]; reflexivity.
  - destruct (Sessions.inflight s !! rid) as [ex|]; [|discriminate].
    destruct (Sessions.ex_phase ex); try discriminate.
    destruct (Router.method (Sessions.ex_request ex)); injection Hstep as <-;
      apply file_Armed; auto using post_handled_Armed, session_handled_Armed.
  - destruct (Sessions.inflight s !! rid) as [ex|]; [|discriminate].
    destruct (Sessions.ex_phase ex); try discriminate. injection Hstep as <-.
    apply file_Armed. eapply Armed_frame; [..|exact HA]; reflexivity.
  - destruct (Sessions.inflight s !! rid) as [ex|]; [|discriminate].
    destruct (Sessions.ex_onclose ex); [|discriminate].
    destruct (Sessions.ex_transport ex) as [t|]; [|discriminate].
    injection Hstep as <-.
    eapply Armed_frame with (s := Sessions.exec _ s); try reflexivity.
    assert (Hsession : Armed (Sessions.exec (Sessions.session_onclose close_does t) s)).
    { destruct (Js.truthy_str (Sessions.sessionIdOf t s)) eqn:Htruthy.
      - pose proof (session_onclose_timers close_does t s Htruthy) as Etm.
        unfold Sessions.exec in *.
        destruct (session_onclose_effect close_does t s)
          as (s1 & Hrun & En & _ & _ & _ & Hcase).
        rewrite Hrun in *. simpl in *. rewrite Htruthy in Hcase. destruct Hcase as [_ Est].
        apply (Armed_release s (default "" (Sessions.sessionIdOf t s))
                 (Sessions.timeouts s1) _ HA eq_refl); auto.
        + intros h tm Hl. rewrite Etm in Hl.
          destruct (Sessions.sessionTimers s !! _); [|exact Hl].
          apply lookup_delete_Some in Hl as [_ Hl]. exact Hl.
        + intros h tm Hl Hne. rewrite Etm.
          destruct (Sessions.sessionTimers s !! _) as [old|] eqn:Hold; [|exact Hl].
          rewrite lookup_delete_ne; [exact Hl|]. intros <-.
          destruct (armed_registered _ HA _ _ Hold) as (tm' & Hl' & Hs'). congruence.
      - unfold Sessions.exec.
        destruct (session_onclose_effect close_does t s)
          as (s1 & -> & _ & _ & _ & _ & Hcase).
        rewrite Htruthy in Hcase. subst s1. exact HA. }
    destruct (Router.method (Sessions.ex_request ex)); try exact Hsession.
    unfold Sessions.exec, Sessions.post_onclose, bind, gets.
    destruct (Js.truthy_str _); [|exact HA].
    eapply Armed_frame; [..|exact HA]; reflexivity.
Qed.

Lemma run_Armed evs s s' :
  Sessions.run API_KEY FORCE_JSON close_does evs s = Some s' ->
  Sessions.Inv s -> Armed s -> Armed s'.
Proof.
  revert s. induction evs as [|ev evs IH]; intros s Hrun HI HA; simpl in Hrun.
  - injection Hrun as <-. exact HA.
  - destruct (Sessions.step _ _ _ ev s) as [s1|] eqn:Hs; [|discriminate].
    eapply IH; [exact Hrun | eapply step_Inv; eassumption | eapply step_Armed; eassumption].
Qed.

(** X15: no live session can outlive its idle time: in every reachable
    state each session in the map has a registered timeout that is armed,
    belongs to that session and is due within one TTL from now; so once
    600000 ms (or more) have passed without another event, that timeout can
    run, and when it runs the session is gone from both maps and the timeout
    from the table. *)
Theorem idle_session_expires (s : Sessions.State) (sid : string) (t : nat) :
  Sessions.reachable API_KEY FORCE_JSON close_does s ->
  Sessions.lookup sid s = Some t ->
  exists h tm,
    Sessions.sessionTimers s !! sid = Some h
    /\ Sessions.timeouts s !! h = Some tm
    /\ Sessions.timer_sessionId tm = sid
    /\ Sessions.deadline tm <= Sessions.now s + 600000
    /\ (forall dt, 600000 <= dt ->
         exists s1 s2,
           Sessions.step API_KEY FORCE_JSON close_does (Sessions.Tick dt) s = Some s1
           /\ Sessions.step API_KEY FORCE_JSON close_does (Sessions.Fire h) s1 = Some s2
           /\ Sessions.lookup sid s2 = None
           /\ Sessions.sessionTimers s2 !! sid = None
           /\ Sessions.timeouts s2 !! h = None).
Proof.
  intros Hreach Hlook. pose proof (reachable_Inv _ _ _ _ Hreach) as HI.
  assert (HA : Armed s).
  { destruct Hreach as [evs Hrun].
    eapply run_Armed; [exact Hrun | apply Inv_initial | apply Armed_initial]. }
  destruct (Sessions.inv_session_has_timer _ HI _ _ Hlook) as [h Hh].
  destruct (armed_registered _ HA _ _ Hh) as (tm & Hl & Hs).
  pose proof (armed_due _ HA _ _ Hl) as Hdue. change Sessions.TTL_MS with 600000 in Hdue.
  exists h, tm. repeat split; auto.
  intros dt Hdt.
  assert (Htick : (0 <=? dt) = true) by (apply Z.leb_le; lia).
  assert (Hdue' : (Sessions.deadline tm <=? Sessions.now s + dt) = true)
    by (apply Z.leb_le; lia).
  remember (Sessions.set_now (Sessions.now s + dt) s) as s1 eqn:Hs1.
  assert (Hl1 : Sessions.timeouts s1 !! h = Some tm) by (subst s1; exact Hl).
  assert (Hn1 : Sessions.now s1 = Sessions.now s + dt) by (subst s1; reflexivity).
  destruct (expire_effect close_does (Sessions.timer_sessionId tm)
              (Sessions.timer_transport tm)
              (Sessions.set_timeouts (delete h) (Sessions.nextTimer s1) s1))
    as (s2 & Hrun & Es & Est & Et & _).
  exists s1, s2. split; [|split].
  - unfold Sessions.step. rewrite Htick, Hs1. reflexivity.
  - unfold Sessions.step. rewrite Hl1, Hn1, Hdue'. unfold Sessions.exec. rewrite Hrun.
    reflexivity.
  - unfold Sessions.lookup. rewrite Es, Est, Et, Hs. simpl.
    rewrite !lookup_delete_eq. auto.
Qed.

End Expiry.

Lemma idle_session_expires_witness :
  exists h tm,
    Sessions.sessionTimers (after open_session) !! "s1" = Some h
    /\ Sessions.timeouts (after open_session) !! h = Some tm
    /\ Sessions.timer_sessionId tm = "s1"
    /\ Sessions.deadline tm <= Sessions.now (after open_session) + 600000
    /\ (forall dt, 600000 <= dt ->
         exists s1 s2,
           demo_step (Sessions.Tick dt) (after open_session) = Some s1
           /\ demo_step (Sessions.Fire h) s1 = Some s2
           /\ Sessions.lookup "s1" s2 = None
           /\ Sessions.sessionTimers s2 !! "s1" = None
           /\ Sessions.timeouts s2 !! h = None).
Proof.
  apply (idle_session_expires (Some "k") false throws_when_closed (after open_session) "s1" 0).
  - exists open_session. vm_compute. reflexivity.
  - vm_compute. reflexivity.
Defined.

(** ** The key check guards every transport *)

Lemma touchSession_inflight sessionId transport s :
  Sessions.inflight (Sessions.exec (Sessions.touchSession sessionId transport) s)
  = Sessions.inflight s.
Proof.
  unfold_blocks. destruct (Js.truthy_str sessionId); simpl; [|reflexivity].
  destruct (Sessions.sessionTimers s !! _); reflexivity.
Qed.

Lemma expire_inflight close_does sid t s :
  Sessions.inflight (Sessions.exec (Sessions.expire close_does sid t) s)
  = Sessions.inflight s.
Proof.
  unfold Sessions.exec, Sessions.expire, bind at 1.
  destruct (swallowed_close close_does t s) as [s1 [-> Hs1]].
  unfold bind, modify, Sessions.console_log.
  destruct Hs1 as [->|[->|[tr [Htr ->]]]]; reflexivity.
Qed.

Lemma session_onclose_inflight close_does t s :
  Sessions.inflight (Sessions.exec (Sessions.session_onclose close_does t) s)
  = Sessions.inflight s.
Proof.
  unfold Sessions.exec, Sessions.session_onclose, bind at 1, gets at 1.
  destruct (Js.truthy_str (Sessions.sessionIdOf t s)); [|reflexivity].
  set (sid := default "" (Sessions.sessionIdOf t s)).
  unfold bind at 1, gets at 1. unfold bind at 1.
  set (s1 := snd (when_some (Sessions.sessionTimers s !! sid) Sessions.clearTimeout s)).
  assert (Hw : when_some (Sessions.sessionTimers s !! sid) Sessions.clearTimeout s
               = (Returned tt, s1)).
  { subst s1. destruct (Sessions.sessionTimers s !! sid); reflexivity. }
  rewrite Hw.
  unfold bind at 1, modify at 1. unfold bind at 1, modify at 1. unfold bind at 1.
  destruct (swallowed_close close_does t
              (Sessions.set_sessions (delete sid) (Sessions.set_sessionTimers (delete sid) s1)))
    as [s' [-> Hs']].
  unfold Sessions.console_log, modify.
  destruct Hs' as [->|[->|[tr [Htr ->]]]]; simpl; subst s1;
    destruct (Sessions.sessionTimers s !! sid); reflexivity.
Qed.

Lemma post_begin_files FORCE_JSON req s :
  files_request FORCE_JSON (Sessions.post_begin FORCE_JSON req) req s.
Proof.
  unfold files_request, Sessions.post_begin, try_catch, bind at 1.
  unfold Sessions.sessionFor.
  destruct (Js.truthy_str _); unfold gets, ret at 1.
  - destruct (Sessions.sessions s !! _) as [t|].
    + unfold bind at 1, gets. unfold bind.
      destruct (touch_step (Sessions.sessionIdOf t s) t s) as [s' [-> ->]].
      eexists _, _. split; [reflexivity|]. split; [apply touchSession_inflight|].
      right. reflexivity.
    + destruct (negb _); simpl; eexists _, _; (split; [reflexivity|]);
        (split; [reflexivity|]); right; reflexivity.
  - destruct (negb _); simpl; eexists _, _; (split; [reflexivity|]);
      (split; [reflexivity|]); right; reflexivity.
Qed.

Lemma session_begin_files FORCE_JSON req s :
  files_request FORCE_JSON (Sessions.session_begin req) req s.
Proof.
  unfold files_request, Sessions.session_begin, try_catch, bind at 1.
  unfold Sessions.sessionFor.
  destruct (Js.truthy_str _); unfold gets, ret at 1;
    [|eexists _, _; split; [reflexivity|]; split; [reflexivity|]; left; reflexivity].
  destruct (Sessions.sessions s !! _) as [t|];
    [|eexists _, _; split; [reflexivity|]; split; [reflexivity|]; left; reflexivity].
  unfold bind at 1, gets. unfold bind.
  destruct (touch_step (Sessions.sessionIdOf t s) t s) as [s' [-> ->]].
  eexists _, _. split; [reflexivity|]. split; [apply touchSession_inflight|].
  left. reflexivity.
Qed.

Lemma post_handled_files FORCE_JSON ex s :
  files_request FORCE_JSON (Sessions.post_handled ex) (Sessions.ex_request ex) s.
Proof.
  unfold files_request, Sessions.post_handled, try_catch.
  destruct (Sessions.ex_transport ex) as [t|];
    [|eexists _, _; split; [reflexivity|]; split; [reflexivity|]; left; reflexivity].
  unfold bind, gets.
  destruct (touch_step (Sessions.sessionIdOf t s) t s) as [s' [-> ->]].
  eexists _, _. split; [reflexivity|]. split; [apply touchSession_inflight|].
  left. reflexivity.
Qed.

Lemma session_handled_files FORCE_JSON ex s :
  files_request FORCE_JSON (Sessions.session_handled ex) (Sessions.ex_request ex) s.
Proof.
  unfold files_request, Sessions.session_handled, bind.
  destruct (Router.Method_eqb _ _);
    [|eexists _, _; split; [reflexivity|]; split; [reflexivity|]; left; reflexivity].
  destruct (Sessions.ex_transport ex) as [t|];
    [|eexists _, _; split; [reflexivity|]; split; [reflexivity|]; left; reflexivity].
  unfold when_some, Sessions.sdk_close.
  destruct (Sessions.transports s !! t) as [tr|];
    eexists _, _; (split; [reflexivity|]); (split; [reflexivity|]); left; reflexivity.
Qed.

Lemma failed_files FORCE_JSON ex e s :
  files_request FORCE_JSON (Sessions.failed ex e) (Sessions.ex_request ex) s.
Proof.
  unfold files_request, Sessions.failed, bind.
  eexists _, _. split; [reflexivity|]. split; [reflexivity|]. left. reflexivity.
Qed.

Lemma post_connected_files FORCE_JSON ex s :
  files_request FORCE_JSON (Sessions.post_connected ex) (Sessions.ex_request ex) s.
Proof.
  unfold files_request, Sessions.post_connected.
  eexists _, _. split; [reflexivity|]. split; [reflexivity|]. left. reflexivity.
Qed.

Lemma method_ensureAccept FORCE_JSON req :
  Router.method (Sessions.ensureAccept FORCE_JSON req) = Router.method req.
Proof. apply ensureAccept_keeps. Qed.

Lemma suppliedKey_ensureAccept FORCE_JSON req :
  Router.suppliedKey (Sessions.ensureAccept FORCE_JSON req) = Router.suppliedKey req.
Proof.
  unfold Sessions.ensureAccept. destruct FORCE_JSON; [reflexivity|].
  destruct (_ || _); reflexivity.
Qed.

Lemma requireKey_ensureAccept API_KEY FORCE_JSON req :
  Router.requireKey API_KEY (Sessions.ensureAccept FORCE_JSON req)
  = Router.requireKey API_KEY req.
Proof.
  unfold Sessions.ensureAccept. destruct FORCE_JSON; [reflexivity|].
  destruct (_ || _); reflexivity.
Qed.

Section Keyed.

Variable API_KEY : option string.
Variable FORCE_JSON : bool.
Variable close_does : Sessions.Transport -> Sessions.Closing.

Lemma keyed_file rid req0 req block s :
  keyed API_KEY s ->
  files_request FORCE_JSON block req s ->
  Router.requireKey API_KEY req = Router.Next ->
  Router.method req <> Router.OPTIONS ->
  keyed API_KEY (Sessions.file rid req0 block s).
Proof.
  intros Hk (ex & s' & Hb & Hin & Hreq) Hkey Hm rid' ex' Hl.
  unfold Sessions.file in Hl. rewrite Hb in Hl. simpl in Hl. rewrite Hin in Hl.
  destruct (decide (rid' = rid)) as [->|Hne].
  - rewrite lookup_insert_eq in Hl. injection Hl as <-. left.
    destruct Hreq as [-> | ->]; [auto|].
    rewrite requireKey_ensureAccept, method_ensureAccept. auto.
  - rewrite lookup_insert_ne in Hl by congruence. apply Hk in Hl. exact Hl.
Qed.

Lemma keyed_frame s s' :
  Sessions.inflight s' = Sessions.inflight s -> keyed API_KEY s -> keyed API_KEY s'.
Proof. intros E Hk rid ex Hl. rewrite E in Hl. apply (Hk rid ex Hl). Qed.

Lemma step_keyed ev s s' :
  Sessions.step API_KEY FORCE_JSON close_does ev s = Some s' ->
  keyed API_KEY s -> keyed API_KEY s'.
Proof.
  assert (Hturned : forall ex,
            ex = Sessions.answered (Sessions.ex_request ex) 401 (Router.Text "unauthorized") ->
            Sessions.ex_phase ex = Sessions.Finished /\ Sessions.ex_onclose ex = false).
  { intros ex ->. split; reflexivity. }
  assert (Hcont : forall rid ex block s,
            keyed API_KEY s -> Sessions.inflight s !! rid = Some ex ->
            Sessions.ex_phase ex <> Sessions.Finished ->
            files_request FORCE_JSON block (Sessions.ex_request ex) s ->
            keyed API_KEY (Sessions.file rid (Sessions.ex_request ex) block s)).
  { intros rid ex block s0 Hk Hex Hph Hf.
    destruct (Hk _ _ Hex) as [[Hkey Hm] | Ht].
    - eapply keyed_file; eauto.
    - apply Hturned in Ht as [Ht _]. contradiction. }
  intros Hstep Hk. destruct ev as [dt|h|rid req|rid|rid e|rid uuid|rid|rid e|rid];
    simpl in Hstep.
  - destruct (0 <=? dt); [|discriminate]. injection Hstep as <-. exact Hk.
  - destruct (Sessions.timeouts s !! h) as [tm|]; [|discriminate].
    destruct (Sessions.deadline tm <=? Sessions.now s); [|discriminate].
    injection Hstep as <-. eapply keyed_frame; [apply expire_inflight|exact Hk].
  - destruct (Sessions.inflight s !! rid); [discriminate|].
    destruct (Router.requireKey API_KEY req) eqn:Hkey.
    + destruct (Router.method req) eqn:Hm; try discriminate; injection Hstep as <-;
        (eapply keyed_file;
         [exact Hk | eauto using post_begin_files, session_begin_files | exact Hkey
         | rewrite Hm; discriminate]).
    + injection Hstep as <-. intros rid' ex' Hl. simpl in Hl.
      destruct (decide (rid' = rid)) as [->|Hne].
      * rewrite lookup_insert_eq in Hl. injection Hl as <-. right.
        pose proof (requireKey_rejects API_KEY req) as Hrej. rewrite Hkey in Hrej.
        specialize (Hrej ltac:(discriminate)). injection Hrej as -> ->. reflexivity.
      * rewrite lookup_insert_ne in Hl by congruence. apply Hk in Hl. exact Hl.
  - destruct (Sessions.inflight s !! rid) as [ex|] eqn:Hex; [|discriminate].
    destruct (Sessions.ex_phase ex) eqn:Hph; try discriminate. injection Hstep as <-.
    apply Hcont; auto using post_connected_files. rewrite Hph. discriminate.
  - destruct (Sessions.inflight s !! rid) as [ex|] eqn:Hex; [|discriminate].
    destruct (Sessions.ex_phase ex) eqn:Hph; try discriminate. injection Hstep as <-.
    apply Hcont; auto using failed_files. rewrite Hph. discriminate.
  - destruct (Sessions.inflight s !! rid) as [ex|]; [|discriminate].
    destruct (Sessions.ex_phase ex); try discriminate.
    destruct (Router.method (Sessions.ex_request ex)); try discriminate.
    destruct (Sessions.ex_transport ex) as [t|]; [|discriminate].
    destruct (Sessions.transports s !! t) as [tr|]; [|discriminate].
    destruct (Sessions.sessionId tr); [discriminate|].
    destruct (_ && _); [|discriminate]. injection Hstep as <-.
    rewrite initialize_state. eapply keyed_frame; [|exact Hk].
    simpl. rewrite touchSession_inflight. reflexivity.
  - destruct (Sessions.inflight s !! rid) as [ex|] eqn:Hex; [|discriminate].
    destruct (Sessions.ex_phase ex) eqn:Hph; try discriminate.
    destruct (Router.method (Sessions.ex_request ex)); injection Hstep as <-;
      (apply Hcont; auto using post_handled_files, session_handled_files);
      rewrite Hph; discriminate.
  - destruct (Sessions.inflight s !! rid) as [ex|] eqn:Hex; [|discriminate].
    destruct (Sessions.ex_phase ex) eqn:Hph; try discriminate. injection Hstep as <-.
    apply Hcont; auto using failed_files. rewrite Hph. discriminate.
  - destruct (Sessions.inflight s !! rid) as [ex|] eqn:Hex; [|discriminate].
    destruct (Sessions.ex_onclose ex) eqn:Hon; [|discriminate].
    destruct (Sessions.ex_transport ex) as [t|]; [|discriminate].
    injection Hstep as <-. intros rid' ex' Hl. simpl in Hl.
    assert (Hin : Sessions.inflight
                    (Sessions.exec
                       match Router.method (Sessions.ex_request ex) with
                       | Router.POST => Sessions.post_onclose t
                       | _ => Sessions.session_onclose close_does t
                       end s) = Sessions.inflight s).
    { destruct (Router.method (Sessions.ex_request ex));
        try apply session_onclose_inflight.
      unfold Sessions.exec, Sessions.post_onclose, bind, gets.
      destruct (Js.truthy_str _); reflexivity. }
    rewrite Hin in Hl.
    destruct (decide (rid' = rid)) as [->|Hne].
    + rewrite lookup_insert_eq in Hl. injection Hl as <-.
      destruct (Hk _ _ Hex) as [Hkeyed | Ht]; [left; exact Hkeyed|].
      apply Hturned in Ht as [_ Ht]. congruence.
    + rewrite lookup_insert_ne in Hl by congruence. apply Hk in Hl. exact Hl.
Qed.

Lemma run_keyed evs s s' :
  Sessions.run API_KEY FORCE_JSON close_does evs s = Some s' ->
  keyed API_KEY s -> keyed API_KEY s'.
Proof.
  revert s. induction evs as [|ev evs IH]; intros s Hrun Hk; simpl in Hrun.
  - injection Hrun as <-. exact Hk.
  - destruct (Sessions.step _ _ _ ev s) as [s1|] eqn:Hs; [|discriminate].
    eapply IH; [exact Hrun | eapply step_keyed; eassumption].
Qed.

Lemma keyed_initial : keyed API_KEY Sessions.initial.
Proof. intros rid ex Hl. simpl in Hl. rewrite lookup_empty in Hl. discriminate. Qed.

(** Sessions exist only where a key is configured. *)
Lemma run_sessions_need_key evs s s' :
  Sessions.run API_KEY FORCE_JSON close_does evs s = Some s' ->
  keyed API_KEY s ->
  (Sessions.sessions s = ∅ \/ Js.truthy_str API_KEY = true) ->
  Sessions.sessions s' = ∅ \/ Js.truthy_str API_KEY = true.
Proof.
  revert s. induction evs as [|ev evs IH]; intros s Hrun Hk Hs; simpl in Hrun.
  - injection Hrun as <-. exact Hs.
  - destruct (Sessions.step _ _ _ ev s) as [s1|] eqn:Hstep; [|discriminate].
    apply (IH s1 Hrun); [eapply step_keyed; eassumption|].
    destruct Hs as [Hempty | Hkey]; [|right; exact Hkey].
    destruct (step_sessions _ _ _ _ _ _ Hstep)
      as [Es | [[k Es] | (rid & uuid & ex & t & _ & Hex & Ht & _)]].
    + left. congruence.
    + left. rewrite Es, Hempty. apply delete_empty.
    + right. destruct (Hk _ _ Hex) as [[Hnext Hm] | Hturned].
      * destruct (requireKey_accepts _ _ Hm Hnext) as (k & -> & Hne & _).
        apply truthy_str_Some. eauto.
      * rewrite Hturned in Ht. discriminate.
Qed.

(** X16: the key check stands before every transport: in every reachable
    state an exchange that was handed a transport belongs to a request that
    supplied the configured, non-empty key; and a session exists only where
    such a key is configured, so with [MCP_API_KEY] unset or empty no session
    is ever created. *)
Theorem key_check_guards_transports (s : Sessions.State) :
  Sessions.reachable API_KEY FORCE_JSON close_does s ->
  (forall rid ex t,
     Sessions.inflight s !! rid = Some ex -> Sessions.ex_transport ex = Some t ->
     exists k, API_KEY = Some k /\ k <> ""
               /\ Router.suppliedKey (Sessions.ex_request ex) = Js.Str k)
  /\ (forall sid t, Sessions.lookup sid s = Some t ->
        exists k, API_KEY = Some k /\ k <> "")
  /\ (Js.truthy_str API_KEY = false -> Sessions.sessions s = ∅).
Proof.
  intros [evs Hrun].
  pose proof (run_keyed _ _ _ Hrun keyed_initial) as Hk.
  pose proof (run_sessions_need_key _ _ _ Hrun keyed_initial (or_introl eq_refl)) as Hs.
  repeat apply conj.
  - intros rid ex t Hex Ht. destruct (Hk _ _ Hex) as [[Hnext Hm] | Hturned].
    + apply (requireKey_accepts _ _ Hm Hnext).
    + rewrite Hturned in Ht. discriminate.
  - intros sid t Hlook. destruct Hs as [Hempty | Hkey].
    + unfold Sessions.lookup in Hlook. rewrite Hempty, lookup_empty in Hlook. discriminate.
    + apply truthy_str_Some in Hkey as (k & -> & Hne). eauto.
  - intros Hno. destruct Hs as [Hempty | Hkey]; [exact Hempty | congruence].
Qed.

End Keyed.

Lemma key_check_guards_transports_witness :
  exists k, Some "k" = Some k /\ k <> ""
            /\ Router.suppliedKey (Sessions.ensureAccept false (request Router.POST None true))
               = Js.Str k.
Proof.
  assert (Hreach : Sessions.reachable (Some "k") false throws_when_closed
                     (after open_session)).
  { exists open_session. vm_compute. reflexivity. }
  destruct (key_check_guards_transports (Some "k") false throws_when_closed _ Hreach)
    as (Hguard & _).
  apply (Hguard 0%nat
           {| Sessions.ex_request :=
                Sessions.ensureAccept false (request Router.POST None true);
              Sessions.ex_transport := Some 0%nat; Sessions.ex_phase := Sessions.Finished;
              Sessions.ex_onclose := true; Sessions.ex_response := None |} 0%nat).
  - vm_compute. reflexivity.
  - reflexivity.
Defined.

(** X17: one timeout per session: in every reachable state at most one
    armed timeout belongs to any session id, and it is the one registered in
    [sessionTimers]; for an id that has a session there is exactly one. *)
Theorem one_timer_per_session
    (API_KEY : option string) (FORCE_JSON : bool) (close_does : Sessions.Transport -> Sessions.Closing)
    (s : Sessions.State) :
  Sessions.reachable API_KEY FORCE_JSON close_does s ->
  (forall h h' tm tm',
     Sessions.timeouts s !! h = Some tm -> Sessions.timeouts s !! h' = Some tm' ->
     Sessions.timer_sessionId tm = Sessions.timer_sessionId tm' ->
     h = h' /\ Sessions.sessionTimers s !! Sessions.timer_sessionId tm = Some h)
  /\ (forall sid t, Sessions.lookup sid s = Some t ->
        exists h tm, Sessions.timeouts s !! h = Some tm /\ Sessions.timer_sessionId tm = sid
          /\ forall h' tm', Sessions.timeouts s !! h' = Some tm' ->
               Sessions.timer_sessionId tm' = sid -> h' = h).
Proof.
  intros Hreach. pose proof (reachable_Inv _ _ _ _ Hreach) as HI.
  assert (HA : Armed s).
  { destruct Hreach as [evs Hrun].
    eapply run_Armed; [exact Hrun | apply Inv_initial | apply Armed_initial]. }
  split.
  - intros h h' tm tm' Hl Hl' Hs.
    pose proof (Sessions.inv_timer_registered _ HI _ _ Hl) as H1.
    pose proof (Sessions.inv_timer_registered _ HI _ _ Hl') as H2.
    rewrite <- Hs in H2. split; [congruence | exact H1].
  - intros sid t Hlook.
    destruct (Sessions.inv_session_has_timer _ HI _ _ Hlook) as [h Hh].
    destruct (armed_registered _ HA _ _ Hh) as (tm & Hl & Hs).
    exists h, tm. split; [exact Hl|]. split; [exact Hs|].
    intros h' tm' Hl' Hs'.
    pose proof (Sessions.inv_timer_registered _ HI _ _ Hl') as H2.
    rewrite Hs' in H2. congruence.
Qed.

Lemma one_timer_per_session_witness :
  exists h tm,
    Sessions.timeouts (after stream_open) !! h = Some tm
    /\ Sessions.timer_sessionId tm = "s1"
    /\ forall h' tm', Sessions.timeouts (after stream_open) !! h' = Some tm' ->
         Sessions.timer_sessionId tm' = "s1" -> h' = h.
Proof.
  assert (Hreach : Sessions.reachable (Some "k") false throws_when_closed (after stream_open)).
  { exists stream_open. vm_compute. reflexivity. }
  destruct (one_timer_per_session (Some "k") false throws_when_closed _ Hreach) as [_ H].
  apply (H "s1" 0%nat). vm_compute. reflexivity.
Defined.

Lemma ensureAccept_satisfies_transport_witness :
  Sessions.ensureAccept false streaming_post = streaming_post.
Proof.
  destruct (ensureAccept_satisfies_transport false streaming_post) as (_ & _ & _ & H & _).
  apply H; reflexivity.
Defined.
